(** * HellfireOS: kernel bring-up, polling server, libc helpers, NoC test

    A shallow embedding of the parts of
      - [lib/libc/libc.c]          ([strncmp], [itoa], [__udivmodsi4]),
      - [sys/kernel/main.c]        ([clear_tcb], [clear_pcb], [init_queues],
                                    [polling_server_task], [main]),
      - [app/noc_test/noc_test.c]  ([sender], [receiver], [app_main])
    together with the properties the system description states about them.

    Conventions.  A C integer of width w is a [Z]; every operation that can
    leave the range is followed by the wrap to that width.  C strings and
    buffers are lists; pointers into a buffer are offsets.  Loops whose trip
    count is bounded by the word size run on fuel and return [None] when
    the fuel is gone; the theorems show the fuel given is enough. *)

From Stdlib Require Import ZArith Lia Bool String Ascii.
From stdpp Require Import base option list.

Local Open Scope Z_scope.

(** ** Machine integers *)

Module Word.

Definition wrap_u (w : Z) (z : Z) : Z := z mod 2 ^ w.
Definition wrap_s (w : Z) (z : Z) : Z := (z + 2 ^ (w - 1)) mod 2 ^ w - 2 ^ (w - 1).

Definition u16 := wrap_u 16.
Definition u32 := wrap_u 32.
Definition s16 := wrap_s 16.
Definition s32 := wrap_s 32.

Definition is_u16 (z : Z) : Prop := 0 <= z < 2 ^ 16.
Definition is_u32 (z : Z) : Prop := 0 <= z < 2 ^ 32.
Definition is_s16 (z : Z) : Prop := - 2 ^ 15 <= z < 2 ^ 15.
Definition is_s32 (z : Z) : Prop := - 2 ^ 31 <= z < 2 ^ 31.

Definition INT32_MIN : Z := - 2 ^ 31.
Definition INT32_MAX : Z := 2 ^ 31 - 1.

End Word.

(** ** libc *)

Module Libc.
Import Word.

(** *** [__udivmodsi4] *)

(** First loop of [__udivmodsi4]:
    [while (den < num && bit && !(den & (1L << 31))) { den <<= 1; bit <<= 1; }] *)
Fixpoint udivmod_align (fuel : nat) (num den bit : Z) : option (Z * Z) :=
  match fuel with
  | O => None
  | S fuel' =>
      if (den <? num) && negb (bit =? 0) && (Z.land den (Z.shiftl 1 31) =? 0)
      then udivmod_align fuel' num (u32 (Z.shiftl den 1)) (u32 (Z.shiftl bit 1))
      else Some (den, bit)
  end.

(** Second loop:
    [while (bit) { if (num >= den) { num -= den; res |= bit; } bit >>= 1; den >>= 1; }] *)
Fixpoint udivmod_subtract (fuel : nat) (num den bit res : Z) : option (Z * Z) :=
  match fuel with
  | O => None
  | S fuel' =>
      if bit =? 0 then Some (num, res)
      else
        let '(num, res) :=
          if num >=? den then (u32 (num - den), Z.lor res bit) else (num, res) in
        udivmod_subtract fuel' num (Z.shiftr den 1) (Z.shiftr bit 1) res
  end.

(** Both loops move a single set bit across a 32-bit word, so neither can
    take more than 33 tests of its condition. *)
Definition word_fuel : nat := 33.

Definition __udivmodsi4 (num den modwanted : Z) : option Z :=
  match udivmod_align word_fuel num den 1 with
  | None => None
  | Some (den, bit) =>
      match udivmod_subtract word_fuel num den bit 0 with
      | None => None
      | Some (num, res) => Some (if modwanted =? 0 then res else num)
      end
  end.

(** *** [strncmp] *)

(** A C string is the list of its bytes; the byte just past the list is the
    terminating NUL.  A pointer into it is an offset.  Every dereference is
    recorded, so that a run also tells which bytes it looked at. *)
Inductive operand := Str1 | Str2.

Definition deref (s : list Z) (p : nat) : Z := nth p s 0.

(** [return (n < 0 ? 0 : *s1 - *--s2);] *)
Definition strncmp_return (s1 s2 : list Z) (p1 p2 : nat) (n : Z)
    (reads : list (operand * nat)) : Z * list (operand * nat) :=
  if n <? 0 then (0, reads)
  else
    let p2 := pred p2 in
    (deref s1 p1 - deref s2 p2, reads ++ [(Str1, p1); (Str2, p2)]).

(** [while (--n >= 0 && *s1 == *s2++) if ( *s1++ == 0) return 0;] followed
    by the return statement.  [--n] is a 32-bit signed decrement. *)
Fixpoint strncmp_loop (fuel : nat) (s1 s2 : list Z) (p1 p2 : nat) (n : Z)
    (reads : list (operand * nat)) : option (Z * list (operand * nat)) :=
  match fuel with
  | O => None
  | S fuel' =>
      let n := s32 (n - 1) in
      if n >=? 0 then
        let a := deref s1 p1 in
        let b := deref s2 p2 in
        let reads := reads ++ [(Str1, p1); (Str2, p2)] in
        let p2 := S p2 in
        if a =? b then
          let c := deref s1 p1 in
          let reads := reads ++ [(Str1, p1)] in
          let p1 := S p1 in
          if c =? 0 then Some (0, reads)
          else strncmp_loop fuel' s1 s2 p1 p2 n reads
        else Some (strncmp_return s1 s2 p1 p2 n reads)
      else Some (strncmp_return s1 s2 p1 p2 n reads)
  end.

(** The loop returns at the latest when [s1] reaches its terminator, so
    [length s1 + 1] rounds are enough. *)
Definition strncmp (s1 s2 : list Z) (n : Z) : option (Z * list (operand * nat)) :=
  strncmp_loop (S (length s1)) s1 s2 0 0 n [].

(** *** [itoa] *)

Definition NUL : ascii := "000"%char.

(** A buffer is a list of characters and a pointer an offset into it; an
    access outside the buffer has no defined result. *)
Definition load (m : list ascii) (p : nat) : option ascii := m !! p.

Definition store (m : list ascii) (p : nat) (c : ascii) : option (list ascii) :=
  if decide (p < length m)%nat then Some (<[p := c]> m) else None.

Definition itoa_table : string :=
  "zyxwvutsrqponmlkjihgfedcba9876543210123456789abcdefghijklmnopqrstuvwxyz".

Definition itoa_table_at (idx : Z) : ascii :=
  match String.get (Z.to_nat idx) itoa_table with
  | Some c => c
  | None => NUL
  end.

(** [do { tmp_value = i; i /= base; *ptr++ = table[35 + (tmp_value - i * base)]; } while (i);]
    Returns the last [tmp_value], the pointer and the buffer. *)
Fixpoint itoa_digits (fuel : nat) (i base : Z) (ptr : nat) (m : list ascii)
    : option (Z * nat * list ascii) :=
  match fuel with
  | O => None
  | S fuel' =>
      let tmp_value := i in
      let i := s32 (Z.quot i base) in
      m ← store m ptr (itoa_table_at (s32 (35 + s32 (tmp_value - s32 (i * base)))));
      let ptr := S ptr in
      if i =? 0 then Some (tmp_value, ptr, m)
      else itoa_digits fuel' i base ptr m
  end.

(** [while (ptr1 < ptr) { tmp_char = *ptr; *ptr-- = *ptr1; *ptr1++ = tmp_char; }] *)
Fixpoint itoa_reverse (fuel : nat) (ptr1 ptr : nat) (m : list ascii)
    : option (list ascii) :=
  match fuel with
  | O => None
  | S fuel' =>
      if decide (ptr1 < ptr)%nat then
        tmp_char ← load m ptr;
        c ← load m ptr1;
        m ← store m ptr c;
        let ptr := pred ptr in
        m ← store m ptr1 tmp_char;
        let ptr1 := S ptr1 in
        itoa_reverse fuel' ptr1 ptr m
      else Some m
  end.

(** [itoa(i, s, base)]: the result is the returned pointer and the buffer. *)
Definition itoa (i : Z) (s : nat) (base : Z) (m : list ascii)
    : option (nat * list ascii) :=
  let ptr := s in
  let ptr1 := s in
  if (base <? 2) || (base >? 36) then
    m ← store m s NUL;
    Some (s, m)
  else
    '(tmp_value, ptr, m) ← itoa_digits word_fuel i base ptr m;
    '(ptr, m) ← (if tmp_value <? 0
                 then m ← store m ptr "-"%char; Some (S ptr, m)
                 else Some (ptr, m));
    m ← store m ptr NUL;
    let ptr := pred ptr in
    m ← itoa_reverse word_fuel ptr1 ptr m;
    Some (s, m).

(** The string the description of [itoa] asks for, stated on its own: the
    digits of a natural number in positional notation, most significant
    first, without leading zeros; lower-case letters stand for the digits
    ten to thirty-five; a negative number is written as a minus sign
    followed by the digits of its absolute value. *)
Definition digit_char (d : Z) : ascii :=
  if d <? 10 then ascii_of_nat (Z.to_nat (48 + d))
  else ascii_of_nat (Z.to_nat (97 + (d - 10))).

Fixpoint digits_from (fuel : nat) (n base : Z) (acc : list Z) : list Z :=
  match fuel with
  | O => acc
  | S fuel' =>
      let acc := n mod base :: acc in
      if n / base =? 0 then acc else digits_from fuel' (n / base) base acc
  end.

(** The same digits, least significant first: the order in which the loop
    of [itoa] meets them. *)
Fixpoint digits_lsf (fuel : nat) (n base : Z) : list Z :=
  match fuel with
  | O => []
  | S fuel' =>
      n mod base :: (if n / base =? 0 then [] else digits_lsf fuel' (n / base) base)
  end.

Definition standard_digits (n base : Z) : list Z :=
  digits_from (S (Z.to_nat (Z.log2 n))) n base [].

(** The value a digit list denotes (most significant digit first). *)
Definition digits_value (base : Z) (ds : list Z) : Z :=
  fold_left (fun acc d => acc * base + d) ds 0.

Definition standard_string (i base : Z) : list ascii :=
  (if i <? 0 then ["-"%char] else []) ++ map digit_char (standard_digits (Z.abs i) base).

End Libc.

(** ** Kernel: bring-up and the polling server ([sys/kernel/main.c]) *)

Module Kernel.
Import Word.

(** *** Data *)

(** Task states; [main.c] uses [TASK_IDLE], [TASK_READY] and
    [TASK_RUNNING], the other two are those of the task model. *)
Inductive task_state :=
  TASK_IDLE | TASK_READY | TASK_RUNNING | TASK_BLOCKED | TASK_DELAYED.

(** The functions [main.c] passes around as task entry points. *)
Inductive task_fn :=
  fn_idletask | fn_polling_server_task | fn_aperiodic_task_generator | fn_dummy_task.

(** The schedulers [clear_pcb] installs. *)
Inductive sched_fn := sched_rma | sched_priorityrr.

Inductive panic_code := PANIC_ABORTED | PANIC_GPF | PANIC_OOM.

(** A task control block, with the fields [main.c] reads and writes.  The
    [struct] itself is declared in a header outside the files at hand, so
    an integer field is a [Z] holding the value assigned to it; a null
    pointer is [None]; [name] is a character array. *)
Record tcb_entry := {
  id : Z;
  name : list ascii;
  state : task_state;
  priority : Z;
  priority_rem : Z;
  delay : Z;
  rtjobs : Z;
  bgjobs : Z;
  deadline_misses : Z;
  period : Z;
  capacity : Z;
  deadline : Z;
  capacity_rem : Z;
  deadline_rem : Z;
  task_context : Z;
  ptask : option task_fn;
  pstack : option Z;
  stack_size : Z;
  other_data : Z
}.

Record pcb_entry := {
  sched_rt : option sched_fn;
  sched_be : option sched_fn;
  coop_cswitch : Z;
  preempt_cswitch : Z;
  interrupts : Z;
  tick_time : Z
}.

(** Modelled from the spec: [queue.c] is not among the files.  A queue is
    a fixed-capacity FIFO of TCB references; [create(capacity)] gives an
    empty one, [count] its length, [addtail] fails when it is full and
    [remhead] when it is empty.  A reference to [krnl_tcb[i]] is the index
    [i]. *)
Record queue := {
  q_size : Z;
  q_items : list nat
}.

(** The kernel's global variables.  [krnl_task] points into [krnl_tcb];
    the queue handles are pointers and may be null. *)
Record kernel := {
  krnl_tcb : list tcb_entry;
  krnl_pcb : pcb_entry;
  krnl_task : option nat;
  krnl_tasks : Z;
  krnl_current_task : Z;
  krnl_schedule : Z;
  krnl_run_queue : option queue;
  krnl_delay_queue : option queue;
  krnl_rt_queue : option queue;
  krnl_aperiodic_queue : option queue;
  krnl_free : Z
}.

(** *** Running kernel code

    A piece of kernel code runs on the global state and either finishes
    with a value, or panics (the node halts with a code), or goes wrong: it
    follows a null or out-of-range pointer, or does not come back. *)
Inductive result (A : Type) :=
  | Ok (a : A) (k : kernel)
  | Panicked (c : panic_code)
  | Undefined.
Arguments Ok {A} a k.
Arguments Panicked {A} c.
Arguments Undefined {A}.

Definition K (A : Type) : Type := kernel -> result A.

Definition ret {A} (a : A) : K A := fun k => Ok a k.

Definition bind {A B} (c : K A) (f : A -> K B) : K B :=
  fun k =>
    match c k with
    | Ok a k' => f a k'
    | Panicked c => Panicked c
    | Undefined => Undefined
    end.

Notation "'let*' x ':=' c 'in' f" := (bind c (fun x => f))
  (at level 10, x pattern, c at level 100, f at level 200).
Notation "c1 '>>' c2" := (bind c1 (fun _ => c2))
  (at level 65, right associativity).

Definition get : K kernel := fun k => Ok k k.
Definition put (k : kernel) : K unit := fun _ => Ok tt k.
Definition undefined {A} : K A := fun _ => Undefined.

(** Modelled from the spec: [panic] is not among the files.  "Panics are
    terminal: the node halts and prints a code." *)
Definition panic {A} (c : panic_code) : K A := fun _ => Panicked c.

(** Dereferencing a pointer that may be null. *)
Definition deref {A} (p : option A) : K A :=
  match p with
  | Some a => ret a
  | None => undefined
  end.

(** *** Assignments to the globals *)

Definition set_krnl_tcb (v : list tcb_entry) : K unit := fun k =>
  Ok tt {| krnl_tcb := v; krnl_pcb := krnl_pcb k; krnl_task := krnl_task k;
           krnl_tasks := krnl_tasks k; krnl_current_task := krnl_current_task k;
           krnl_schedule := krnl_schedule k; krnl_run_queue := krnl_run_queue k;
           krnl_delay_queue := krnl_delay_queue k; krnl_rt_queue := krnl_rt_queue k;
           krnl_aperiodic_queue := krnl_aperiodic_queue k; krnl_free := krnl_free k |}.

Definition set_krnl_pcb (v : pcb_entry) : K unit := fun k =>
  Ok tt {| krnl_tcb := krnl_tcb k; krnl_pcb := v; krnl_task := krnl_task k;
           krnl_tasks := krnl_tasks k; krnl_current_task := krnl_current_task k;
           krnl_schedule := krnl_schedule k; krnl_run_queue := krnl_run_queue k;
           krnl_delay_queue := krnl_delay_queue k; krnl_rt_queue := krnl_rt_queue k;
           krnl_aperiodic_queue := krnl_aperiodic_queue k; krnl_free := krnl_free k |}.

Definition set_krnl_task (v : option nat) : K unit := fun k =>
  Ok tt {| krnl_tcb := krnl_tcb k; krnl_pcb := krnl_pcb k; krnl_task := v;
           krnl_tasks := krnl_tasks k; krnl_current_task := krnl_current_task k;
           krnl_schedule := krnl_schedule k; krnl_run_queue := krnl_run_queue k;
           krnl_delay_queue := krnl_delay_queue k; krnl_rt_queue := krnl_rt_queue k;
           krnl_aperiodic_queue := krnl_aperiodic_queue k; krnl_free := krnl_free k |}.

Definition set_krnl_tasks (v : Z) : K unit := fun k =>
  Ok tt {| krnl_tcb := krnl_tcb k; krnl_pcb := krnl_pcb k; krnl_task := krnl_task k;
           krnl_tasks := v; krnl_current_task := krnl_current_task k;
           krnl_schedule := krnl_schedule k; krnl_run_queue := krnl_run_queue k;
           krnl_delay_queue := krnl_delay_queue k; krnl_rt_queue := krnl_rt_queue k;
           krnl_aperiodic_queue := krnl_aperiodic_queue k; krnl_free := krnl_free k |}.

Definition set_krnl_current_task (v : Z) : K unit := fun k =>
  Ok tt {| krnl_tcb := krnl_tcb k; krnl_pcb := krnl_pcb k; krnl_task := krnl_task k;
           krnl_tasks := krnl_tasks k; krnl_current_task := v;
           krnl_schedule := krnl_schedule k; krnl_run_queue := krnl_run_queue k;
           krnl_delay_queue := krnl_delay_queue k; krnl_rt_queue := krnl_rt_queue k;
           krnl_aperiodic_queue := krnl_aperiodic_queue k; krnl_free := krnl_free k |}.

Definition set_krnl_schedule (v : Z) : K unit := fun k =>
  Ok tt {| krnl_tcb := krnl_tcb k; krnl_pcb := krnl_pcb k; krnl_task := krnl_task k;
           krnl_tasks := krnl_tasks k; krnl_current_task := krnl_current_task k;
           krnl_schedule := v; krnl_run_queue := krnl_run_queue k;
           krnl_delay_queue := krnl_delay_queue k; krnl_rt_queue := krnl_rt_queue k;
           krnl_aperiodic_queue := krnl_aperiodic_queue k; krnl_free := krnl_free k |}.

Definition set_krnl_run_queue (v : option queue) : K unit := fun k =>
  Ok tt {| krnl_tcb := krnl_tcb k; krnl_pcb := krnl_pcb k; krnl_task := krnl_task k;
           krnl_tasks := krnl_tasks k; krnl_current_task := krnl_current_task k;
           krnl_schedule := krnl_schedule k; krnl_run_queue := v;
           krnl_delay_queue := krnl_delay_queue k; krnl_rt_queue := krnl_rt_queue k;
           krnl_aperiodic_queue := krnl_aperiodic_queue k; krnl_free := krnl_free k |}.

Definition set_krnl_delay_queue (v : option queue) : K unit := fun k =>
  Ok tt {| krnl_tcb := krnl_tcb k; krnl_pcb := krnl_pcb k; krnl_task := krnl_task k;
           krnl_tasks := krnl_tasks k; krnl_current_task := krnl_current_task k;
           krnl_schedule := krnl_schedule k; krnl_run_queue := krnl_run_queue k;
           krnl_delay_queue := v; krnl_rt_queue := krnl_rt_queue k;
           krnl_aperiodic_queue := krnl_aperiodic_queue k; krnl_free := krnl_free k |}.

Definition set_krnl_rt_queue (v : option queue) : K unit := fun k =>
  Ok tt {| krnl_tcb := krnl_tcb k; krnl_pcb := krnl_pcb k; krnl_task := krnl_task k;
           krnl_tasks := krnl_tasks k; krnl_current_task := krnl_current_task k;
           krnl_schedule := krnl_schedule k; krnl_run_queue := krnl_run_queue k;
           krnl_delay_queue := krnl_delay_queue k; krnl_rt_queue := v;
           krnl_aperiodic_queue := krnl_aperiodic_queue k; krnl_free := krnl_free k |}.

Definition set_krnl_aperiodic_queue (v : option queue) : K unit := fun k =>
  Ok tt {| krnl_tcb := krnl_tcb k; krnl_pcb := krnl_pcb k; krnl_task := krnl_task k;
           krnl_tasks := krnl_tasks k; krnl_current_task := krnl_current_task k;
           krnl_schedule := krnl_schedule k; krnl_run_queue := krnl_run_queue k;
           krnl_delay_queue := krnl_delay_queue k; krnl_rt_queue := krnl_rt_queue k;
           krnl_aperiodic_queue := v; krnl_free := krnl_free k |}.

Definition set_krnl_free (v : Z) : K unit := fun k =>
  Ok tt {| krnl_tcb := krnl_tcb k; krnl_pcb := krnl_pcb k; krnl_task := krnl_task k;
           krnl_tasks := krnl_tasks k; krnl_current_task := krnl_current_task k;
           krnl_schedule := krnl_schedule k; krnl_run_queue := krnl_run_queue k;
           krnl_delay_queue := krnl_delay_queue k; krnl_rt_queue := krnl_rt_queue k;
           krnl_aperiodic_queue := krnl_aperiodic_queue k; krnl_free := v |}.

(** The kernel state with the table and [krnl_task] replaced. *)
Definition with_table (k : kernel) (tcb : list tcb_entry) (task : option nat) : kernel :=
  {| krnl_tcb := tcb; krnl_pcb := krnl_pcb k; krnl_task := task;
     krnl_tasks := krnl_tasks k; krnl_current_task := krnl_current_task k;
     krnl_schedule := krnl_schedule k; krnl_run_queue := krnl_run_queue k;
     krnl_delay_queue := krnl_delay_queue k; krnl_rt_queue := krnl_rt_queue k;
     krnl_aperiodic_queue := krnl_aperiodic_queue k; krnl_free := krnl_free k |}.

(** [&krnl_tcb[i]] read and written through; an index outside the array
    has no defined result. *)
Definition read_tcb (i : nat) : K tcb_entry := fun k =>
  match krnl_tcb k !! i with
  | Some t => Ok t k
  | None => Undefined
  end.

Definition write_tcb (i : nat) (t : tcb_entry) : K unit := fun k =>
  if decide (i < length (krnl_tcb k))%nat
  then set_krnl_tcb (<[i := t]> (krnl_tcb k)) k
  else Undefined.

(** *** Queues *)

Definition hf_queue_count (q : queue) : Z := Z.of_nat (length (q_items q)).

(** Returns the status (0, or -1 when the queue is full) and the queue. *)
Definition hf_queue_addtail (q : queue) (e : nat) : Z * queue :=
  if hf_queue_count q <? q_size q
  then (0, {| q_size := q_size q; q_items := q_items q ++ [e] |})
  else (-1, q).

Definition hf_queue_remhead (q : queue) : option nat * queue :=
  match q_items q with
  | [] => (None, q)
  | e :: rest => (Some e, {| q_size := q_size q; q_items := rest |})
  end.

(** *** Task creation *)

Fixpoint lowest_free (tcb : list tcb_entry) (i : nat) : option nat :=
  match tcb with
  | [] => None
  | t :: rest => if id t =? -1 then Some i else lowest_free rest (S i)
  end.

(** [krnl_tcb[i].priority = v]. *)
Definition with_priority (t : tcb_entry) (v : Z) : tcb_entry :=
  {| id := id t; name := name t; state := state t; priority := v;
     priority_rem := priority_rem t; delay := delay t; rtjobs := rtjobs t;
     bgjobs := bgjobs t; deadline_misses := deadline_misses t; period := period t;
     capacity := capacity t; deadline := deadline t; capacity_rem := capacity_rem t;
     deadline_rem := deadline_rem t; task_context := task_context t;
     ptask := ptask t; pstack := pstack t; stack_size := stack_size t;
     other_data := other_data t |}.

(** A slot in use whose task is a real-time task: [period > 0]. *)
Definition is_rt (t : tcb_entry) : bool := negb (id t =? -1) && (0 <? period t).

(** Modelled from the spec: the number of real-time tasks of the table
    that come before the task of slot [i] and period [p] when "the set of
    active RT tasks" is sorted "by period ascending"; tasks of the same
    period are taken in table order. *)
Fixpoint rma_before (tcb : list tcb_entry) (j i : nat) (p : Z) : Z :=
  match tcb with
  | [] => 0
  | t :: rest =>
      (if is_rt t && ((period t <? p) || ((period t =? p) && (j <? i)%nat))
       then 1 else 0)
      + rma_before rest (S j) i p
  end.

(** Modelled from the spec: the RMA assignment, "sort the set of active RT
    tasks by period ascending and assign priorities in that order (smallest
    period = highest priority)".  The priority given is the place in that
    order, 1 for the smallest period; the spec fixes the order, not the
    numbers. *)
Definition rma_assign (tcb : list tcb_entry) : list tcb_entry :=
  imap (fun i t =>
          if is_rt t then with_priority t (1 + rma_before tcb 0 i (period t)) else t)
       tcb.

(** Modelled from the spec: the TCB that [hf_spawn] "fills" in the free
    slot [i]: the id, the name, the entry point, the stack size and the
    real-time parameters come from the call, and the task is ready.  What
    the call does not give is left as the slot holds it. *)
Definition spawned (t : tcb_entry) (i : nat) (entry : task_fn)
    (period capacity deadline : Z) (name : string) (stack_size : Z) : tcb_entry :=
  {| id := Z.of_nat i;
     name := list_ascii_of_string name;
     state := TASK_READY;
     priority := priority t;
     priority_rem := priority_rem t;
     delay := delay t;
     rtjobs := rtjobs t;
     bgjobs := bgjobs t;
     deadline_misses := deadline_misses t;
     period := period;
     capacity := capacity;
     deadline := deadline;
     capacity_rem := capacity_rem t;
     deadline_rem := deadline_rem t;
     task_context := task_context t;
     ptask := Some entry;
     pstack := pstack t;
     stack_size := stack_size;
     other_data := other_data t |}.

(** Modelled from the spec: [hf_spawn] is defined outside the files at
    hand.  By the spec's task lifecycle it assigns the lowest free id
    ([id = -1] marks a free slot), fills the TCB, and fails by returning
    an error id, building nothing, when there is no slot or a parameter is
    invalid.  A task with [period > 0] is a real-time task: its parameters
    obey [capacity <= deadline <= period], its priority is computed by RMA,
    which is re-run on every admission, and it enters the real-time queue
    only when a job is released.  A task with [period = 0] is a
    best-effort task and is admitted to the run queue.

    The three integers of a call are taken as period, capacity and
    deadline.  This is the reading under which the calls of [main.c] obey
    [capacity <= deadline <= period], the server of
    [hf_spawn(polling_server_task, 20, 6, 20, ...)] has the period 20 and
    capacity 6 of the spec's polling-server scenario, and the jobs of
    [hf_spawn(dummy_task, 0, 18, 0, ...)] carry the capacity the server
    charges.  The spec's signature names the second and the third of them
    [priority] and [capacity]; with the priority of a real-time task
    computed, no call of [main.c] is left to give one.  A best-effort task
    therefore joins the run queue at its tail.  The error ids are not
    given, -1 stands for each.  The stack and the initial context are
    machine state and are not represented. *)
Definition hf_spawn (entry : task_fn) (period capacity deadline : Z)
    (name : string) (stack_size : Z) : K Z :=
  let* k := get in
  if (0 <? period) && negb ((capacity <=? deadline) && (deadline <=? period))
  then ret (-1)
  else
    match lowest_free (krnl_tcb k) 0 with
    | None => ret (-1)
    | Some i =>
        let* t := read_tcb i in
        let t := spawned t i entry period capacity deadline name stack_size in
        if 0 <? period then
          write_tcb i t >>
          let* k := get in
          set_krnl_tcb (rma_assign (krnl_tcb k)) >>
          ret (Z.of_nat i)
        else
          let* q := deref (krnl_run_queue k) in
          let '(status, q) := hf_queue_addtail q i in
          if status <? 0 then ret (-1)
          else
            write_tcb i t >>
            set_krnl_run_queue (Some q) >>
            ret (Z.of_nat i)
    end.

Section Config.

(** Configuration constants of the build, defined outside the files at
    hand: the size of the task table, and the number of heap bytes a queue
    of a given capacity takes. *)
Variable MAX_TASKS : Z.
Variable queue_bytes : Z -> Z.

(** Modelled from the spec: [hf_queue_create] allocates the queue on the
    kernel heap and returns null when the allocation fails.  Of the heap
    only the count of free bytes, [krnl_free], is kept. *)
Definition hf_queue_create (size : Z) : K (option queue) :=
  let* k := get in
  if queue_bytes size <=? krnl_free k
  then set_krnl_free (krnl_free k - queue_bytes size) >>
       ret (Some {| q_size := size; q_items := [] |})
  else ret None.

(** *** [clear_tcb] *)

(** The assignments of one round of the loop, applied to [*krnl_task];
    [memset] zeroes the name array, [task_context] is not assigned. *)
Definition clear_entry (t : tcb_entry) : tcb_entry :=
  {| id := -1;
     name := repeat "000"%char (length (name t));
     state := TASK_IDLE;
     priority := 0;
     priority_rem := 0;
     delay := 0;
     rtjobs := 0;
     bgjobs := 0;
     deadline_misses := 0;
     period := 0;
     capacity := 0;
     deadline := 0;
     capacity_rem := 0;
     deadline_rem := 0;
     task_context := task_context t;
     ptask := None;
     pstack := None;
     stack_size := 0;
     other_data := 0 |}.

(** A table entry as [clear_tcb] leaves it. *)
Definition slot_free (t : tcb_entry) : Prop :=
  id t = -1
  /\ state t = TASK_IDLE
  /\ priority t = 0 /\ priority_rem t = 0
  /\ delay t = 0
  /\ period t = 0 /\ capacity t = 0 /\ deadline t = 0
  /\ capacity_rem t = 0 /\ deadline_rem t = 0
  /\ rtjobs t = 0 /\ bgjobs t = 0 /\ deadline_misses t = 0
  /\ ptask t = None /\ pstack t = None /\ stack_size t = 0.

(** [for (i = 0; i < MAX_TASKS; i++) { krnl_task = &krnl_tcb[i]; ... }]
    with [uint16_t i]. *)
Fixpoint clear_tcb_loop (fuel : nat) (i : Z) : K unit :=
  match fuel with
  | O => undefined
  | S fuel' =>
      if i <? MAX_TASKS then
        set_krnl_task (Some (Z.to_nat i)) >>
        let* t := read_tcb (Z.to_nat i) in
        write_tcb (Z.to_nat i) (clear_entry t) >>
        clear_tcb_loop fuel' (u16 (i + 1))
      else ret tt
  end.

Definition clear_tcb : K unit :=
  clear_tcb_loop (S (Z.to_nat MAX_TASKS)) 0 >>
  set_krnl_tasks 0 >>
  set_krnl_current_task 0 >>
  set_krnl_schedule 0.

(** *** [clear_pcb] *)

Definition clear_pcb : K unit :=
  let* k := get in
  let pcb := krnl_pcb k in
  let pcb := {| sched_rt := Some sched_rma; sched_be := sched_be pcb;
                coop_cswitch := coop_cswitch pcb; preempt_cswitch := preempt_cswitch pcb;
                interrupts := interrupts pcb; tick_time := tick_time pcb |} in
  let pcb := {| sched_rt := sched_rt pcb; sched_be := Some sched_priorityrr;
                coop_cswitch := coop_cswitch pcb; preempt_cswitch := preempt_cswitch pcb;
                interrupts := interrupts pcb; tick_time := tick_time pcb |} in
  let pcb := {| sched_rt := sched_rt pcb; sched_be := sched_be pcb;
                coop_cswitch := 0; preempt_cswitch := preempt_cswitch pcb;
                interrupts := interrupts pcb; tick_time := tick_time pcb |} in
  let pcb := {| sched_rt := sched_rt pcb; sched_be := sched_be pcb;
                coop_cswitch := coop_cswitch pcb; preempt_cswitch := 0;
                interrupts := interrupts pcb; tick_time := tick_time pcb |} in
  let pcb := {| sched_rt := sched_rt pcb; sched_be := sched_be pcb;
                coop_cswitch := coop_cswitch pcb; preempt_cswitch := preempt_cswitch pcb;
                interrupts := 0; tick_time := tick_time pcb |} in
  let pcb := {| sched_rt := sched_rt pcb; sched_be := sched_be pcb;
                coop_cswitch := coop_cswitch pcb; preempt_cswitch := preempt_cswitch pcb;
                interrupts := interrupts pcb; tick_time := 0 |} in
  set_krnl_pcb pcb.

(** *** [init_queues] *)

Definition is_null {A} (p : option A) : bool :=
  match p with
  | None => true
  | Some _ => false
  end.

Definition init_queues : K unit :=
  let* q := hf_queue_create MAX_TASKS in
  set_krnl_run_queue q >>
  (if is_null q then panic PANIC_OOM else ret tt) >>
  let* q := hf_queue_create MAX_TASKS in
  set_krnl_delay_queue q >>
  (if is_null q then panic PANIC_OOM else ret tt) >>
  let* q := hf_queue_create MAX_TASKS in
  set_krnl_rt_queue q >>
  (if is_null q then panic PANIC_OOM else ret tt) >>
  let* q := hf_queue_create MAX_TASKS in
  set_krnl_aperiodic_queue q >>
  (if is_null q then panic PANIC_OOM else ret tt).

(** Whether the heap of [k] can serve the [j]-th queue creation of
    [init_queues], the ones before it having been served. *)
Definition creation_served (k : kernel) (j : Z) : Prop :=
  queue_bytes MAX_TASKS <= krnl_free k - j * queue_bytes MAX_TASKS.

Definition fresh_queue : queue := {| q_size := MAX_TASKS; q_items := [] |}.

(** *** [main]

    The part of the boot sequence that builds the kernel state, on the
    first entry (the [oops] guard holds): the three initialisers and the
    three tasks spawned before the devices and the application are
    started.  The hardware, scheduler and timer set-up calls in between
    are outside the files at hand. *)
Definition main : K unit :=
  clear_tcb >>
  clear_pcb >>
  init_queues >>
  hf_spawn fn_idletask 0 0 0 "idle task" 1024 >>
  hf_spawn fn_polling_server_task 20 6 20 "polling server" 1024 >>
  hf_spawn fn_aperiodic_task_generator 10 2 10 "aperiodic task generator" 1024 >>
  ret tt.

End Config.

(** *** [polling_server_task] *)

(** Modelled from the spec: [hf_selfid] gives the id of the running task. *)
Definition hf_selfid : K Z :=
  let* k := get in ret (krnl_current_task k).

(** [&krnl_tcb[i]] for a signed index. *)
Definition tcb_index (i : Z) : K nat :=
  if i <? 0 then undefined else ret (Z.to_nat i).

(** The local variables of [polling_server_task] that live across rounds
    of its loop; [polling_task] is [&krnl_tcb[polling_id]]. *)
Record server_frame := {
  polling_id : Z;
  SERVER_CAPACITY : Z;
  server_fuel : Z
}.

Definition with_fuel (f : server_frame) (fuel : Z) : server_frame :=
  {| polling_id := polling_id f; SERVER_CAPACITY := SERVER_CAPACITY f;
     server_fuel := fuel |}.

(** The declarations before the loop; both budget variables are
    [int16_t]. *)
Definition polling_server_enter : K server_frame :=
  let* polling_id := hf_selfid in
  let* polling_task := tcb_index polling_id in
  let* t := read_tcb polling_task in
  let SERVER_CAPACITY := s16 (capacity t) in
  let server_fuel := SERVER_CAPACITY in
  ret {| polling_id := polling_id; SERVER_CAPACITY := SERVER_CAPACITY;
         server_fuel := server_fuel |}.

(** [if (server_fuel == 0) server_fuel = SERVER_CAPACITY;] *)
Definition refill (f : server_frame) : Z :=
  if server_fuel f =? 0 then SERVER_CAPACITY f else server_fuel f.

(** Modelled from the spec: [polling_server_scheduler] is not among the
    files; the server "pops the head" of the aperiodic queue.  The result
    is a pointer to the entry, null when there is none. *)
Definition polling_server_scheduler : K (option nat) :=
  let* k := get in
  let* q := deref (krnl_aperiodic_queue k) in
  let '(e, q) := hf_queue_remhead q in
  set_krnl_aperiodic_queue (Some q) >>
  ret e.

(** [krnl_tcb[i].capacity = v] and [krnl_tcb[i].state = v]. *)
Definition with_capacity (t : tcb_entry) (v : Z) : tcb_entry :=
  {| id := id t; name := name t; state := state t; priority := priority t;
     priority_rem := priority_rem t; delay := delay t; rtjobs := rtjobs t;
     bgjobs := bgjobs t; deadline_misses := deadline_misses t; period := period t;
     capacity := v; deadline := deadline t; capacity_rem := capacity_rem t;
     deadline_rem := deadline_rem t; task_context := task_context t;
     ptask := ptask t; pstack := pstack t; stack_size := stack_size t;
     other_data := other_data t |}.

Definition with_state (t : tcb_entry) (v : task_state) : tcb_entry :=
  {| id := id t; name := name t; state := v; priority := priority t;
     priority_rem := priority_rem t; delay := delay t; rtjobs := rtjobs t;
     bgjobs := bgjobs t; deadline_misses := deadline_misses t; period := period t;
     capacity := capacity t; deadline := deadline t; capacity_rem := capacity_rem t;
     deadline_rem := deadline_rem t; task_context := task_context t;
     ptask := ptask t; pstack := pstack t; stack_size := stack_size t;
     other_data := other_data t |}.

Definition set_capacity (i : nat) (v : Z) : K unit :=
  let* t := read_tcb i in
  write_tcb i (with_capacity t v).

Definition set_state (i : nat) (v : task_state) : K unit :=
  let* t := read_tcb i in
  write_tcb i (with_state t v).

(** How a round of the server loop gives up the processor: [hf_yield()]
    on an empty queue, or the jump into the selected task. *)
Inductive handover := Yielded | Dispatched (task : nat).

(** The budget test of the loop body:
    [if (server_fuel >= next->capacity) server_fuel -= next->capacity;
     else { next->capacity -= server_fuel; server_fuel = 0;
            hf_queue_addtail(krnl_aperiodic_queue, next); }]
    The status of [hf_queue_addtail] is not looked at. *)
Definition charge (server_fuel : Z) (next_aperiodic : nat) : K Z :=
  let* next := read_tcb next_aperiodic in
  if server_fuel >=? capacity next then
    ret (s16 (server_fuel - capacity next))
  else
    set_capacity next_aperiodic (capacity next - server_fuel) >>
    let* k := get in
    let* q := deref (krnl_aperiodic_queue k) in
    set_krnl_aperiodic_queue (Some (snd (hf_queue_addtail q next_aperiodic))) >>
    ret 0.

(** One round of [for (;;) { ... }], from the top of the loop to the point
    where the server hands the processor over.  The round after it starts
    when the server is resumed, with the same local variables.  The
    context that [setjmp] saves in [polling_task->task_context] is machine
    state and is not represented. *)
Definition polling_server_round (f : server_frame) : K (handover * server_frame) :=
  let server_fuel := refill f in
  let* k := get in
  let* q := deref (krnl_aperiodic_queue k) in
  if hf_queue_count q =? 0 then
    ret (Yielded, with_fuel f server_fuel)
  else
    let* next := polling_server_scheduler in
    let* next_aperiodic := deref next in
    let* server_fuel := charge server_fuel next_aperiodic in
    let* polling_task := tcb_index (polling_id f) in
    set_state polling_task TASK_READY >>
    set_state next_aperiodic TASK_RUNNING >>
    set_krnl_task (Some next_aperiodic) >>
    let* next := read_tcb next_aperiodic in
    set_krnl_current_task (id next) >>
    ret (Dispatched next_aperiodic, with_fuel f server_fuel).

(** The server from its start through a given number of rounds.  Between
    two rounds other tasks run; [arrive] says what they do to the kernel
    state before each round (new aperiodic arrivals, for instance). *)
Fixpoint polling_server_rounds (n : nat) (arrive : nat -> K unit)
    (f : server_frame) : K (list handover * server_frame) :=
  match n with
  | O => ret ([], f)
  | S n' =>
      let* (hs, f) := polling_server_rounds n' arrive f in
      arrive n' >>
      let* (h, f) := polling_server_round f in
      ret (hs ++ [h], f)
  end.

(** The task does not return; its first [n] rounds are: *)
Definition polling_server_task (n : nat) (arrive : nat -> K unit)
    : K (list handover * server_frame) :=
  let* f := polling_server_enter in
  polling_server_rounds n arrive f.

End Kernel.

(** ** The NoC test application ([app/noc_test/noc_test.c]) *)

Module NocTest.
Import Word.

Inductive task_fn := fn_sender | fn_receiver.

(** The calls a task makes into the kernel and the library, with their
    arguments, in the order made.  Buffers are left out of the arguments;
    [size] is the [sizeof] passed along. *)
Inductive call :=
  | Call_hf_spawn (task : task_fn) (period capacity deadline : Z)
                  (name : string) (stack_size : Z)
  | Call_hf_comm_create (id port flags : Z)
  | Call_hf_sendack (target_cpu target_port size channel timeout : Z)
  | Call_hf_recvack (channel : Z)
  | Call_sprintf (fmt : string) (args : list Z)
  | Call_printf (fmt : string) (args : list Z)
  | Call_panic (code : Z).

(** What the node answers: its cpu id, the id of the running task, the
    status of [hf_comm_create], and the status of the [hf_sendack] or
    [hf_recvack] of each round. *)
Record node := {
  hf_cpuid : Z;
  hf_selfid : Z;
  comm_create_status : Z;
  sendack_status : nat -> Z;
  recvack_status : nat -> Z
}.

(** [sizeof(buf)] for [int8_t buf[1500]]. *)
Definition sizeof_buf : Z := 1500.

(** The one-character string that ['\n'] denotes in a C literal. *)
Definition newline : string := String "010"%char EmptyString.

(** [while (1) { sprintf(...); val = hf_sendack(3, 5000, buf, sizeof(buf), 0, 500);
                 if (val) printf(...); }]
    The loop does not end; the model gives the calls of its first
    [rounds] rounds.  [msg] is an [int32_t], [val] a [uint16_t]. *)
Fixpoint sender_loop (e : node) (rounds round : nat) (msg : Z) : list call :=
  match rounds with
  | O => []
  | S rounds' =>
      let val := u16 (sendack_status e round) in
      [Call_sprintf ("i am cpu %d, thread %d: msg %d size: %d" ++ newline)%string
                    [hf_cpuid e; hf_selfid e; msg; sizeof_buf];
       Call_hf_sendack 3 5000 sizeof_buf 0 500]
      ++ (if val =? 0 then []
          else [Call_printf ("hf_sendack(): error %d" ++ newline)%string [val]])
      ++ sender_loop e rounds' (S round) (s32 (msg + 1))
  end.

Definition sender (e : node) (rounds : nat) : list call :=
  Call_hf_comm_create (hf_selfid e) 1000 0
  :: (if comm_create_status e =? 0
      then sender_loop e rounds 0 0
      else [Call_panic 255]).

(** [while (1) { val = hf_recvack(&cpu, &task, buf, &size, 0);
                 if (val) printf(...error...); else printf("%s", buf); }] *)
Fixpoint receiver_loop (e : node) (rounds round : nat) : list call :=
  match rounds with
  | O => []
  | S rounds' =>
      let val := u16 (recvack_status e round) in
      [Call_hf_recvack 0]
      ++ (if val =? 0 then [Call_printf "%s" []]
          else [Call_printf ("hf_recvack(): error %d" ++ newline)%string [val]])
      ++ receiver_loop e rounds' (S round)
  end.

Definition receiver (e : node) (rounds : nat) : list call :=
  Call_hf_comm_create (hf_selfid e) 5000 0
  :: (if comm_create_status e =? 0
      then receiver_loop e rounds 0
      else [Call_panic 255]).

Definition app_main (e : node) : list call :=
  if hf_cpuid e =? 2
  then [Call_hf_spawn fn_sender 0 0 0 "sender" 4096]
  else [Call_hf_spawn fn_receiver 0 0 0 "receiver" 4096].

(** The calls of a trace that go to the messaging layer. *)
Definition is_messaging (c : call) : bool :=
  match c with
  | Call_hf_comm_create _ _ _ | Call_hf_sendack _ _ _ _ _ | Call_hf_recvack _ => true
  | _ => false
  end.

Definition messaging (calls : list call) : list call :=
  List.filter is_messaging calls.

End NocTest.

(** ** Sample states *)

Module Sample.
Import Kernel.

(** A table entry with leftovers in every field. *)
Definition stale : tcb_entry :=
  {| id := 7; name := list_ascii_of_string "old"; state := TASK_RUNNING;
     priority := 1; priority_rem := 2; delay := 3; rtjobs := 4; bgjobs := 5;
     deadline_misses := 6; period := 7; capacity := 8; deadline := 9;
     capacity_rem := 10; deadline_rem := 11; task_context := 12;
     ptask := Some fn_dummy_task; pstack := Some 13; stack_size := 14;
     other_data := 15 |}.

(** A node before [main]: four stale slots, no queues, 1000 free bytes. *)
Definition cold : kernel :=
  {| krnl_tcb := [stale; stale; stale; stale];
     krnl_pcb := {| sched_rt := None; sched_be := None; coop_cswitch := 1;
                    preempt_cswitch := 2; interrupts := 3; tick_time := 4 |};
     krnl_task := None; krnl_tasks := 9; krnl_current_task := 9; krnl_schedule := 9;
     krnl_run_queue := None; krnl_delay_queue := None; krnl_rt_queue := None;
     krnl_aperiodic_queue := None; krnl_free := 1000 |}.

(** A queue of [n] references taking a 16-byte header and 4 bytes each. *)
Definition ring_bytes (n : Z) : Z := 16 + 4 * n.

Definition a_task (i : Z) (fn : task_fn) (period capacity : Z) : tcb_entry :=
  {| id := i; name := []; state := TASK_READY;
     priority := 0; priority_rem := 0; delay := 0; rtjobs := 0; bgjobs := 0;
     deadline_misses := 0; period := period; capacity := capacity; deadline := 0;
     capacity_rem := 0; deadline_rem := 0; task_context := 0;
     ptask := Some fn; pstack := None; stack_size := 1024; other_data := 0 |}.

(** A node on which the polling server (slot 0, capacity 6) is running,
    with an aperiodic task of the given capacity in slot 1 and the given
    aperiodic queue. *)
Definition serving (job_capacity : Z) (queued : list nat) : kernel :=
  {| krnl_tcb := [a_task 0 fn_polling_server_task 20 6; a_task 1 fn_dummy_task 0 job_capacity];
     krnl_pcb := {| sched_rt := Some sched_rma; sched_be := Some sched_priorityrr;
                    coop_cswitch := 0; preempt_cswitch := 0; interrupts := 0;
                    tick_time := 0 |};
     krnl_task := Some 0%nat; krnl_tasks := 2; krnl_current_task := 0;
     krnl_schedule := 0;
     krnl_run_queue := Some {| q_size := 4; q_items := [] |};
     krnl_delay_queue := Some {| q_size := 4; q_items := [] |};
     krnl_rt_queue := Some {| q_size := 4; q_items := [] |};
     krnl_aperiodic_queue := Some {| q_size := 4; q_items := queued |};
     krnl_free := 0 |}.

(** The server's local variables on entry there. *)
Definition fresh_frame : server_frame :=
  {| polling_id := 0; SERVER_CAPACITY := 6; server_fuel := 6 |}.

End Sample.

(** ** libc: the integer runtime *)

Module LibcArith.
Import Word Libc.

(** *** [__mulsi3] *)

(** [while (b) { if (b & 1) answer += a; a <<= 1; b >>= 1; }] *)
Fixpoint mulsi3_loop (fuel : nat) (a b answer : Z) : option Z :=
  match fuel with
  | O => None
  | S fuel' =>
      if b =? 0 then Some answer
      else
        let answer := if Z.land b 1 =? 0 then answer else u32 (answer + a) in
        mulsi3_loop fuel' (u32 (Z.shiftl a 1)) (Z.shiftr b 1) answer
  end.

(** The [uint32_t] sum is returned as an [int32_t]. *)
Definition __mulsi3 (a b : Z) : option Z :=
  answer ← mulsi3_loop word_fuel a b 0;
  Some (s32 answer).

(** *** The division entry points *)

Definition __udivsi3 (a b : Z) : option Z := __udivmodsi4 a b 0.

Definition __umodsi3 (a b : Z) : option Z := __udivmodsi4 a b 1.

(** [!neg] on an [int32_t]. *)
Definition lnot (neg : Z) : Z := if neg =? 0 then 1 else 0.

(** [__divsi3]: the operands are negated in [int32_t] and handed over as
    [uint32_t]; the [uint32_t] result is stored in an [int32_t]. *)
Definition __divsi3 (a b : Z) : option Z :=
  let neg := 0 in
  let '(a, neg) := if a <? 0 then (s32 (- a), lnot neg) else (a, neg) in
  let '(b, neg) := if b <? 0 then (s32 (- b), lnot neg) else (b, neg) in
  res ← __udivmodsi4 (u32 a) (u32 b) 0;
  let res := s32 res in
  let res := if neg =? 0 then res else s32 (- res) in
  Some res.

Definition __modsi3 (a b : Z) : option Z :=
  let neg := 0 in
  let '(a, neg) := if a <? 0 then (s32 (- a), 1) else (a, neg) in
  let b := if b <? 0 then s32 (- b) else b in
  res ← __udivmodsi4 (u32 a) (u32 b) 1;
  let res := s32 res in
  let res := if neg =? 0 then res else s32 (- res) in
  Some res.

(** *** [abs] *)

Definition abs (n : Z) : Z := if n >=? 0 then n else s32 (- n).

(** *** [random] and [srand] *)

(** [rand1] is the generator's state, a [uint32_t]; the result is the
    new state and the returned [int32_t]. *)
Definition random (rand1 : Z) : Z * Z :=
  let rand1 := u32 (u32 (rand1 * 1103515245) + 12345) in
  (rand1, s32 (Z.land (u32 (Z.shiftr rand1 16)) 32767)).

Definition srand (seed : Z) : Z := u32 seed.

End LibcArith.

(** ** libc: strings and memory blocks *)

Module LibcString.
Import Word Libc.

Definition u8 := wrap_u 8.
Definition s8 := wrap_s 8.

(** The C string a byte list holds: its bytes up to the first NUL (all of
    them when there is none; the terminator is then the byte just past
    the list, as for [strncmp]). *)
Fixpoint cstr (s : list Z) : list Z :=
  match s with
  | [] => []
  | c :: rest => if c =? 0 then [] else c :: cstr rest
  end.

(** *** [strlen] *)

(** [n = 0; while ( *s++) n++; return n;] with [int32_t n]. *)
Fixpoint strlen_loop (fuel : nat) (s : list Z) (p : nat) (n : Z) : option Z :=
  match fuel with
  | O => None
  | S fuel' =>
      if deref s p =? 0 then Some n
      else strlen_loop fuel' s (S p) (s32 (n + 1))
  end.

Definition strlen (s : list Z) : option Z := strlen_loop (S (length s)) s 0 0.

(** *** [strcmp] *)

(** [while ( *s1 == *s2++) if ( *s1++ == 0) return 0;  return *s1 - *--s2;] *)
Fixpoint strcmp_loop (fuel : nat) (s1 s2 : list Z) (p1 p2 : nat) : option Z :=
  match fuel with
  | O => None
  | S fuel' =>
      let a := deref s1 p1 in
      let b := deref s2 p2 in
      let p2 := S p2 in
      if a =? b then
        let c := deref s1 p1 in
        let p1 := S p1 in
        if c =? 0 then Some 0 else strcmp_loop fuel' s1 s2 p1 p2
      else
        let p2 := pred p2 in
        Some (deref s1 p1 - deref s2 p2)
  end.

Definition strcmp (s1 s2 : list Z) : option Z :=
  strcmp_loop (S (length s1)) s1 s2 0 0.

(** *** [strchr] *)

(** [while ( *s != (int8_t)c) if (! *s++) return 0;  return s;]
    The result is the pointer returned, [None] for the null pointer. *)
Fixpoint strchr_loop (fuel : nat) (s : list Z) (p : nat) (c : Z) : option (option nat) :=
  match fuel with
  | O => None
  | S fuel' =>
      if deref s p =? s8 c then Some (Some p)
      else if deref s p =? 0 then Some None
      else strchr_loop fuel' s (S p) c
  end.

Definition strchr (s : list Z) (c : Z) : option (option nat) :=
  strchr_loop (S (length s)) s 0 c.

(** *** [atoi] *)

(** [for (;; s++) { switch ( *s) { case ' ': case '\t': continue;
                                    case '-': f++;  case '+': s++; } break; }]
    Returns the pointer and [f]. *)
Fixpoint atoi_prefix (fuel : nat) (s : list Z) (p : nat) (f : Z) : option (nat * Z) :=
  match fuel with
  | O => None
  | S fuel' =>
      let c := deref s p in
      if (c =? 32) || (c =? 9) then atoi_prefix fuel' s (S p) f
      else if c =? 45 then Some (S p, s32 (f + 1))
      else if c =? 43 then Some (S p, f)
      else Some (p, f)
  end.

(** [while ( *s >= '0' && *s <= '9') n = n * 10 + *s++ - '0';] *)
Fixpoint atoi_digits (fuel : nat) (s : list Z) (p : nat) (n : Z) : option Z :=
  match fuel with
  | O => None
  | S fuel' =>
      let c := deref s p in
      if (c >=? 48) && (c <=? 57)
      then atoi_digits fuel' s (S p) (s32 (s32 (s32 (n * 10) + c) - 48))
      else Some n
  end.

Definition atoi (s : list Z) : option Z :=
  '(p, f) ← atoi_prefix (S (length s)) s 0 0;
  n ← atoi_digits (S (length s)) s p 0;
  Some (if f =? 0 then n else s32 (- n)).

(** One step of reading a decimal number. *)
Definition horner10 (acc d : Z) : Z := acc * 10 + d.

(** The bytes of a character list, as [int8_t]. *)
Definition bytes_of (cs : list ascii) : list Z :=
  map (fun c => s8 (Z.of_nat (nat_of_ascii c))) cs.

(** *** Memory blocks

    Memory is a list of bytes and a pointer an offset; an access outside
    it has no defined result.  Each function returns the memory it
    leaves; the pointer it returns is its first argument. *)
Definition rd (m : list Z) (p : nat) : option Z := m !! p.

Definition wr (m : list Z) (p : nat) (v : Z) : option (list Z) :=
  if decide (p < length m)%nat then Some (<[p := v]> m) else None.

(** [while (n--) *p++ = (uint8_t)c;] with [uint32_t n]. *)
Fixpoint memset_loop (fuel : nat) (m : list Z) (p : nat) (c n : Z) : option (list Z) :=
  match fuel with
  | O => None
  | S fuel' =>
      if n =? 0 then Some m
      else
        m ← wr m p (u8 c);
        memset_loop fuel' m (S p) c (u32 (n - 1))
  end.

Definition memset (m : list Z) (s : nat) (c n : Z) : option (list Z) :=
  memset_loop (S (Z.to_nat n)) m s c n.

(** [while (n--) *r1++ = *r2++;] *)
Fixpoint copy_up (fuel : nat) (m : list Z) (r1 r2 : nat) (n : Z) : option (list Z) :=
  match fuel with
  | O => None
  | S fuel' =>
      if n =? 0 then Some m
      else
        v ← rd m r2;
        m ← wr m r1 v;
        copy_up fuel' m (S r1) (S r2) (u32 (n - 1))
  end.

Definition memcpy (m : list Z) (dst src : nat) (n : Z) : option (list Z) :=
  copy_up (S (Z.to_nat n)) m dst src n.

(** [while (n--) *--s = *--p;] *)
Fixpoint copy_down (fuel : nat) (m : list Z) (s p : nat) (n : Z) : option (list Z) :=
  match fuel with
  | O => None
  | S fuel' =>
      if n =? 0 then Some m
      else
        let p := pred p in
        v ← rd m p;
        let s := pred s in
        m ← wr m s v;
        copy_down fuel' m s p (u32 (n - 1))
  end.

Definition memmove (m : list Z) (dst src : nat) (n : Z) : option (list Z) :=
  let s := dst in
  let p := src in
  if decide (s <= p)%nat then copy_up (S (Z.to_nat n)) m s p n
  else copy_down (S (Z.to_nat n)) m (s + Z.to_nat n) (p + Z.to_nat n) n.

(** [while (n && ( *r1 == *r2)) { ++r1; ++r2; --n; }
     return (n == 0) ? 0 : (( *r1 < *r2) ? -1 : 1);] on [uint8_t] bytes;
    the two blocks are given by two memories. *)
Fixpoint memcmp_loop (fuel : nat) (cs ct : list Z) (r1 r2 : nat) (n : Z) : option Z :=
  match fuel with
  | O => None
  | S fuel' =>
      if n =? 0 then Some 0
      else
        a ← rd cs r1;
        b ← rd ct r2;
        if u8 a =? u8 b then memcmp_loop fuel' cs ct (S r1) (S r2) (u32 (n - 1))
        else
          a ← rd cs r1;
          b ← rd ct r2;
          Some (if u8 a <? u8 b then -1 else 1)
  end.

Definition memcmp (cs ct : list Z) (n : Z) : option Z :=
  memcmp_loop (S (Z.to_nat n)) cs ct 0 0 n.

(** What a copy of [n] bytes from [src] to [dst] is to leave. *)
Definition copied (m : list Z) (dst src n : nat) : list Z :=
  take dst m ++ take n (drop src m) ++ drop (dst + n) m.

(** *** [strcpy] and [strcat]

    The source is a C string; the destination is a writable buffer. *)

(** [do { c = *dst++ = *src++; } while (c);] *)
Fixpoint strcpy_loop (fuel : nat) (dst : list Z) (d : nat) (src : list Z) (p : nat)
    : option (list Z) :=
  match fuel with
  | O => None
  | S fuel' =>
      let c := deref src p in
      dst ← wr dst d c;
      if c =? 0 then Some dst else strcpy_loop fuel' dst (S d) src (S p)
  end.

Definition strcpy (dst src : list Z) : option (list Z) :=
  strcpy_loop (S (length src)) dst 0 src 0.

(** [while ( *dst) ++dst;] *)
Fixpoint strcat_seek (fuel : nat) (dst : list Z) (d : nat) : option nat :=
  match fuel with
  | O => None
  | S fuel' =>
      c ← rd dst d;
      if c =? 0 then Some d else strcat_seek fuel' dst (S d)
  end.

Definition strcat (dst src : list Z) : option (list Z) :=
  d ← strcat_seek (S (length dst)) dst 0;
  strcpy_loop (S (length src)) dst d src 0.

End LibcString.

(** ** libc: the 64-bit runtime *)

Module LibcDword.
Import Word Libc LibcArith.

Definition u64 := wrap_u 64.
Definition s64 := wrap_s 64.

Definition is_u64 (z : Z) : Prop := 0 <= z < 2 ^ 64.
Definition is_s64 (z : Z) : Prop := - 2 ^ 63 <= z < 2 ^ 63.

(** The union [dwords]: an [int64_t all] laid over the pair of a
    [uint32_t low] and an [int32_t high]. *)
Record dwords := { low : Z; high : Z }.

(** Storing into [.all] and reading the halves. *)
Definition of_all (all : Z) : dwords :=
  {| low := u32 all; high := s32 (Z.shiftr all 32) |}.

(** Storing the halves and reading [.all]. *)
Definition all (r : dwords) : Z := high r * 2 ^ 32 + low r.

(** *** [__muldsi3] *)

(** [(int32_t)(sizeof(int32_t) * 8) / 2] *)
Definition bits_in_word_2 : Z := Z.quot (s32 (4 * 8)) 2.

(** [(uint32_t)~0 >> bits_in_word_2] *)
Definition lower_mask : Z := Z.shiftr (u32 (Z.lnot 0)) bits_in_word_2.

(** Every statement of the body in turn; [t] and [r.s.low] are [uint32_t],
    [r.s.high] is an [int32_t]. *)
Definition __muldsi3 (a b : Z) : Z :=
  let low := u32 (Z.land a lower_mask * Z.land b lower_mask) in
  let t := Z.shiftr low bits_in_word_2 in
  let low := Z.land low lower_mask in
  let t := u32 (t + u32 (Z.shiftr a bits_in_word_2 * Z.land b lower_mask)) in
  let low := u32 (low + u32 (Z.shiftl (Z.land t lower_mask) bits_in_word_2)) in
  let high := s32 (Z.shiftr t bits_in_word_2) in
  let t := Z.shiftr low bits_in_word_2 in
  let low := Z.land low lower_mask in
  let t := u32 (t + u32 (Z.shiftr b bits_in_word_2 * Z.land a lower_mask)) in
  let low := u32 (low + u32 (Z.shiftl (Z.land t lower_mask) bits_in_word_2)) in
  let high := s32 (high + Z.shiftr t bits_in_word_2) in
  let high := s32 (high + u32 (Z.shiftr a bits_in_word_2 * Z.shiftr b bits_in_word_2)) in
  all {| low := low; high := high |}.

(** *** [__muldi3] *)

(** [r.s.high += __mulsi3(x.s.high, y.s.low) + __mulsi3(x.s.low, y.s.high);]
    the [int32_t] halves are passed as [uint32_t]. *)
Definition __muldi3 (a b : Z) : option Z :=
  let x := of_all a in
  let y := of_all b in
  let r := of_all (__muldsi3 (low x) (low y)) in
  m1 ← __mulsi3 (u32 (high x)) (low y);
  m2 ← __mulsi3 (low x) (u32 (high y));
  Some (all {| low := low r; high := s32 (high r + s32 (m1 + m2)) |}).

(** *** The shifts *)

(** A shift of a 32-bit operand has a result only for a count below 32.
    The counts are [uint32_t], hence never negative; [>>] on an [int32_t]
    copies the sign bit. *)
Definition shl32 (x n : Z) : option Z :=
  if n <? 32 then Some (u32 (Z.shiftl x n)) else None.

Definition shr32 (x n : Z) : option Z :=
  if n <? 32 then Some (Z.shiftr x n) else None.

(** [bm] is a [uint32_t], so is [-bm]. *)
Definition __ashldi3 (u b : Z) : option Z :=
  if b =? 0 then Some u
  else
    let uu := of_all u in
    let bm := u32 (32 - b) in
    if bm <=? 0 then
      h ← shl32 (low uu) (u32 (- bm));
      Some (all {| low := 0; high := s32 h |})
    else
      carries ← shr32 (low uu) bm;
      l ← shl32 (low uu) b;
      h ← shl32 (u32 (high uu)) b;
      Some (all {| low := l; high := s32 (Z.lor h carries) |}).

Definition __ashrdi3 (u b : Z) : option Z :=
  if b =? 0 then Some u
  else
    let uu := of_all u in
    let bm := u32 (32 - b) in
    if bm <=? 0 then
      h ← shr32 (high uu) 31;
      l ← shr32 (low uu) (u32 (- bm));
      Some (all {| low := l; high := h |})
    else
      carries ← shl32 (u32 (high uu)) bm;
      h ← shr32 (high uu) b;
      l ← shr32 (low uu) b;
      Some (all {| low := Z.lor l carries; high := h |}).

Definition __lshrdi3 (u b : Z) : option Z :=
  if b =? 0 then Some u
  else
    let uu := of_all u in
    let bm := u32 (32 - b) in
    if bm <=? 0 then
      l ← shr32 (u32 (high uu)) (u32 (- bm));
      Some (all {| low := l; high := 0 |})
    else
      carries ← shl32 (u32 (high uu)) bm;
      h ← shr32 (u32 (high uu)) b;
      l ← shr32 (low uu) b;
      Some (all {| low := Z.lor l carries; high := s32 h |}).

(** *** [__udivmoddi4] *)

(** [while ((int64_t)den >= 0) { den <<= 1; qbit <<= 1; }] *)
Fixpoint udivmoddi4_align (fuel : nat) (den qbit : Z) : option (Z * Z) :=
  match fuel with
  | O => None
  | S fuel' =>
      if s64 den >=? 0
      then udivmoddi4_align fuel' (u64 (Z.shiftl den 1)) (u64 (Z.shiftl qbit 1))
      else Some (den, qbit)
  end.

(** [while (qbit) { if (den <= num) { num -= den; quot += qbit; }
    den >>= 1; qbit >>= 1; }] *)
Fixpoint udivmoddi4_subtract (fuel : nat) (num den qbit quot : Z) : option (Z * Z) :=
  match fuel with
  | O => None
  | S fuel' =>
      if qbit =? 0 then Some (num, quot)
      else
        let '(num, quot) :=
          if den <=? num then (u64 (num - den), u64 (quot + qbit)) else (num, quot) in
        udivmoddi4_subtract fuel' num (Z.shiftr den 1) (Z.shiftr qbit 1) quot
  end.

(** A single set bit crosses a 64-bit word in either loop. *)
Definition dword_fuel : nat := 65.

(** The result is the returned quotient paired with the value stored
    through [rem_p].  With [den == 0] the function evaluates
    [1 / ((uint32_t)den)], a division by zero, which has no result. *)
Definition __udivmoddi4 (num den : Z) : option (Z * Z) :=
  if den =? 0 then None
  else
    '(den, qbit) ← udivmoddi4_align dword_fuel den 1;
    '(num, quot) ← udivmoddi4_subtract dword_fuel num den qbit 0;
    Some (quot, num).

Definition __umoddi3 (num den : Z) : option Z :=
  '(_, v) ← __udivmoddi4 num den;
  Some v.

Definition __udivdi3 (num den : Z) : option Z :=
  '(q, _) ← __udivmoddi4 num den;
  Some q.

(** Unary minus on an [int64_t].  The negation of the least [int64_t] is
    not an [int64_t]: the operation overflows and has no defined result. *)
Definition neg64 (x : Z) : option Z :=
  if x =? - 2 ^ 63 then None else Some (- x).

(** [__moddi3]: [minus] is set for a negative [num] and flipped by
    [minus ^= 1] for a negative [den]; the [uint64_t] remainder is stored
    in the [int64_t v]. *)
Definition __moddi3 (num den : Z) : option Z :=
  let minus := 0 in
  '(num, minus) ← (if num <? 0 then num ← neg64 num; Some (num, 1)
                   else Some (num, minus));
  '(den, minus) ← (if den <? 0 then den ← neg64 den; Some (den, Z.lxor minus 1)
                   else Some (den, minus));
  '(_, v) ← __udivmoddi4 (u64 num) (u64 den);
  let v := s64 v in
  if minus =? 0 then Some v else neg64 v.

Definition __divdi3 (num den : Z) : option Z :=
  let minus := 0 in
  '(num, minus) ← (if num <? 0 then num ← neg64 num; Some (num, 1)
                   else Some (num, minus));
  '(den, minus) ← (if den <? 0 then den ← neg64 den; Some (den, Z.lxor minus 1)
                   else Some (den, minus));
  '(v, _) ← __udivmoddi4 (u64 num) (u64 den);
  let v := s64 v in
  if minus =? 0 then Some v else neg64 v.

End LibcDword.

(** ** The kernel: what the polling server keeps *)

Module KernelBudget.
Import Kernel.

(** No entry of the task table has a negative capacity. *)
Definition capacities_nonneg (k : kernel) : Prop :=
  Forall (fun t => 0 <= capacity t) (krnl_tcb k).

(** [int random_delay = random() % 140 + 60;] in
    [aperiodic_task_generator]: the new state of the generator and the
    delay handed to [delay_ms]. *)
Definition random_delay (rand1 : Z) : Z * Z :=
  let '(rand1, r) := LibcArith.random rand1 in
  (rand1, Word.s32 (Z.rem r 140 + 60)).

End KernelBudget.

(** ** libc: bounded copies and search *)

Module LibcBounded.
Import Word Libc LibcString.

(** *** [strncpy] *)

(** [while (++i < n) *s1++ = '\0';] *)
Fixpoint strncpy_pad (fuel : nat) (s1 : list Z) (d : nat) (i n : Z) : option (list Z) :=
  match fuel with
  | O => None
  | S fuel' =>
      let i := s32 (i + 1) in
      if i <? n then
        s1 ← wr s1 d 0;
        strncpy_pad fuel' s1 (S d) i n
      else Some s1
  end.

(** [for (i = 0; i < n; i++) if (( *s1++ = *s2++) == '\0') { pad; return os1; }
    return os1;] *)
Fixpoint strncpy_loop (fuel : nat) (s1 : list Z) (d : nat) (s2 : list Z) (p : nat)
    (i n : Z) : option (list Z) :=
  match fuel with
  | O => None
  | S fuel' =>
      if i <? n then
        let c := deref s2 p in
        s1 ← wr s1 d c;
        if c =? 0 then strncpy_pad fuel' s1 (S d) i n
        else strncpy_loop fuel' s1 (S d) s2 (S p) (s32 (i + 1)) n
      else Some s1
  end.

Definition strncpy (s1 s2 : list Z) (n : Z) : option (list Z) :=
  strncpy_loop (S (Z.to_nat n)) s1 0 s2 0 0 n.

(** *** [strncat] *)

(** [while ( *s1++);] *)
Fixpoint strncat_seek (fuel : nat) (s1 : list Z) (d : nat) : option nat :=
  match fuel with
  | O => None
  | S fuel' =>
      c ← rd s1 d;
      let d := S d in
      if c =? 0 then Some d else strncat_seek fuel' s1 d
  end.

(** [while (( *s1++ = *s2++)) if (--n < 0) { *--s1 = '\0'; break; }] *)
Fixpoint strncat_loop (fuel : nat) (s1 : list Z) (d : nat) (s2 : list Z) (p : nat)
    (n : Z) : option (list Z) :=
  match fuel with
  | O => None
  | S fuel' =>
      let c := deref s2 p in
      s1 ← wr s1 d c;
      let d := S d in
      if c =? 0 then Some s1
      else
        let n := s32 (n - 1) in
        if n <? 0 then wr s1 (pred d) 0
        else strncat_loop fuel' s1 d s2 (S p) n
  end.

(** [--s1;] comes between the two loops. *)
Definition strncat (s1 s2 : list Z) (n : Z) : option (list Z) :=
  d ← strncat_seek (S (length s1)) s1 0;
  let d := pred d in
  strncat_loop (S (length s2)) s1 d s2 0 n.

(** *** [strstr] *)

(** [for (i = 0; string[i] == find[i] && find[i]; ++i);] with [string] at
    offset [p]; [i] is an [int32_t]. *)
Fixpoint strstr_match (fuel : nat) (string : list Z) (p : nat) (find : list Z) (i : Z)
    : option Z :=
  match fuel with
  | O => None
  | S fuel' =>
      if (deref string (p + Z.to_nat i) =? deref find (Z.to_nat i))
         && negb (deref find (Z.to_nat i) =? 0)
      then strstr_match fuel' string p find (s32 (i + 1))
      else Some i
  end.

(** [for (;;) { match; if (find[i] == 0) return string;
                if ( *string++ == 0) return NULL; }]
    The result is the pointer returned, [None] for the null pointer. *)
Fixpoint strstr_loop (fuel : nat) (string : list Z) (p : nat) (find : list Z)
    : option (option nat) :=
  match fuel with
  | O => None
  | S fuel' =>
      i ← strstr_match (S (length find)) string p find 0;
      if deref find (Z.to_nat i) =? 0 then Some (Some p)
      else if deref string p =? 0 then Some None
      else strstr_loop fuel' string (S p) find
  end.

Definition strstr (string find : list Z) : option (option nat) :=
  strstr_loop (S (length string)) string 0 find.

End LibcBounded.

(** * Proofs *)

Module LibcProofs.
Import Word Libc.

(** *** [__udivmodsi4] computes the unsigned quotient and remainder *)

Lemma pow2_nat_pos (k : nat) : 0 < 2 ^ Z.of_nat k.
Proof. apply Z.pow_pos_nonneg; lia. Qed.

Lemma pow2_nat_succ (k : nat) : 2 ^ Z.of_nat (S k) = 2 * 2 ^ Z.of_nat k.
Proof. rewrite Nat2Z.inj_succ, Z.pow_succ_r; lia. Qed.

Lemma pow2_nat_le (j k : nat) : (j <= k)%nat -> 2 ^ Z.of_nat j <= 2 ^ Z.of_nat k.
Proof. intros. apply Z.pow_le_mono_r; lia. Qed.

(** The test [!(den & (1L << 31))] on a 32-bit word is [den < 2^31]. *)
Lemma top_bit_clear (den : Z) :
  is_u32 den -> (Z.land den (Z.shiftl 1 31) =? 0) = (den <? 2 ^ 31).
Proof.
  unfold is_u32. intros Hden.
  change (Z.shiftl 1 31) with (2 ^ 31).
  destruct (Z.ltb_spec den (2 ^ 31)) as [Hlt | Hge].
  - apply Z.eqb_eq.
    rewrite <- (Z.mod_small den (2 ^ 31)) by lia.
    rewrite <- Z.land_ones by lia.
    rewrite <- Z.land_assoc.
    change (Z.land (Z.ones 31) (2 ^ 31)) with 0. apply Z.land_0_r.
  - apply Z.eqb_neq. intros Hz.
    assert (Hb : Z.testbit (Z.land den (2 ^ 31)) 31 = false)
      by (rewrite Hz; apply Z.bits_0).
    rewrite Z.land_spec, Z.pow2_bits_true, andb_true_r in Hb by lia.
    assert (Hq : den / 2 ^ 31 = 1)
      by (symmetry; apply Z.div_unique with (r := den - 2 ^ 31); lia).
    pose proof (Z.testbit_spec' den 31 ltac:(lia)) as Ht.
    rewrite Hb, Hq in Ht. discriminate Ht.
Qed.

(** The first loop leaves [den = den0 * bit] with [bit] a power of two, and
    stops with [den] either at least [num] or with its top bit set. *)
Lemma udivmod_align_spec (num den0 : Z) (fuel k : nat) :
  is_u32 num -> 0 < den0 ->
  den0 * 2 ^ Z.of_nat k < 2 ^ 32 ->
  (32 <= fuel + k)%nat ->
  exists k' : nat,
    udivmod_align fuel num (den0 * 2 ^ Z.of_nat k) (2 ^ Z.of_nat k)
      = Some (den0 * 2 ^ Z.of_nat k', 2 ^ Z.of_nat k')
    /\ den0 * 2 ^ Z.of_nat k' < 2 ^ 32
    /\ num < 2 * (den0 * 2 ^ Z.of_nat k').
Proof.
  unfold is_u32. intros Hnum Hden0. revert k.
  induction fuel as [| fuel IH]; intros k Hlt Hfuel.
  - exfalso. pose proof (pow2_nat_le 32 k ltac:(lia)) as Hp.
    change (2 ^ Z.of_nat 32) with (2 ^ 32) in Hp. nia.
  - cbn [udivmod_align].
    pose proof (pow2_nat_pos k) as Hpos.
    rewrite top_bit_clear by (unfold is_u32; nia).
    destruct (Z.ltb_spec (den0 * 2 ^ Z.of_nat k) num) as [Hdn | Hdn]; cbn [andb].
    2:{ exists k. repeat split; [assumption | lia]. }
    destruct (Z.eqb_spec (2 ^ Z.of_nat k) 0) as [Hz | _]; [lia |]. cbn [negb andb].
    destruct (Z.ltb_spec (den0 * 2 ^ Z.of_nat k) (2 ^ 31)) as [Htop | Htop].
    2:{ exists k. repeat split; [assumption | lia]. }
    rewrite !Z.shiftl_mul_pow2 by lia. unfold u32, wrap_u.
    rewrite !Z.mod_small by nia.
    replace (den0 * 2 ^ Z.of_nat k * 2 ^ 1) with (den0 * 2 ^ Z.of_nat (S k))
      by (rewrite pow2_nat_succ; lia).
    replace (2 ^ Z.of_nat k * 2 ^ 1) with (2 ^ Z.of_nat (S k))
      by (rewrite pow2_nat_succ; lia).
    apply IH; [rewrite pow2_nat_succ; lia | lia].
Qed.

(** [res |= bit] adds [bit] when [res] is a multiple of [2 * bit]. *)
Lemma lor_fresh_bit (r : Z) (k : nat) :
  Z.lor (r * 2 ^ Z.of_nat (S k)) (2 ^ Z.of_nat k) = r * 2 ^ Z.of_nat (S k) + 2 ^ Z.of_nat k.
Proof.
  symmetry. apply Z.add_nocarry_lor.
  apply Z.bits_inj'. intros n Hn.
  rewrite Z.land_spec, Z.bits_0.
  destruct (Z.eq_dec n (Z.of_nat k)) as [-> | Hne].
  - rewrite Z.mul_pow2_bits_low by lia. reflexivity.
  - rewrite (Z.pow2_bits_false (Z.of_nat k) n) by lia. apply andb_false_r.
Qed.

(** The second loop is restoring division: it keeps [res * den0 + num]
    and ends with [num < den0]. *)
Lemma udivmod_subtract_spec (den0 : Z) (k fuel : nat) (num r : Z) :
  0 < den0 -> 0 <= r ->
  0 <= num < 2 * (den0 * 2 ^ Z.of_nat k) ->
  den0 * 2 ^ Z.of_nat k < 2 ^ 32 ->
  (k + 2 <= fuel)%nat ->
  exists num' res',
    udivmod_subtract fuel num (den0 * 2 ^ Z.of_nat k) (2 ^ Z.of_nat k)
                     (r * 2 ^ Z.of_nat (S k)) = Some (num', res')
    /\ res' * den0 + num' = r * 2 ^ Z.of_nat (S k) * den0 + num
    /\ 0 <= num' < den0.
Proof.
  intros Hden0. revert fuel num r.
  induction k as [| k IH]; intros fuel num r Hr Hnum Hlt Hfuel;
    (destruct fuel as [| fuel]; [lia |]); cbn [udivmod_subtract].
  - change (2 ^ Z.of_nat 0) with 1 in *. change (2 ^ Z.of_nat 1) with 2.
    rewrite Z.mul_1_r in *. cbn [Z.eqb].
    destruct fuel as [| fuel]; [lia |].
    change (Z.shiftr 1 1) with 0.
    pose proof (lor_fresh_bit r 0) as Hlor.
    change (2 ^ Z.of_nat 0) with 1 in Hlor. change (2 ^ Z.of_nat 1) with 2 in Hlor.
    destruct (Z.geb_spec num den0) as [Hge | Hnge]; cbn [udivmod_subtract Z.eqb].
    + unfold u32, wrap_u. rewrite Z.mod_small by lia. rewrite Hlor.
      eexists _, _. split; [reflexivity |]. lia.
    + eexists _, _. split; [reflexivity |]. lia.
  - pose proof (pow2_nat_pos k) as Hpos.
    pose proof (pow2_nat_succ k) as E1. pose proof (pow2_nat_succ (S k)) as E2.
    destruct (Z.eqb_spec (2 ^ Z.of_nat (S k)) 0) as [Hz | _]; [lia |].
    assert (Hs1 : Z.shiftr (den0 * 2 ^ Z.of_nat (S k)) 1 = den0 * 2 ^ Z.of_nat k).
    { rewrite Z.shiftr_div_pow2 by lia. symmetry. apply Z.div_unique_exact; lia. }
    assert (Hs2 : Z.shiftr (2 ^ Z.of_nat (S k)) 1 = 2 ^ Z.of_nat k).
    { rewrite Z.shiftr_div_pow2 by lia. symmetry. apply Z.div_unique_exact; lia. }
    rewrite Hs1, Hs2, lor_fresh_bit.
    destruct (Z.geb_spec num (den0 * 2 ^ Z.of_nat (S k))) as [Hge | Hnge].
    + unfold u32, wrap_u. rewrite Z.mod_small by lia.
      replace (r * 2 ^ Z.of_nat (S (S k)) + 2 ^ Z.of_nat (S k))
        with ((2 * r + 1) * 2 ^ Z.of_nat (S k)) by lia.
      destruct (IH fuel (num - den0 * 2 ^ Z.of_nat (S k)) (2 * r + 1))
        as (num' & res' & Hrun & Hsum & Hrem); [lia | lia | lia | lia |].
      exists num', res'. split; [exact Hrun |]. lia.
    + replace (r * 2 ^ Z.of_nat (S (S k))) with ((2 * r) * 2 ^ Z.of_nat (S k)) by lia.
      destruct (IH fuel num (2 * r)) as (num' & res' & Hrun & Hsum & Hrem);
        [lia | lia | lia | lia |].
      exists num', res'. split; [exact Hrun |]. lia.
Qed.

(** C8. For 32-bit unsigned [num] and [den] with [den <> 0], the call
    [__udivmodsi4(num, den, 0)] returns the exact quotient [num / den] and
    [__udivmodsi4(num, den, 1)] returns the exact remainder [num mod den];
    in particular both loops finish within the fuel of the model. *)
Theorem udivmodsi4_correct (num den : Z) :
  is_u32 num -> is_u32 den -> den <> 0 ->
  __udivmodsi4 num den 0 = Some (num / den)
  /\ __udivmodsi4 num den 1 = Some (num mod den).
Proof.
  intros Hnum Hden Hnz. pose proof Hnum as Hnum'. pose proof Hden as Hden'.
  unfold is_u32 in Hnum', Hden'.
  destruct (udivmod_align_spec num den word_fuel 0 Hnum) as (k & Hal & Hlt & Hnd);
    [lia | change (2 ^ Z.of_nat 0) with 1; lia | unfold word_fuel; lia |].
  change (2 ^ Z.of_nat 0) with 1 in Hal. rewrite Z.mul_1_r in Hal.
  assert (Hk : (k < 32)%nat).
  { destruct (Nat.lt_ge_cases k 32) as [Hk | Hk]; [exact Hk | exfalso].
    pose proof (pow2_nat_le 32 k Hk) as Hp.
    change (2 ^ Z.of_nat 32) with (2 ^ 32) in Hp. nia. }
  destruct (udivmod_subtract_spec den k word_fuel num 0) as (r & q & Hsub & Hsum & Hrem);
    [lia | lia | lia | exact Hlt | unfold word_fuel; lia |].
  rewrite Z.mul_0_l in Hsub. rewrite !Z.mul_0_l, Z.add_0_l in Hsum.
  unfold __udivmodsi4. rewrite Hal, Hsub. cbn [Z.eqb].
  split; f_equal.
  - apply Z.div_unique with (r := r); lia.
  - apply Z.mod_unique with (q := q); lia.
Qed.

(** The theorem at [num = 4294967295], [den = 7]. *)
Lemma udivmodsi4_correct_witness :
  __udivmodsi4 4294967295 7 0 = Some 613566756
  /\ __udivmodsi4 4294967295 7 1 = Some 3.
Proof.
  apply (udivmodsi4_correct 4294967295 7); unfold is_u32; lia.
Defined.

(** *** Signed wrap-around is the identity inside the range *)

Lemma s32_id (z : Z) : is_s32 z -> s32 z = z.
Proof.
  unfold is_s32, s32, wrap_s. intros Hz.
  change (2 ^ (32 - 1)) with (2 ^ 31). rewrite Z.mod_small; lia.
Qed.

Lemma s32_range (z : Z) : is_s32 (s32 z).
Proof.
  unfold is_s32, s32, wrap_s. change (2 ^ (32 - 1)) with (2 ^ 31).
  pose proof (Z.mod_pos_bound (z + 2 ^ 31) (2 ^ 32) ltac:(lia)). lia.
Qed.

(** *** [strncmp] with a count that is not positive *)

(** The fuel [strncmp] is given is always enough. *)
Lemma strncmp_loop_total (fuel : nat) (s1 s2 : list Z) (p1 p2 : nat) (n : Z)
    (reads : list (operand * nat)) :
  (p1 <= length s1 < fuel + p1)%nat ->
  exists r, strncmp_loop fuel s1 s2 p1 p2 n reads = Some r.
Proof.
  revert p1 p2 n reads.
  induction fuel as [| fuel IH]; intros p1 p2 n reads Hfuel; cbn [strncmp_loop].
  - lia.
  - destruct (s32 (n - 1) >=? 0); [| eexists; reflexivity].
    destruct (deref s1 p1 =? deref s2 p2); [| eexists; reflexivity].
    destruct (Z.eqb_spec (deref s1 p1) 0) as [Hz | Hnz]; [eexists; reflexivity |].
    apply IH.
    destruct (Nat.lt_ge_cases p1 (length s1)) as [Hlt | Hge]; [lia |].
    exfalso. apply Hnz. unfold deref. apply nth_overflow. exact Hge.
Qed.

Lemma strncmp_total (s1 s2 : list Z) (n : Z) :
  exists r, strncmp s1 s2 n = Some r.
Proof. unfold strncmp. apply strncmp_loop_total. lia. Qed.

(** C10 (as amended).  For all strings [s1], [s2] and every count [n] with
    [INT32_MIN < n <= 0], [strncmp(s1, s2, n)] returns 0 and dereferences
    neither string. *)
Theorem strncmp_nonpositive_count (s1 s2 : list Z) (n : Z) :
  INT32_MIN < n <= 0 ->
  strncmp s1 s2 n = Some (0, []).
Proof.
  unfold INT32_MIN. intros Hn.
  unfold strncmp. cbn [strncmp_loop].
  rewrite s32_id by (unfold is_s32; lia).
  destruct (Z.geb_spec (n - 1) 0) as [Hge | Hlt]; [lia |].
  unfold strncmp_return.
  destruct (Z.ltb_spec (n - 1) 0) as [_ | Hge]; [reflexivity | lia].
Qed.

Lemma strncmp_nonpositive_count_witness :
  strncmp [104; 105] [104; 111] (-3) = Some (0, []).
Proof.
  apply (strncmp_nonpositive_count [104; 105] [104; 111] (-3)).
  unfold INT32_MIN. lia.
Defined.

(** C10 as first stated fails at [n = INT32_MIN]: the decrement [--n] leaves
    the 32-bit range and comes back as [INT32_MAX], the loop is entered, both
    strings are read and the difference of the first bytes is returned. *)
Lemma strncmp_count_int_min :
  is_s32 INT32_MIN /\ INT32_MIN <= 0
  /\ strncmp [97] [98] INT32_MIN
      = Some (-1, [(Str1, 0%nat); (Str2, 0%nat); (Str1, 0%nat); (Str2, 0%nat)])
  /\ strncmp [97] [98] INT32_MIN <> Some (0, []).
Proof.
  unfold is_s32, INT32_MIN.
  repeat split; try lia; try reflexivity. discriminate.
Qed.

(** *** [itoa]: buffer accesses *)

Lemma load_middle (pre post : list ascii) (c : ascii) :
  load (pre ++ c :: post) (length pre) = Some c.
Proof. unfold load. apply list_lookup_middle. reflexivity. Qed.

Lemma store_middle (pre post : list ascii) (old c : ascii) :
  store (pre ++ old :: post) (length pre) c = Some (pre ++ c :: post).
Proof.
  unfold store. rewrite decide_True by (rewrite length_app; cbn; lia).
  f_equal. rewrite insert_app_r_alt by lia.
  rewrite Nat.sub_diag. reflexivity.
Qed.

(** *** [itoa]: the table and the division *)

(** Entry [35 + r] of the table is the digit [|r|]. *)
Lemma itoa_table_digit (r : Z) :
  -35 <= r <= 35 -> itoa_table_at (35 + r) = digit_char (Z.abs r).
Proof.
  intros Hr.
  assert (Hall : forallb (fun k => Ascii.eqb (itoa_table_at (35 + (Z.of_nat k - 35)))
                                            (digit_char (Z.abs (Z.of_nat k - 35))))
                         (seq 0 71) = true) by (vm_compute; reflexivity).
  rewrite forallb_forall in Hall.
  specialize (Hall (Z.to_nat (r + 35))).
  rewrite Z2Nat.id in Hall by lia.
  replace (r + 35 - 35) with r in Hall by lia.
  apply Ascii.eqb_eq, Hall. apply in_seq. lia.
Qed.

(** C division of a 32-bit [i] by a base in [2, 36]: nothing overflows, the
    magnitude of the quotient is the quotient of the magnitudes, and the
    table index is that of the digit [|i| mod base]. *)
Lemma itoa_step_arith (i base : Z) :
  is_s32 i -> 2 <= base <= 36 ->
  let q := s32 (Z.quot i base) in
  q = Z.quot i base
  /\ is_s32 q
  /\ Z.abs q = Z.abs i / base
  /\ (q <> 0 -> (q <? 0) = (i <? 0))
  /\ itoa_table_at (s32 (35 + s32 (i - s32 (q * base)))) = digit_char (Z.abs i mod base).
Proof.
  intros Hi Hb q. unfold is_s32 in Hi |- *.
  assert (Hqa : Z.abs (Z.quot i base) = Z.abs i / base).
  { rewrite <- Z.quot_abs by lia. rewrite (Z.abs_eq base) by lia.
    apply Z.quot_div_nonneg; lia. }
  assert (Hra : Z.abs (Z.rem i base) = Z.abs i mod base).
  { rewrite <- Z.rem_abs by lia. rewrite (Z.abs_eq base) by lia.
    apply Z.rem_mod_nonneg; lia. }
  pose proof (Z.quot_rem' i base) as Hqr.
  pose proof (Z.mod_pos_bound (Z.abs i) base ltac:(lia)) as Hmod.
  assert (Hdiv : Z.abs i / base <= Z.abs i)
    by (apply Z.div_le_upper_bound; nia).
  assert (Hdiv0 : 0 <= Z.abs i / base) by (apply Z.div_pos; lia).
  assert (Hq : q = Z.quot i base) by (apply s32_id; unfold is_s32; lia).
  assert (Hsign : 0 <= i -> 0 <= Z.quot i base) by (intros; apply Z.quot_pos; lia).
  assert (Hsign' : i <= 0 -> Z.quot i base <= 0).
  { intros. rewrite <- (Z.opp_involutive i), Z.quot_opp_l by lia.
    pose proof (Z.quot_pos (- i) base ltac:(lia) ltac:(lia)). lia. }
  repeat split.
  - exact Hq.
  - rewrite Hq. lia.
  - rewrite Hq. lia.
  - rewrite Hq. exact Hqa.
  - rewrite Hq. intros Hnz.
    destruct (Z.ltb_spec (Z.quot i base) 0), (Z.ltb_spec i 0); try reflexivity; lia.
  - rewrite Hq.
    assert (Hprod : Z.abs (base * Z.quot i base) <= Z.abs i).
    { rewrite Z.abs_mul, Hqa, (Z.abs_eq base) by lia.
      pose proof (Z.mul_div_le (Z.abs i) base ltac:(lia)). lia. }
    rewrite (s32_id (Z.quot i base * base)) by (unfold is_s32; lia).
    replace (i - Z.quot i base * base) with (Z.rem i base) by lia.
    rewrite (s32_id (Z.rem i base)) by (unfold is_s32; lia).
    rewrite s32_id by (unfold is_s32; lia).
    rewrite itoa_table_digit by lia. rewrite Hra. reflexivity.
Qed.

(** *** [itoa]: digits *)

Lemma digits_from_lsf (fuel : nat) (n base : Z) (acc : list Z) :
  digits_from fuel n base acc = rev (digits_lsf fuel n base) ++ acc.
Proof.
  revert n acc. induction fuel as [| fuel IH]; intros n acc; cbn [digits_from digits_lsf].
  - reflexivity.
  - destruct (n / base =? 0).
    + reflexivity.
    + rewrite IH. cbn [rev]. rewrite <- app_assoc. reflexivity.
Qed.

Lemma half_bound (n base : Z) (fuel : nat) :
  2 <= base -> 0 <= n < 2 ^ Z.of_nat (S fuel) -> n / base <> 0 ->
  0 <= n / base < 2 ^ Z.of_nat fuel /\ (1 <= fuel)%nat.
Proof.
  intros Hb Hn Hnz. rewrite pow2_nat_succ in Hn.
  assert (H0 : 0 <= n / base) by (apply Z.div_pos; lia).
  assert (Hlt : n / base < 2 ^ Z.of_nat fuel)
    by (apply Z.div_lt_upper_bound; nia).
  split; [lia |].
  destruct fuel as [| fuel]; [| lia].
  change (2 ^ Z.of_nat 0) with 1 in Hlt. lia.
Qed.

(** Once the fuel covers the number, more fuel changes nothing. *)
Lemma digits_lsf_fuel (base : Z) (f1 f2 : nat) (n : Z) :
  2 <= base ->
  0 <= n < 2 ^ Z.of_nat f1 -> n < 2 ^ Z.of_nat f2 ->
  (1 <= f1)%nat -> (1 <= f2)%nat ->
  digits_lsf f1 n base = digits_lsf f2 n base.
Proof.
  intros Hb. revert f2 n.
  induction f1 as [| f1 IH]; intros f2 n Hn1 Hn2 Hf1 Hf2; [lia |].
  destruct f2 as [| f2]; [lia |]. cbn [digits_lsf]. f_equal.
  destruct (Z.eqb_spec (n / base) 0) as [Hz | Hnz]; [reflexivity |].
  destruct (half_bound n base f1 Hb Hn1 Hnz) as [Hq1 Hg1].
  destruct (half_bound n base f2 Hb ltac:(lia) Hnz) as [Hq2 Hg2].
  apply IH; lia.
Qed.

(** *** [itoa]: the digit loop *)

Lemma itoa_digits_spec (base : Z) (fuel : nat) (i : Z) (pre old post : list ascii) :
  2 <= base <= 36 -> is_s32 i ->
  Z.abs i < 2 ^ Z.of_nat fuel -> (1 <= fuel)%nat ->
  length old = length (digits_lsf fuel (Z.abs i) base) ->
  exists t,
    itoa_digits fuel i base (length pre) (pre ++ old ++ post)
      = Some (t, (length pre + length old)%nat,
              pre ++ map digit_char (digits_lsf fuel (Z.abs i) base) ++ post)
    /\ (t <? 0) = (i <? 0).
Proof.
  intros Hb. revert i pre old.
  induction fuel as [| fuel IH]; intros i pre old Hi Hlt Hfuel Hlen; [lia |].
  cbn [itoa_digits digits_lsf] in *.
  destruct (itoa_step_arith i base Hi Hb) as (Hq & Hqr & Habs & Hsgn & Hch).
  destruct old as [| o old]; [discriminate Hlen |].
  rewrite Hch. cbn [app]. rewrite store_middle. cbn [mbind option_bind].
  rewrite <- Habs in Hlen |- *.
  destruct (Z.eqb_spec (s32 (Z.quot i base)) 0) as [Hz | Hnz].
  - rewrite Hz in *. cbn [Z.abs Z.eqb length] in *.
    destruct old; [| discriminate Hlen].
    exists i. split; [| reflexivity].
    cbn [length map app]. rewrite Nat.add_1_r. reflexivity.
  - destruct (Z.eqb_spec (Z.abs (s32 (Z.quot i base))) 0) as [Hz' | _]; [lia |].
    assert (Hq' : Z.abs i / base <> 0) by lia.
    destruct (half_bound (Z.abs i) base fuel ltac:(lia) ltac:(lia) Hq') as [Hhb Hf].
    destruct (IH (s32 (Z.quot i base)) (pre ++ [digit_char (Z.abs i mod base)]) old)
      as (t & Hrun & Ht); [exact Hqr | lia | exact Hf | |].
    { cbn [length] in Hlen. lia. }
    exists t. split; [| rewrite Ht; apply Hsgn, Hnz].
    rewrite length_app in Hrun. cbn [length] in Hrun |- *.
    rewrite Nat.add_1_r in Hrun. rewrite <- !app_assoc in Hrun. cbn [app] in Hrun.
    rewrite Hrun, Nat.add_succ_comm. reflexivity.
Qed.

(** *** [itoa]: reversal in place *)

Lemma itoa_reverse_spec (fuel : nat) (l pre post : list ascii) (ptr : nat) :
  (length l < 2 * fuel)%nat ->
  (ptr + 1 = length pre + length l)%nat ->
  itoa_reverse fuel (length pre) ptr (pre ++ l ++ post) = Some (pre ++ rev l ++ post).
Proof.
  revert l pre post ptr.
  induction fuel as [| fuel IH]; intros l pre post ptr Hfuel Hptr; [lia |].
  cbn [itoa_reverse].
  destruct l as [| a l].
  { cbn [length] in Hptr. rewrite decide_False by lia. reflexivity. }
  destruct l as [| b mid _] using rev_ind.
  { cbn [length] in Hptr. rewrite decide_False by lia. reflexivity. }
  rewrite length_cons, length_app in Hptr, Hfuel. cbn [length] in Hptr, Hfuel.
  rewrite decide_True by lia.
  assert (Hp : ptr = length (pre ++ a :: mid))
    by (rewrite length_app; cbn [length]; lia).
  replace (pre ++ (a :: mid ++ [b]) ++ post) with ((pre ++ a :: mid) ++ b :: post)
    by (rewrite <- !app_assoc; cbn [app]; rewrite <- app_assoc; reflexivity).
  rewrite Hp at 1. rewrite load_middle. cbn [mbind option_bind].
  rewrite <- app_assoc. cbn [app]. rewrite load_middle. cbn [mbind option_bind].
  replace (pre ++ a :: mid ++ b :: post) with ((pre ++ a :: mid) ++ b :: post)
    by (rewrite <- app_assoc; reflexivity).
  rewrite Hp at 1. rewrite store_middle. cbn [mbind option_bind].
  rewrite <- app_assoc. cbn [app]. rewrite store_middle. cbn [mbind option_bind].
  replace (S (length pre)) with (length (pre ++ [b]))
    by (rewrite length_app; cbn [length]; lia).
  replace (pre ++ b :: mid ++ a :: post) with ((pre ++ [b]) ++ mid ++ a :: post)
    by (rewrite <- app_assoc; reflexivity).
  rewrite IH.
  - cbn [rev]. rewrite rev_app_distr. cbn [rev app].
    rewrite <- !app_assoc. reflexivity.
  - lia.
  - rewrite Hp, !length_app. cbn [length]. lia.
Qed.

(** *** [itoa]: the whole function *)

Lemma digits_lsf_length (fuel : nat) (n base : Z) :
  (length (digits_lsf fuel n base) <= fuel)%nat.
Proof.
  revert n. induction fuel as [| fuel IH]; intros n; cbn [digits_lsf length]; [lia |].
  destruct (n / base =? 0); [cbn [length]; lia |].
  specialize (IH (n / base)). lia.
Qed.

Lemma standard_digits_lsf (n base : Z) :
  2 <= base -> 0 <= n < 2 ^ Z.of_nat word_fuel ->
  standard_digits n base = rev (digits_lsf word_fuel n base).
Proof.
  intros Hb Hn. unfold standard_digits.
  rewrite digits_from_lsf, app_nil_r. f_equal.
  apply digits_lsf_fuel; [exact Hb | | lia | lia | unfold word_fuel; lia].
  split; [lia |].
  rewrite Nat2Z.inj_succ, Z2Nat.id by apply Z.log2_nonneg.
  destruct (Z.eq_dec n 0) as [-> | Hnz]; [reflexivity |].
  apply Z.log2_spec. lia.
Qed.

Lemma store_at (a b : list ascii) (o c : ascii) (p : nat) :
  p = length a -> store (a ++ o :: b) p c = Some (a ++ c :: b).
Proof. intros ->. apply store_middle. Qed.

Lemma itoa_in_base (i base : Z) (pre old post : list ascii) :
  is_s32 i -> 2 <= base <= 36 ->
  length old = S (length (standard_string i base)) ->
  itoa i (length pre) base (pre ++ old ++ post)
    = Some (length pre, pre ++ standard_string i base ++ NUL :: post).
Proof.
  intros Hi Hb Hlen. pose proof Hi as Hi'. unfold is_s32 in Hi'.
  assert (Hfuel : 0 <= Z.abs i < 2 ^ Z.of_nat word_fuel)
    by (change (2 ^ Z.of_nat word_fuel) with (2 ^ 33); lia).
  unfold standard_string in *.
  rewrite standard_digits_lsf in * by lia.
  set (ds := digits_lsf word_fuel (Z.abs i) base) in *.
  pose proof (digits_lsf_length word_fuel (Z.abs i) base) as Hds. fold ds in Hds.
  rewrite length_app, length_map, length_rev in Hlen.
  unfold itoa.
  destruct (Z.ltb_spec base 2) as [? | _]; [lia |].
  destruct (Z.gtb_spec base 36) as [? | _]; [lia |]. cbn [orb].
  rewrite <- (take_drop (length ds) old).
  set (old_d := take (length ds) old).
  set (old_r := drop (length ds) old).
  assert (Hd : length old_d = length ds)
    by (unfold old_d; rewrite length_take; lia).
  assert (Hr : length old_r = S (length (if i <? 0 then ["-"%char] else [])))
    by (unfold old_r; rewrite length_drop; lia).
  rewrite <- (app_assoc old_d old_r post).
  destruct (itoa_digits_spec base word_fuel i pre old_d (old_r ++ post))
    as (t & Hrun & Ht); [exact Hb | exact Hi | lia | unfold word_fuel; lia | exact Hd |].
  fold ds in Hrun. rewrite Hrun. cbn [mbind option_bind]. rewrite Ht, Hd.
  set (chars := map digit_char ds).
  assert (Hc : length chars = length ds) by (unfold chars; apply length_map).
  rewrite map_rev. fold chars.
  destruct (i <? 0); cbn [length] in Hr.
  - destruct old_r as [| o1 [| o2 [| ? ?]]]; try discriminate Hr.
    rewrite (app_assoc pre chars). cbn [app].
    rewrite (store_at (pre ++ chars) _ o1) by (rewrite length_app; lia).
    cbn [mbind option_bind].
    replace ((pre ++ chars) ++ "-"%char :: o2 :: post)
      with (((pre ++ chars) ++ ["-"%char]) ++ o2 :: post)
      by (rewrite <- !app_assoc; reflexivity).
    rewrite (store_at _ _ o2) by (rewrite !length_app; cbn [length]; lia).
    cbn [mbind option_bind Nat.pred].
    replace (((pre ++ chars) ++ ["-"%char]) ++ NUL :: post)
      with (pre ++ (chars ++ ["-"%char]) ++ NUL :: post)
      by (rewrite <- !app_assoc; reflexivity).
    rewrite itoa_reverse_spec.
    + cbn [mbind option_bind]. rewrite rev_app_distr. reflexivity.
    + rewrite length_app. cbn [length]. unfold word_fuel in *. lia.
    + rewrite length_app. cbn [length]. lia.
  - destruct old_r as [| o1 [| ? ?]]; try discriminate Hr.
    assert (Hne : (1 <= length ds)%nat)
      by (unfold ds; cbn [word_fuel digits_lsf length]; lia).
    rewrite (app_assoc pre chars). cbn [app mbind option_bind].
    rewrite (store_at (pre ++ chars) _ o1) by (rewrite length_app; lia).
    cbn [mbind option_bind].
    rewrite <- (app_assoc pre chars).
    rewrite itoa_reverse_spec.
    + reflexivity.
    + unfold word_fuel in *. lia.
    + lia.
Qed.

(** *** The standard digit string is the positional notation *)

Lemma digits_value_snoc (base : Z) (ds : list Z) (d : Z) :
  digits_value base (ds ++ [d]) = digits_value base ds * base + d.
Proof. unfold digits_value. rewrite fold_left_app. reflexivity. Qed.

Lemma digits_lsf_canonical (base : Z) (fuel : nat) (n : Z) :
  2 <= base -> 0 <= n < 2 ^ Z.of_nat fuel -> (1 <= fuel)%nat ->
  digits_value base (rev (digits_lsf fuel n base)) = n
  /\ Forall (fun d => 0 <= d < base) (digits_lsf fuel n base)
  /\ (0 < n -> forall d, last (digits_lsf fuel n base) = Some d -> d <> 0).
Proof.
  intros Hb. revert n.
  induction fuel as [| fuel IH]; intros n Hn Hfuel; [lia |].
  cbn [digits_lsf].
  pose proof (Z.mod_pos_bound n base ltac:(lia)) as Hmod.
  pose proof (Z.div_mod n base ltac:(lia)) as Hdm.
  destruct (Z.eqb_spec (n / base) 0) as [Hz | Hnz].
  - repeat split.
    + cbn. lia.
    + constructor; [lia | constructor].
    + intros Hpos d [= <-]. lia.
  - destruct (half_bound n base fuel Hb Hn Hnz) as [Hq Hf].
    destruct (IH (n / base) Hq Hf) as (Hval & Hall & Hlast).
    repeat split.
    + cbn [rev]. rewrite digits_value_snoc, Hval. lia.
    + constructor; [lia | exact Hall].
    + intros _ d Hd. apply (Hlast ltac:(lia) d).
      destruct fuel as [| fuel']; [lia |]. exact Hd.
Qed.

(** The digit list of [standard_digits] denotes [n], every digit is below
    the base, and the leading digit of a positive number is not zero. *)
Lemma standard_digits_canonical (base n : Z) :
  2 <= base -> 0 <= n ->
  digits_value base (standard_digits n base) = n
  /\ Forall (fun d => 0 <= d < base) (standard_digits n base)
  /\ (0 < n -> forall d, head (standard_digits n base) = Some d -> d <> 0).
Proof.
  intros Hb Hn. unfold standard_digits. rewrite digits_from_lsf, app_nil_r.
  assert (Hlt : 0 <= n < 2 ^ Z.of_nat (S (Z.to_nat (Z.log2 n)))).
  { split; [lia |].
    rewrite Nat2Z.inj_succ, Z2Nat.id by apply Z.log2_nonneg.
    destruct (Z.eq_dec n 0) as [-> | Hnz]; [reflexivity |].
    apply Z.log2_spec. lia. }
  destruct (digits_lsf_canonical base _ n Hb Hlt ltac:(lia)) as (Hval & Hall & Hlast).
  repeat split.
  - exact Hval.
  - apply Forall_rev, Hall.
  - intros Hpos d Hd. apply (Hlast Hpos d).
    rewrite <- head_reverse. unfold reverse. rewrite <- rev_alt. exact Hd.
Qed.

(** C9.  For every 32-bit signed [i] and [base]: when [2 <= base <= 36],
    [itoa(i, s, base)] returns [s] and leaves in the buffer, from [s] on, the
    standard base-[base] digit string of [i] (a minus sign first when [i] is
    negative) followed by NUL, every other byte being untouched; when [base]
    is outside [2, 36] it returns [s] and stores only a NUL at [s]. *)
Theorem itoa_correct (i base : Z) (pre old post : list ascii) :
  is_s32 i -> is_s32 base ->
  (2 <= base <= 36 ->
   length old = S (length (standard_string i base)) ->
   itoa i (length pre) base (pre ++ old ++ post)
     = Some (length pre, pre ++ standard_string i base ++ NUL :: post))
  /\ (~ 2 <= base <= 36 ->
      length old = 1%nat ->
      itoa i (length pre) base (pre ++ old ++ post)
        = Some (length pre, pre ++ NUL :: post)).
Proof.
  intros Hi Hbase. split.
  - intros Hb Hlen. apply itoa_in_base; assumption.
  - intros Hb Hlen. unfold itoa.
    destruct old as [| o [| ? ?]]; try discriminate Hlen.
    destruct (Z.ltb_spec base 2) as [Hlo | Hlo]; cbn [orb].
    + cbn [app]. rewrite store_middle. reflexivity.
    + destruct (Z.gtb_spec base 36) as [Hhi | Hhi]; [| lia].
      cbn [app]. rewrite store_middle. reflexivity.
Qed.

Lemma itoa_correct_witness :
  itoa (-255) 1 16 (list_ascii_of_string "[....]")
    = Some (1%nat, list_ascii_of_string "[-ff" ++ NUL :: list_ascii_of_string "]")
  /\ itoa (-255) 1 37 (list_ascii_of_string "[.]")
     = Some (1%nat, list_ascii_of_string "[" ++ NUL :: list_ascii_of_string "]").
Proof.
  split.
  - apply (proj1 (itoa_correct (-255) 16 (list_ascii_of_string "[")
                    (list_ascii_of_string "....") (list_ascii_of_string "]")
                    ltac:(unfold is_s32; lia) ltac:(unfold is_s32; lia)));
      [lia | reflexivity].
  - apply (proj2 (itoa_correct (-255) 37 (list_ascii_of_string "[")
                    (list_ascii_of_string ".") (list_ascii_of_string "]")
                    ltac:(unfold is_s32; lia) ltac:(unfold is_s32; lia)));
      [lia | reflexivity].
Defined.

End LibcProofs.

Module KernelProofs.
Import Word Kernel.

(** *** [clear_pcb] *)

(** C7.  After [clear_pcb] the real-time scheduler selector is the
    rate-monotonic scheduler, the best-effort selector is the priority
    round-robin scheduler, and the counters of cooperative and preemptive
    context switches, of interrupts and of tick time are zero; the call
    always returns and touches nothing but the PCB. *)
Theorem clear_pcb_defaults (k : kernel) :
  exists k',
    clear_pcb k = Ok tt k'
    /\ sched_rt (krnl_pcb k') = Some sched_rma
    /\ sched_be (krnl_pcb k') = Some sched_priorityrr
    /\ coop_cswitch (krnl_pcb k') = 0
    /\ preempt_cswitch (krnl_pcb k') = 0
    /\ interrupts (krnl_pcb k') = 0
    /\ tick_time (krnl_pcb k') = 0
    /\ krnl_tcb k' = krnl_tcb k
    /\ krnl_free k' = krnl_free k.
Proof.
  unfold clear_pcb, bind, get, set_krnl_pcb.
  eexists. split; [reflexivity |].
  cbn. repeat split; reflexivity.
Qed.

Ltac kernel_fields :=
  cbn [with_table
       krnl_tcb krnl_pcb krnl_task krnl_tasks krnl_current_task krnl_schedule
       krnl_run_queue krnl_delay_queue krnl_rt_queue krnl_aperiodic_queue krnl_free].

Section Bringup.

Variable MAX_TASKS : Z.
Variable queue_bytes : Z -> Z.

(** *** [clear_tcb] *)

Lemma clear_entry_free (t : tcb_entry) : slot_free (clear_entry t).
Proof. unfold slot_free. cbn. repeat split; reflexivity. Qed.

(** From slot [j] on, the loop clears the rest of the table and leaves the
    slots below [j] alone. *)
Lemma clear_tcb_loop_spec (k : kernel) (m j fuel : nat)
    (tcb : list tcb_entry) (task : option nat) :
  0 <= MAX_TASKS <= 65535 ->
  length tcb = Z.to_nat MAX_TASKS ->
  (j + m = Z.to_nat MAX_TASKS)%nat ->
  (m < fuel)%nat ->
  clear_tcb_loop MAX_TASKS fuel (Z.of_nat j) (with_table k tcb task)
    = Ok tt (with_table k (take j tcb ++ map clear_entry (drop j tcb))
                        (match m with
                         | O => task
                         | S _ => Some (Nat.pred (Z.to_nat MAX_TASKS))
                         end)).
Proof.
  intros Hmax Hlen. revert j fuel tcb task Hlen.
  induction m as [| m IH]; intros j fuel tcb task Hlen Hj Hfuel;
    (destruct fuel as [| fuel]; [lia |]); cbn [clear_tcb_loop].
  - destruct (Z.ltb_spec (Z.of_nat j) MAX_TASKS) as [Hlt | _]; [lia |].
    rewrite take_ge, drop_ge by lia. rewrite app_nil_r. reflexivity.
  - destruct (Z.ltb_spec (Z.of_nat j) MAX_TASKS) as [_ | Hge]; [| lia].
    rewrite Nat2Z.id.
    destruct (lookup_lt_is_Some_2 tcb j ltac:(lia)) as [t Ht].
    unfold bind at 1. cbn [set_krnl_task with_table krnl_tcb krnl_pcb krnl_task
      krnl_tasks krnl_current_task krnl_schedule krnl_run_queue krnl_delay_queue
      krnl_rt_queue krnl_aperiodic_queue krnl_free].
    unfold bind at 1. unfold read_tcb at 1. cbn [krnl_tcb]. rewrite Ht.
    unfold bind at 1. unfold write_tcb at 1. cbn [krnl_tcb].
    rewrite decide_True by lia.
    cbn [set_krnl_tcb krnl_tcb krnl_pcb krnl_task
      krnl_tasks krnl_current_task krnl_schedule krnl_run_queue krnl_delay_queue
      krnl_rt_queue krnl_aperiodic_queue krnl_free].
    unfold u16, wrap_u. rewrite Z.mod_small by lia.
    replace (Z.of_nat j + 1) with (Z.of_nat (S j)) by lia.
    change {| krnl_tcb := <[j:=clear_entry t]> tcb; krnl_pcb := krnl_pcb k;
              krnl_task := Some j; krnl_tasks := krnl_tasks k;
              krnl_current_task := krnl_current_task k;
              krnl_schedule := krnl_schedule k; krnl_run_queue := krnl_run_queue k;
              krnl_delay_queue := krnl_delay_queue k; krnl_rt_queue := krnl_rt_queue k;
              krnl_aperiodic_queue := krnl_aperiodic_queue k;
              krnl_free := krnl_free k |}
      with (with_table k (<[j:=clear_entry t]> tcb) (Some j)).
    rewrite (IH (S j) fuel) by (rewrite ?length_insert; lia).
    f_equal. f_equal.
    + rewrite drop_insert_lt by lia.
      rewrite (take_S_r _ j (clear_entry t))
        by (apply list_lookup_insert_eq; lia).
      rewrite take_insert_ge by lia.
      rewrite (drop_S tcb t j Ht). cbn [map].
      rewrite <- app_assoc. reflexivity.
    + destruct m; [f_equal; lia | reflexivity].
Qed.

Lemma with_table_self (k : kernel) : with_table k (krnl_tcb k) (krnl_task k) = k.
Proof. destruct k. reflexivity. Qed.

(** [clear_tcb] in closed form. *)
Lemma clear_tcb_closed (k : kernel) :
  0 <= MAX_TASKS <= 65535 ->
  length (krnl_tcb k) = Z.to_nat MAX_TASKS ->
  clear_tcb MAX_TASKS k
    = Ok tt {| krnl_tcb := map clear_entry (krnl_tcb k);
               krnl_pcb := krnl_pcb k;
               krnl_task := match Z.to_nat MAX_TASKS with
                            | O => krnl_task k
                            | S n => Some n
                            end;
               krnl_tasks := 0; krnl_current_task := 0; krnl_schedule := 0;
               krnl_run_queue := krnl_run_queue k;
               krnl_delay_queue := krnl_delay_queue k;
               krnl_rt_queue := krnl_rt_queue k;
               krnl_aperiodic_queue := krnl_aperiodic_queue k;
               krnl_free := krnl_free k |}.
Proof.
  intros Hmax Hlen. unfold clear_tcb.
  unfold bind at 1.
  rewrite <- (with_table_self k) at 1.
  change 0 with (Z.of_nat 0) at 1.
  rewrite (clear_tcb_loop_spec k (Z.to_nat MAX_TASKS) 0) by (assumption || lia).
  rewrite take_0, drop_0. cbn [app].
  destruct (Z.to_nat MAX_TASKS); reflexivity.
Qed.

(** C6.  With a task table of [MAX_TASKS] entries, [MAX_TASKS] within the
    range of the 16-bit loop counter, [clear_tcb] returns, and afterwards
    every slot [i] in [0, MAX_TASKS) is free: id -1, state IDLE, priority,
    delay, period, capacity, deadline, their remainders and the job and
    deadline-miss counters zero, no entry point and no stack. *)
Theorem clear_tcb_frees_every_slot (k : kernel) :
  0 <= MAX_TASKS <= 65535 ->
  length (krnl_tcb k) = Z.to_nat MAX_TASKS ->
  exists k',
    clear_tcb MAX_TASKS k = Ok tt k'
    /\ length (krnl_tcb k') = Z.to_nat MAX_TASKS
    /\ (forall i, 0 <= i < MAX_TASKS ->
          exists t, krnl_tcb k' !! Z.to_nat i = Some t /\ slot_free t)
    /\ krnl_tasks k' = 0 /\ krnl_current_task k' = 0 /\ krnl_schedule k' = 0.
Proof.
  intros Hmax Hlen. rewrite clear_tcb_closed by assumption.
  eexists. split; [reflexivity |]. cbn [krnl_tcb krnl_tasks krnl_current_task krnl_schedule].
  split; [rewrite length_map; exact Hlen |].
  split; [| repeat split].
  intros i Hi.
  destruct (lookup_lt_is_Some_2 (krnl_tcb k) (Z.to_nat i) ltac:(lia)) as [t Ht].
  exists (clear_entry t). split; [| apply clear_entry_free].
  rewrite list_lookup_fmap, Ht. reflexivity.
Qed.

(** *** [init_queues] *)

Lemma hf_queue_create_served (k : kernel) :
  queue_bytes MAX_TASKS <= krnl_free k ->
  hf_queue_create queue_bytes MAX_TASKS k
    = Ok (Some (fresh_queue MAX_TASKS))
         {| krnl_tcb := krnl_tcb k; krnl_pcb := krnl_pcb k; krnl_task := krnl_task k;
            krnl_tasks := krnl_tasks k; krnl_current_task := krnl_current_task k;
            krnl_schedule := krnl_schedule k; krnl_run_queue := krnl_run_queue k;
            krnl_delay_queue := krnl_delay_queue k; krnl_rt_queue := krnl_rt_queue k;
            krnl_aperiodic_queue := krnl_aperiodic_queue k;
            krnl_free := krnl_free k - queue_bytes MAX_TASKS |}.
Proof.
  intros Hfit. unfold hf_queue_create, bind, get.
  destruct (Z.leb_spec (queue_bytes MAX_TASKS) (krnl_free k)) as [_ | Hlt]; [| lia].
  reflexivity.
Qed.

Lemma hf_queue_create_refused (k : kernel) :
  krnl_free k < queue_bytes MAX_TASKS ->
  hf_queue_create queue_bytes MAX_TASKS k = Ok None k.
Proof.
  intros Hfit. unfold hf_queue_create, bind, get.
  destruct (Z.leb_spec (queue_bytes MAX_TASKS) (krnl_free k)) as [Hle | _]; [lia |].
  reflexivity.
Qed.

(** [init_queues] in closed form when all four creations are served. *)
Lemma init_queues_closed (k : kernel) :
  (forall j, 0 <= j < 4 -> creation_served MAX_TASKS queue_bytes k j) ->
  init_queues MAX_TASKS queue_bytes k
    = Ok tt {| krnl_tcb := krnl_tcb k; krnl_pcb := krnl_pcb k; krnl_task := krnl_task k;
               krnl_tasks := krnl_tasks k; krnl_current_task := krnl_current_task k;
               krnl_schedule := krnl_schedule k;
               krnl_run_queue := Some (fresh_queue MAX_TASKS);
               krnl_delay_queue := Some (fresh_queue MAX_TASKS);
               krnl_rt_queue := Some (fresh_queue MAX_TASKS);
               krnl_aperiodic_queue := Some (fresh_queue MAX_TASKS);
               krnl_free := krnl_free k - 4 * queue_bytes MAX_TASKS |}.
Proof.
  intros Hall.
  pose proof (Hall 0 ltac:(lia)) as H0. pose proof (Hall 1 ltac:(lia)) as H1.
  pose proof (Hall 2 ltac:(lia)) as H2. pose proof (Hall 3 ltac:(lia)) as H3.
  unfold creation_served in H0, H1, H2, H3.
  unfold init_queues.
  unfold bind at 1. rewrite hf_queue_create_served by lia.
  unfold bind at 1. cbn [set_krnl_run_queue is_null krnl_tcb krnl_pcb krnl_task
      krnl_tasks krnl_current_task krnl_schedule krnl_run_queue krnl_delay_queue
      krnl_rt_queue krnl_aperiodic_queue krnl_free].
  unfold bind at 1. cbn [ret].
  unfold bind at 1. rewrite hf_queue_create_served by (cbn [krnl_free]; lia).
  unfold bind at 1. cbn [set_krnl_delay_queue is_null krnl_tcb krnl_pcb krnl_task
      krnl_tasks krnl_current_task krnl_schedule krnl_run_queue krnl_delay_queue
      krnl_rt_queue krnl_aperiodic_queue krnl_free].
  unfold bind at 1. cbn [ret].
  unfold bind at 1. rewrite hf_queue_create_served by (cbn [krnl_free]; lia).
  unfold bind at 1. cbn [set_krnl_rt_queue is_null krnl_tcb krnl_pcb krnl_task
      krnl_tasks krnl_current_task krnl_schedule krnl_run_queue krnl_delay_queue
      krnl_rt_queue krnl_aperiodic_queue krnl_free].
  unfold bind at 1. cbn [ret].
  unfold bind at 1. rewrite hf_queue_create_served by (cbn [krnl_free]; lia).
  unfold bind at 1. cbn [set_krnl_aperiodic_queue is_null krnl_tcb krnl_pcb krnl_task
      krnl_tasks krnl_current_task krnl_schedule krnl_run_queue krnl_delay_queue
      krnl_rt_queue krnl_aperiodic_queue krnl_free ret].
  do 2 f_equal. lia.
Qed.

(** As soon as one creation is refused, [init_queues] panics. *)
Lemma init_queues_refused (k : kernel) :
  (exists j, 0 <= j < 4 /\ ~ creation_served MAX_TASKS queue_bytes k j) ->
  init_queues MAX_TASKS queue_bytes k = Panicked PANIC_OOM.
Proof.
  intros (j & Hj & Hnot). unfold creation_served in Hnot.
  unfold init_queues.
  unfold bind at 1.
  destruct (Z.le_gt_cases (queue_bytes MAX_TASKS) (krnl_free k)) as [H0 | H0].
  2:{ rewrite hf_queue_create_refused by lia. reflexivity. }
  rewrite hf_queue_create_served by lia.
  unfold bind at 1. cbn [set_krnl_run_queue is_null krnl_tcb krnl_pcb krnl_task
      krnl_tasks krnl_current_task krnl_schedule krnl_run_queue krnl_delay_queue
      krnl_rt_queue krnl_aperiodic_queue krnl_free].
  unfold bind at 1. cbn [ret]. unfold bind at 1.
  destruct (Z.le_gt_cases (queue_bytes MAX_TASKS)
              (krnl_free k - queue_bytes MAX_TASKS)) as [H1 | H1].
  2:{ rewrite hf_queue_create_refused by (cbn [krnl_free]; lia). reflexivity. }
  rewrite hf_queue_create_served by (cbn [krnl_free]; lia).
  unfold bind at 1. cbn [set_krnl_delay_queue is_null krnl_tcb krnl_pcb krnl_task
      krnl_tasks krnl_current_task krnl_schedule krnl_run_queue krnl_delay_queue
      krnl_rt_queue krnl_aperiodic_queue krnl_free].
  unfold bind at 1. cbn [ret]. unfold bind at 1.
  destruct (Z.le_gt_cases (queue_bytes MAX_TASKS)
              (krnl_free k - queue_bytes MAX_TASKS - queue_bytes MAX_TASKS)) as [H2 | H2].
  2:{ rewrite hf_queue_create_refused by (cbn [krnl_free]; lia). reflexivity. }
  rewrite hf_queue_create_served by (cbn [krnl_free]; lia).
  unfold bind at 1. cbn [set_krnl_rt_queue is_null krnl_tcb krnl_pcb krnl_task
      krnl_tasks krnl_current_task krnl_schedule krnl_run_queue krnl_delay_queue
      krnl_rt_queue krnl_aperiodic_queue krnl_free].
  unfold bind at 1. cbn [ret]. unfold bind at 1.
  rewrite hf_queue_create_refused; [reflexivity |].
  cbn [krnl_free]. assert (j = 0 \/ j = 1 \/ j = 2 \/ j = 3) as [-> | [-> | [-> | ->]]] by lia; lia.
Qed.

(** C5.  [init_queues] creates the run, delay, real-time and aperiodic
    queues, each empty and of capacity [MAX_TASKS], when the heap serves
    all four creations; when any of the four is refused it panics with
    [PANIC_OOM]. *)
Theorem init_queues_four_or_panic (k : kernel) :
  ((forall j, 0 <= j < 4 -> creation_served MAX_TASKS queue_bytes k j) ->
   exists k',
     init_queues MAX_TASKS queue_bytes k = Ok tt k'
     /\ krnl_run_queue k' = Some {| q_size := MAX_TASKS; q_items := [] |}
     /\ krnl_delay_queue k' = Some {| q_size := MAX_TASKS; q_items := [] |}
     /\ krnl_rt_queue k' = Some {| q_size := MAX_TASKS; q_items := [] |}
     /\ krnl_aperiodic_queue k' = Some {| q_size := MAX_TASKS; q_items := [] |}
     /\ krnl_tcb k' = krnl_tcb k /\ krnl_pcb k' = krnl_pcb k)
  /\ ((exists j, 0 <= j < 4 /\ ~ creation_served MAX_TASKS queue_bytes k j) ->
      init_queues MAX_TASKS queue_bytes k = Panicked PANIC_OOM).
Proof.
  split.
  - intros Hall. rewrite init_queues_closed by exact Hall.
    eexists. split; [reflexivity |]. cbn. repeat split; reflexivity.
  - apply init_queues_refused.
Qed.

(** *** The boot sequence and the polling server's TCB *)

(** [hf_spawn] of a best-effort task: the lowest free slot is filled and
    joins the run queue. *)
Lemma hf_spawn_best_effort (k : kernel) (entry : task_fn) (capacity deadline : Z)
    (name : string) (stack_size : Z) (i : nat) (t : tcb_entry) (q : queue) :
  lowest_free (krnl_tcb k) 0 = Some i ->
  krnl_tcb k !! i = Some t ->
  krnl_run_queue k = Some q ->
  hf_queue_count q < q_size q ->
  hf_spawn entry 0 capacity deadline name stack_size k
    = Ok (Z.of_nat i)
        {| krnl_tcb := <[i := spawned t i entry 0 capacity deadline name stack_size]>
                         (krnl_tcb k);
           krnl_pcb := krnl_pcb k; krnl_task := krnl_task k;
           krnl_tasks := krnl_tasks k; krnl_current_task := krnl_current_task k;
           krnl_schedule := krnl_schedule k;
           krnl_run_queue := Some {| q_size := q_size q; q_items := q_items q ++ [i] |};
           krnl_delay_queue := krnl_delay_queue k; krnl_rt_queue := krnl_rt_queue k;
           krnl_aperiodic_queue := krnl_aperiodic_queue k; krnl_free := krnl_free k |}.
Proof.
  intros Hlow Ht Hq Hroom.
  unfold hf_spawn, bind, get. change (0 <? 0) with false. cbn [andb].
  rewrite Hlow. unfold read_tcb. rewrite Ht. rewrite Hq. cbn [deref ret].
  unfold hf_queue_addtail. rewrite (proj2 (Z.ltb_lt _ _) Hroom).
  change (0 <? 0) with false. cbv iota.
  unfold write_tcb. rewrite decide_True by (eapply lookup_lt_Some, Ht).
  reflexivity.
Qed.

(** [hf_spawn] of a real-time task with valid parameters: the lowest free
    slot is filled and the RMA priorities are assigned anew. *)
Lemma hf_spawn_real_time (k : kernel) (entry : task_fn) (period capacity deadline : Z)
    (name : string) (stack_size : Z) (i : nat) (t : tcb_entry) :
  0 < period -> capacity <= deadline <= period ->
  lowest_free (krnl_tcb k) 0 = Some i ->
  krnl_tcb k !! i = Some t ->
  hf_spawn entry period capacity deadline name stack_size k
    = Ok (Z.of_nat i)
        (with_table k
           (rma_assign
              (<[i := spawned t i entry period capacity deadline name stack_size]>
                 (krnl_tcb k)))
           (krnl_task k)).
Proof.
  intros Hrt Hvalid Hlow Ht.
  unfold hf_spawn, bind, get.
  rewrite (proj2 (Z.ltb_lt _ _) Hrt).
  rewrite (proj2 (Z.leb_le _ _) (proj1 Hvalid)), (proj2 (Z.leb_le _ _) (proj2 Hvalid)).
  cbn [andb negb].
  rewrite Hlow. unfold read_tcb. rewrite Ht.
  unfold write_tcb. rewrite decide_True by (eapply lookup_lt_Some, Ht).
  reflexivity.
Qed.

(** The RMA assignment changes priorities only. *)
Lemma rma_assign_lookup (tcb : list tcb_entry) (i : nat) (t : tcb_entry) :
  tcb !! i = Some t ->
  exists p, rma_assign tcb !! i = Some (if is_rt t then with_priority t p else t).
Proof.
  intros Ht. eexists. unfold rma_assign.
  rewrite list_lookup_imap, Ht. reflexivity.
Qed.

Lemma lowest_free_imap (f : nat -> tcb_entry -> tcb_entry) (tcb : list tcb_entry)
    (j : nat) :
  (forall i t, id (f i t) = id t) ->
  lowest_free (imap f tcb) j = lowest_free tcb j.
Proof.
  revert f j. induction tcb as [| t tcb IH]; intros f j Hid; [reflexivity |].
  cbn [imap lowest_free]. rewrite Hid.
  destruct (id t =? -1); [reflexivity |].
  apply IH. intros i t'. apply Hid.
Qed.

Lemma lowest_free_rma_assign (tcb : list tcb_entry) :
  lowest_free (rma_assign tcb) 0 = lowest_free tcb 0.
Proof.
  unfold rma_assign. apply lowest_free_imap.
  intros i t. destruct (is_rt t); reflexivity.
Qed.



End Bringup.

(** *** The theorems above at sample states *)

Section Samples.
Import Sample.

Lemma cold_heap_serves (j : Z) :
  0 <= j < 4 -> creation_served 4 ring_bytes cold j.
Proof. unfold creation_served, ring_bytes. cbn. lia. Qed.

Lemma clear_tcb_frees_every_slot_witness :
  exists k',
    clear_tcb 4 cold = Ok tt k'
    /\ length (krnl_tcb k') = Z.to_nat 4
    /\ (forall i, 0 <= i < 4 ->
          exists t, krnl_tcb k' !! Z.to_nat i = Some t /\ slot_free t)
    /\ krnl_tasks k' = 0 /\ krnl_current_task k' = 0 /\ krnl_schedule k' = 0.
Proof.
  apply (clear_tcb_frees_every_slot 4 cold); [lia | reflexivity].
Defined.

Lemma init_queues_four_or_panic_witness :
  (exists k',
     init_queues 4 ring_bytes cold = Ok tt k'
     /\ krnl_run_queue k' = Some {| q_size := 4; q_items := [] |}
     /\ krnl_delay_queue k' = Some {| q_size := 4; q_items := [] |}
     /\ krnl_rt_queue k' = Some {| q_size := 4; q_items := [] |}
     /\ krnl_aperiodic_queue k' = Some {| q_size := 4; q_items := [] |}
     /\ krnl_tcb k' = krnl_tcb cold /\ krnl_pcb k' = krnl_pcb cold)
  /\ init_queues 4 (fun _ => 300) cold = Panicked PANIC_OOM.
Proof.
  split.
  - apply (proj1 (init_queues_four_or_panic 4 ring_bytes cold)), cold_heap_serves.
  - apply (proj2 (init_queues_four_or_panic 4 (fun _ => 300) cold)).
    exists 3. unfold creation_served. cbn. lia.
Defined.


End Samples.

(** *** The polling server *)

Section Server.

Lemma write_tcb_ok (k : kernel) (i : nat) (t : tcb_entry) :
  (i < length (krnl_tcb k))%nat ->
  write_tcb i t k = Ok tt (with_table k (<[i := t]> (krnl_tcb k)) (krnl_task k)).
Proof. intros Hi. unfold write_tcb. rewrite decide_True by exact Hi. reflexivity. Qed.

Lemma set_state_ok (k : kernel) (i : nat) (v : task_state) (t : tcb_entry) :
  krnl_tcb k !! i = Some t ->
  set_state i v k
    = Ok tt (with_table k (<[i := with_state t v]> (krnl_tcb k)) (krnl_task k)).
Proof.
  intros Ht. unfold set_state, bind, read_tcb. rewrite Ht.
  apply write_tcb_ok. eapply lookup_lt_Some, Ht.
Qed.

Lemma set_capacity_ok (k : kernel) (i : nat) (v : Z) (t : tcb_entry) :
  krnl_tcb k !! i = Some t ->
  set_capacity i v k
    = Ok tt (with_table k (<[i := with_capacity t v]> (krnl_tcb k)) (krnl_task k)).
Proof.
  intros Ht. unfold set_capacity, bind, read_tcb. rewrite Ht.
  apply write_tcb_ok. eapply lookup_lt_Some, Ht.
Qed.

(** Changing the state of an entry changes no capacity and no id. *)
Lemma with_state_keeps (tcb : list tcb_entry) (i : nat) (t : tcb_entry) (v : task_state) :
  tcb !! i = Some t ->
  map capacity (<[i := with_state t v]> tcb) = map capacity tcb
  /\ map id (<[i := with_state t v]> tcb) = map id tcb.
Proof.
  intros Ht. split.
  - change (capacity <$> <[i:=with_state t v]> tcb = capacity <$> tcb).
    rewrite list_fmap_insert. apply list_insert_id.
    rewrite list_lookup_fmap, Ht. reflexivity.
  - change (id <$> <[i:=with_state t v]> tcb = id <$> tcb).
    rewrite list_fmap_insert. apply list_insert_id.
    rewrite list_lookup_fmap, Ht. reflexivity.
Qed.

(** The end of a round: the state changes and the jump into the task
    leave the capacities and the aperiodic queue as they are. *)
Lemma dispatch_spec (f : server_frame) (fuel : Z) (h : nat) (k : kernel)
    (e p : tcb_entry) :
  0 <= polling_id f ->
  krnl_tcb k !! Z.to_nat (polling_id f) = Some p ->
  krnl_tcb k !! h = Some e ->
  exists k',
    (let* polling_task := tcb_index (polling_id f) in
     set_state polling_task TASK_READY >>
     set_state h TASK_RUNNING >>
     set_krnl_task (Some h) >>
     let* next := read_tcb h in
     set_krnl_current_task (id next) >>
     ret (Dispatched h, with_fuel f fuel)) k
      = Ok (Dispatched h, with_fuel f fuel) k'
    /\ map capacity (krnl_tcb k') = map capacity (krnl_tcb k)
    /\ krnl_aperiodic_queue k' = krnl_aperiodic_queue k
    /\ krnl_current_task k' = id e.
Proof.
  intros Hpid Hp He.
  unfold bind at 1. unfold tcb_index.
  destruct (Z.ltb_spec (polling_id f) 0) as [? | _]; [lia |]. cbn [ret].
  unfold bind at 1. rewrite (set_state_ok _ _ _ p Hp).
  destruct (with_state_keeps (krnl_tcb k) _ p TASK_READY Hp) as [Hc1 Hi1].
  set (tcb1 := <[Z.to_nat (polling_id f) := with_state p TASK_READY]> (krnl_tcb k)) in *.
  assert (He1 : exists e1, tcb1 !! h = Some e1 /\ id e1 = id e).
  { assert (Hid : (id <$> tcb1) !! h = Some (id e))
      by (change (map id tcb1 !! h = Some (id e));
          rewrite Hi1; change ((id <$> krnl_tcb k) !! h = Some (id e));
          rewrite list_lookup_fmap, He; reflexivity).
    rewrite list_lookup_fmap in Hid.
    destruct (tcb1 !! h) as [e1 |]; [| discriminate Hid].
    exists e1. split; [reflexivity |]. cbn in Hid. congruence. }
  destruct He1 as (e1 & He1 & Hid1).
  unfold bind at 1. rewrite (set_state_ok _ _ _ e1) by exact He1.
  cbn [with_table krnl_tcb krnl_task].
  destruct (with_state_keeps tcb1 h e1 TASK_RUNNING He1) as [Hc2 Hi2].
  set (tcb2 := <[h := with_state e1 TASK_RUNNING]> tcb1) in *.
  unfold bind at 1. cbn [set_krnl_task with_table]. kernel_fields.
  unfold bind at 1. unfold read_tcb at 1. kernel_fields.
  assert (He2 : tcb2 !! h = Some (with_state e1 TASK_RUNNING))
    by (apply list_lookup_insert_eq; eapply lookup_lt_Some, He1).
  rewrite He2.
  unfold bind at 1. cbn [set_krnl_current_task ret]. kernel_fields.
  eexists. split; [reflexivity |]. kernel_fields.
  repeat split.
  - rewrite Hc2. exact Hc1.
  - cbn [with_state id]. exact Hid1.
Qed.

Lemma s16_id (z : Z) : is_s16 z -> s16 z = z.
Proof.
  unfold is_s16, s16, wrap_s. intros Hz.
  change (2 ^ (16 - 1)) with (2 ^ 15). rewrite Z.mod_small; lia.
Qed.

(** The budget test in closed form. *)
Lemma charge_spec (fuel : Z) (h : nat) (k : kernel) (q : queue) (e : tcb_entry) :
  krnl_tcb k !! h = Some e ->
  krnl_aperiodic_queue k = Some q ->
  charge fuel h k
    = if fuel >=? capacity e
      then Ok (s16 (fuel - capacity e)) k
      else Ok 0 {| krnl_tcb := <[h := with_capacity e (capacity e - fuel)]> (krnl_tcb k);
                   krnl_pcb := krnl_pcb k; krnl_task := krnl_task k;
                   krnl_tasks := krnl_tasks k;
                   krnl_current_task := krnl_current_task k;
                   krnl_schedule := krnl_schedule k;
                   krnl_run_queue := krnl_run_queue k;
                   krnl_delay_queue := krnl_delay_queue k;
                   krnl_rt_queue := krnl_rt_queue k;
                   krnl_aperiodic_queue := Some (snd (hf_queue_addtail q h));
                   krnl_free := krnl_free k |}.
Proof.
  intros He Hq. unfold charge.
  unfold bind at 1. unfold read_tcb at 1. rewrite He.
  destruct (fuel >=? capacity e); [reflexivity |].
  unfold bind at 1. rewrite (set_capacity_ok _ _ _ e He).
  unfold bind at 1, get at 1. unfold bind at 1. kernel_fields. rewrite Hq. cbn [deref ret].
  unfold bind at 1. cbn [set_krnl_aperiodic_queue]. kernel_fields. reflexivity.
Qed.

(** C3.  A round of the polling server that finds the entry [h] at the
    head of the aperiodic queue selects it.  With [fuel] the budget in
    force (after the refill test) and [cap] the capacity of [h]: when
    [fuel >= cap] the budget becomes [fuel - cap], [h] is out of the queue
    and keeps its capacity; otherwise the capacity of [h] becomes
    [cap - fuel], the budget becomes 0 and [h] is the new tail of the
    queue.  (The queue holds no more than its capacity, capacities are not
    negative and the budget is a non-negative [int16_t].) *)
Theorem polling_server_charges_entry (f : server_frame) (k : kernel) (q : queue)
    (h : nat) (rest : list nat) (e p : tcb_entry) :
  krnl_aperiodic_queue k = Some q ->
  q_items q = h :: rest ->
  hf_queue_count q <= q_size q ->
  krnl_tcb k !! h = Some e ->
  0 <= polling_id f ->
  krnl_tcb k !! Z.to_nat (polling_id f) = Some p ->
  0 <= capacity e ->
  0 <= refill f < 2 ^ 15 ->
  exists k' f',
    polling_server_round f k = Ok (Dispatched h, f') k'
    /\ if refill f >=? capacity e then
         server_fuel f' = refill f - capacity e
         /\ krnl_aperiodic_queue k' = Some {| q_size := q_size q; q_items := rest |}
         /\ map capacity (krnl_tcb k') !! h = Some (capacity e)
       else
         map capacity (krnl_tcb k') !! h = Some (capacity e - refill f)
         /\ server_fuel f' = 0
         /\ krnl_aperiodic_queue k' = Some {| q_size := q_size q; q_items := rest ++ [h] |}.
Proof.
  intros Hq Hitems Hcount He Hpid Hp Hcap Hfuel.
  unfold polling_server_round.
  unfold bind at 1, get at 1. unfold bind at 1. rewrite Hq. cbn [deref ret].
  unfold hf_queue_count in *. rewrite Hitems in *. cbn [length] in *.
  destruct (Z.eqb_spec (Z.of_nat (S (length rest))) 0) as [? | _]; [lia |].
  unfold bind at 1. unfold polling_server_scheduler at 1.
  unfold bind at 1, get at 1. unfold bind at 1. rewrite Hq. cbn [deref ret].
  unfold hf_queue_remhead. rewrite Hitems.
  unfold bind at 1. cbn [set_krnl_aperiodic_queue ret]. kernel_fields.
  unfold bind at 1. cbn [deref ret].
  set (q1 := {| q_size := q_size q; q_items := rest |}).
  set (k1 := {| krnl_tcb := krnl_tcb k; krnl_pcb := krnl_pcb k; krnl_task := krnl_task k;
                krnl_tasks := krnl_tasks k; krnl_current_task := krnl_current_task k;
                krnl_schedule := krnl_schedule k; krnl_run_queue := krnl_run_queue k;
                krnl_delay_queue := krnl_delay_queue k; krnl_rt_queue := krnl_rt_queue k;
                krnl_aperiodic_queue := Some q1; krnl_free := krnl_free k |}).
  unfold bind at 1.
  rewrite (charge_spec (refill f) h k1 q1 e He eq_refl).
  destruct (Z.geb_spec (refill f) (capacity e)) as [Hge | Hlt].
  - destruct (dispatch_spec f (s16 (refill f - capacity e)) h k1 e p Hpid Hp He)
      as (k' & Hrun & Hcaps & Hqueue & _).
    rewrite Hrun. eexists _, _. split; [reflexivity |].
    cbn [with_fuel server_fuel]. repeat split.
    + apply s16_id. unfold is_s16. lia.
    + exact Hqueue.
    + rewrite Hcaps. change ((capacity <$> krnl_tcb k) !! h = Some (capacity e)).
      rewrite list_lookup_fmap, He. reflexivity.
  - assert (Hh : (h < length (krnl_tcb k))%nat) by (eapply lookup_lt_Some, He).
    set (tcb1 := <[h := with_capacity e (capacity e - refill f)]> (krnl_tcb k)).
    assert (He1 : tcb1 !! h = Some (with_capacity e (capacity e - refill f)))
      by (apply list_lookup_insert_eq; exact Hh).
    assert (Hp1 : exists p1, tcb1 !! Z.to_nat (polling_id f) = Some p1).
    { apply lookup_lt_is_Some_2. unfold tcb1. rewrite length_insert.
      eapply lookup_lt_Some, Hp. }
    destruct Hp1 as [p1 Hp1].
    match goal with
    | |- context [bind ?c ?g ?k2] =>
        destruct (dispatch_spec f 0 h k2 _ p1 Hpid Hp1 He1)
          as (k' & Hrun & Hcaps & Hqueue & _)
    end.
    rewrite Hrun. eexists _, _. split; [reflexivity |].
    cbn [with_fuel server_fuel]. repeat split.
    + rewrite Hcaps. kernel_fields.
      change ((capacity <$> tcb1) !! h = Some (capacity e - refill f)).
      rewrite list_lookup_fmap, He1. reflexivity.
    + rewrite Hqueue. kernel_fields. unfold hf_queue_addtail, hf_queue_count.
      cbn [q1 q_items q_size].
      destruct (Z.ltb_spec (Z.of_nat (length rest)) (q_size q)) as [_ | Hfull]; [| lia].
      reflexivity.
Qed.

(** C1 (as amended).  At the top of a round the polling server sets
    [server_fuel] to its capacity only when [server_fuel] is 0; any other
    value is kept.  A round that finds the aperiodic queue empty yields
    with exactly that budget and changes nothing else, so a remainder that
    is not zero is carried into the following rounds. *)
Theorem polling_server_refill_rule (f : server_frame) (k : kernel) (q : queue) :
  krnl_aperiodic_queue k = Some q ->
  q_items q = [] ->
  (server_fuel f = 0 -> refill f = SERVER_CAPACITY f)
  /\ (server_fuel f <> 0 -> refill f = server_fuel f)
  /\ polling_server_round f k = Ok (Yielded, with_fuel f (refill f)) k.
Proof.
  intros Hq Hitems. unfold refill at 1 2.
  destruct (Z.eqb_spec (server_fuel f) 0) as [Hz | Hnz].
  all: split; [intros; (reflexivity || contradiction) |].
  all: split; [intros; (reflexivity || contradiction) |].
  all: unfold polling_server_round.
  all: unfold bind at 1, get at 1; unfold bind at 1; rewrite Hq; cbn [deref ret].
  all: unfold hf_queue_count; rewrite Hitems; reflexivity.
Qed.

(** *** The budget stays between 0 and the capacity *)

Lemma bind_inv {A B} (c : K A) (g : A -> K B) (k k' : kernel) (b : B) :
  bind c g k = Ok b k' -> exists a k1, c k = Ok a k1 /\ g a k1 = Ok b k'.
Proof.
  unfold bind. destruct (c k) as [a k1 | |]; [| discriminate | discriminate].
  intros H. exists a, k1. split; [reflexivity | exact H].
Qed.

Lemma write_tcb_capacities (i : nat) (t : tcb_entry) (k k' : kernel) :
  write_tcb i t k = Ok tt k' ->
  Forall (fun t => 0 <= capacity t) (krnl_tcb k) ->
  0 <= capacity t ->
  Forall (fun t => 0 <= capacity t) (krnl_tcb k').
Proof.
  unfold write_tcb. destruct (decide (i < length (krnl_tcb k))%nat); [| discriminate].
  intros [= <-] Hall Ht. cbn. apply Forall_insert; assumption.
Qed.

Lemma round_fuel (f f' : server_frame) (k k' : kernel) (h : handover) :
  polling_server_round f k = Ok (h, f') k' ->
  exists fuel,
    f' = with_fuel f fuel
    /\ (fuel = refill f
        \/ fuel = 0
        \/ exists e, e ∈ krnl_tcb k /\ refill f >= capacity e
                     /\ fuel = s16 (refill f - capacity e)).
Proof.
  unfold polling_server_round. intros H.
  apply bind_inv in H as (k0 & k1 & Hget & H). injection Hget as <- <-.
  apply bind_inv in H as (q & k1 & Hq & H).
  destruct (krnl_aperiodic_queue k) as [q0 |]; [| discriminate Hq].
  injection Hq as <- <-.
  destruct (hf_queue_count q0 =? 0).
  { injection H as <- <- <-. eexists. split; [reflexivity | left; reflexivity]. }
  apply bind_inv in H as (next & k1 & Hnext & H).
  assert (Htcb1 : krnl_tcb k1 = krnl_tcb k).
  { unfold polling_server_scheduler in Hnext.
    apply bind_inv in Hnext as (k0 & k2 & Hget & Hnext). injection Hget as <- <-.
    apply bind_inv in Hnext as (q1 & k2 & Hq1 & Hnext).
    destruct (krnl_aperiodic_queue k) as [q2 |]; [| discriminate Hq1].
    injection Hq1 as <- <-.
    destruct (hf_queue_remhead q2) as [e0 q3].
    apply bind_inv in Hnext as ([] & k2 & Hset & Hnext).
    injection Hset as <-. injection Hnext as <- <-. reflexivity. }
  apply bind_inv in H as (na & k2 & Hna & H).
  destruct next as [n |]; [| discriminate Hna]. injection Hna as <- <-.
  apply bind_inv in H as (fuel & k2 & Hcharge & H).
  assert (Hf' : f' = with_fuel f fuel).
  { apply bind_inv in H as (pt & k3 & _ & H).
    apply bind_inv in H as ([] & k4 & _ & H).
    apply bind_inv in H as ([] & k5 & _ & H).
    apply bind_inv in H as ([] & k6 & _ & H).
    apply bind_inv in H as (nx & k7 & _ & H).
    apply bind_inv in H as ([] & k8 & _ & H).
    injection H as <- <- <-. reflexivity. }
  exists fuel. split; [exact Hf' |].
  unfold charge in Hcharge.
  apply bind_inv in Hcharge as (e & k3 & Hread & Hcharge).
  unfold read_tcb in Hread.
  destruct (krnl_tcb k1 !! n) as [e0 |] eqn:He; [| discriminate Hread].
  injection Hread as -> <-.
  destruct (Z.geb_spec (refill f) (capacity e)) as [Hge | Hlt].
  - injection Hcharge as <- <-. right. right. exists e.
    split; [| split; [lia | reflexivity]].
    rewrite <- Htcb1. eapply list_elem_of_lookup_2, He.
  - right. left.
    apply bind_inv in Hcharge as ([] & k4 & _ & Hcharge).
    apply bind_inv in Hcharge as (k5 & k6 & _ & Hcharge).
    apply bind_inv in Hcharge as (q5 & k7 & _ & Hcharge).
    apply bind_inv in Hcharge as ([] & k8 & _ & Hcharge).
    injection Hcharge as <- <-. reflexivity.
Qed.

(** With a capacity [C] that is a non-negative [int16_t] and entries of
    non-negative capacity, a budget in [0, C] stays in [0, C]. *)
Lemma round_fuel_bounds (f f' : server_frame) (k k' : kernel) (h : handover) :
  polling_server_round f k = Ok (h, f') k' ->
  0 <= SERVER_CAPACITY f < 2 ^ 15 ->
  0 <= server_fuel f <= SERVER_CAPACITY f ->
  Forall (fun t => 0 <= capacity t) (krnl_tcb k) ->
  SERVER_CAPACITY f' = SERVER_CAPACITY f
  /\ polling_id f' = polling_id f
  /\ 0 <= refill f <= SERVER_CAPACITY f
  /\ 0 <= server_fuel f' <= SERVER_CAPACITY f.
Proof.
  intros Hrun HC Hfuel Hcaps.
  assert (Hre : 0 <= refill f <= SERVER_CAPACITY f)
    by (unfold refill; destruct (Z.eqb_spec (server_fuel f) 0); lia).
  destruct (round_fuel f f' k k' h Hrun) as (fuel & -> & Hcases).
  cbn [with_fuel SERVER_CAPACITY polling_id server_fuel].
  repeat split; try lia.
  all: destruct Hcases as [-> | [-> | (e & Hin & Hge & ->)]]; try lia.
  all: rewrite Forall_forall in Hcaps; specialize (Hcaps e Hin); cbn beta in Hcaps.
  all: rewrite s16_id by (unfold is_s16; lia); lia.
Qed.

End Server.

(** *** The server theorems at sample states *)

Section ServerSamples.
Import Sample.

Lemma polling_server_refill_rule_witness :
  let f := with_fuel fresh_frame 4 in
  (server_fuel f = 0 -> refill f = SERVER_CAPACITY f)
  /\ (server_fuel f <> 0 -> refill f = server_fuel f)
  /\ polling_server_round f (serving 2 []) = Ok (Yielded, with_fuel f (refill f)) (serving 2 []).
Proof.
  apply (polling_server_refill_rule (with_fuel fresh_frame 4) (serving 2 [])
           {| q_size := 4; q_items := [] |}); reflexivity.
Defined.

(** C1 as first stated fails.  The server (capacity 6) serves one task of
    capacity 2 and is left with a budget of 4; the queue stays empty and
    the server yields round after round.  [server_fuel] is assigned nowhere
    but in these rounds, so whichever of them opens a new period, the budget
    there is the 4 left over and not the capacity 6. *)
Lemma polling_server_keeps_leftover_budget :
  match polling_server_task 5 (fun _ => ret tt) (serving 2 [1%nat]) with
  | Ok (hs, f) _ =>
      hs = [Dispatched 1; Yielded; Yielded; Yielded; Yielded]
      /\ SERVER_CAPACITY f = 6
      /\ server_fuel f = 4
      /\ refill f <> SERVER_CAPACITY f
  | _ => False
  end.
Proof. vm_compute. repeat split. discriminate. Qed.

Lemma polling_server_charges_entry_witness :
  (exists k' f',
     polling_server_round fresh_frame (serving 2 [1%nat]) = Ok (Dispatched 1, f') k'
     /\ server_fuel f' = 4
     /\ krnl_aperiodic_queue k' = Some {| q_size := 4; q_items := [] |}
     /\ map capacity (krnl_tcb k') !! 1%nat = Some 2)
  /\ (exists k' f',
        polling_server_round fresh_frame (serving 18 [1%nat]) = Ok (Dispatched 1, f') k'
        /\ map capacity (krnl_tcb k') !! 1%nat = Some 12
        /\ server_fuel f' = 0
        /\ krnl_aperiodic_queue k' = Some {| q_size := 4; q_items := [1%nat] |}).
Proof.
  split.
  - apply (polling_server_charges_entry fresh_frame (serving 2 [1%nat])
             {| q_size := 4; q_items := [1%nat] |} 1 []
             (a_task 1 fn_dummy_task 0 2) (a_task 0 fn_polling_server_task 20 6));
      try reflexivity; vm_compute; repeat split; discriminate.
  - apply (polling_server_charges_entry fresh_frame (serving 18 [1%nat])
             {| q_size := 4; q_items := [1%nat] |} 1 []
             (a_task 1 fn_dummy_task 0 18) (a_task 0 fn_polling_server_task 20 6));
      try reflexivity; vm_compute; repeat split; discriminate.
Defined.

End ServerSamples.

End KernelProofs.

Module NocTestProofs.
Import Word NocTest.

Lemma messaging_app (l1 l2 : list call) :
  messaging (l1 ++ l2) = messaging l1 ++ messaging l2.
Proof. apply List.filter_app. Qed.

(** Every round of the sender makes one call to the messaging layer, the
    same each time. *)
Lemma sender_loop_messaging (e : node) (rounds round : nat) (msg : Z) :
  messaging (sender_loop e rounds round msg)
    = repeat (Call_hf_sendack 3 5000 1500 0 500) rounds.
Proof.
  revert round msg.
  induction rounds as [| rounds IH]; intros round msg; [reflexivity |].
  cbn [sender_loop repeat].
  rewrite !messaging_app, IH.
  destruct (u16 (sendack_status e round) =? 0); reflexivity.
Qed.

Lemma receiver_loop_messaging (e : node) (rounds round : nat) :
  messaging (receiver_loop e rounds round) = repeat (Call_hf_recvack 0) rounds.
Proof.
  revert round.
  induction rounds as [| rounds IH]; intros round; [reflexivity |].
  cbn [receiver_loop repeat].
  rewrite !messaging_app, IH.
  destruct (u16 (recvack_status e round) =? 0); reflexivity.
Qed.

(** C4.  [app_main] spawns exactly one task: the sender on the node whose
    cpu id is 2, the receiver on every other node.  The sender, once it
    has its own port, does nothing on the messaging layer but call
    [hf_sendack] round after round with target cpu 3, port 5000, a buffer
    of 1500 bytes, channel 0 and a timeout of 500 ms.  The receiver
    creates port 5000 for itself and then does nothing on the messaging
    layer but call [hf_recvack] on channel 0 round after round. *)
Theorem noc_test_roles (e : node) (rounds : nat) :
  app_main e
    = (if hf_cpuid e =? 2
       then [Call_hf_spawn fn_sender 0 0 0 "sender" 4096]
       else [Call_hf_spawn fn_receiver 0 0 0 "receiver" 4096])
  /\ messaging (sender e rounds)
     = Call_hf_comm_create (hf_selfid e) 1000 0
       :: (if comm_create_status e =? 0
           then repeat (Call_hf_sendack 3 5000 1500 0 500) rounds
           else [])
  /\ messaging (receiver e rounds)
     = Call_hf_comm_create (hf_selfid e) 5000 0
       :: (if comm_create_status e =? 0
           then repeat (Call_hf_recvack 0) rounds
           else []).
Proof.
  split; [reflexivity |]. split.
  - unfold sender, messaging. cbn [List.filter is_messaging]. f_equal.
    destruct (comm_create_status e =? 0); [| reflexivity].
    apply sender_loop_messaging.
  - unfold receiver, messaging. cbn [List.filter is_messaging]. f_equal.
    destruct (comm_create_status e =? 0); [| reflexivity].
    apply receiver_loop_messaging.
Qed.

End NocTestProofs.

Module LibcArithProofs.
Import Word Libc LibcArith LibcProofs.

(** *** Wrap-around as arithmetic modulo [2^32] *)

Lemma u32_range (z : Z) : is_u32 (u32 z).
Proof. unfold is_u32, u32, wrap_u. apply Z.mod_pos_bound. lia. Qed.

Lemma u32_id (z : Z) : is_u32 z -> u32 z = z.
Proof. unfold is_u32, u32, wrap_u. intros. apply Z.mod_small. lia. Qed.

Lemma u32_congr (x y k : Z) : x = y + k * 2 ^ 32 -> u32 x = u32 y.
Proof. intros ->. unfold u32, wrap_u. apply Z_mod_plus_full. Qed.

Lemma u32_decompose (z : Z) : exists k, u32 z = z + k * 2 ^ 32.
Proof.
  exists (- (z / 2 ^ 32)). unfold u32, wrap_u.
  pose proof (Z.div_mod z (2 ^ 32) ltac:(lia)). lia.
Qed.

Lemma s32_mod (z : Z) : s32 z mod 2 ^ 32 = z mod 2 ^ 32.
Proof.
  unfold s32, wrap_s. change (2 ^ (32 - 1)) with (2 ^ 31).
  rewrite Zminus_mod, Zmod_mod, <- Zminus_mod. f_equal. lia.
Qed.

Lemma s32_congr (x y : Z) : x mod 2 ^ 32 = y mod 2 ^ 32 -> s32 x = s32 y.
Proof.
  intros H. unfold s32, wrap_s. change (2 ^ (32 - 1)) with (2 ^ 31).
  f_equal. rewrite (Zplus_mod x), (Zplus_mod y), H. reflexivity.
Qed.

Lemma s32_neg (z : Z) : s32 (- s32 z) = s32 (- z).
Proof.
  apply s32_congr.
  assert (Hk : exists k, s32 z = z + k * 2 ^ 32).
  { exists ((s32 z - z) / 2 ^ 32).
    pose proof (s32_mod z) as Hm.
    pose proof (Z.div_mod (s32 z - z) (2 ^ 32) ltac:(lia)) as Hd.
    assert (Hz : (s32 z - z) mod 2 ^ 32 = 0)
      by (rewrite Zminus_mod, Hm, Z.sub_diag; reflexivity).
    lia. }
  destruct Hk as [k ->].
  replace (- (z + k * 2 ^ 32)) with (- z + (- k) * 2 ^ 32) by ring.
  apply Z_mod_plus_full.
Qed.

Lemma s32_u32 (z : Z) : s32 (u32 z) = s32 z.
Proof. apply s32_congr. unfold u32, wrap_u. apply Zmod_mod. Qed.

Lemma u32_s32 (z : Z) : u32 (s32 z) = u32 z.
Proof. unfold u32, wrap_u. apply s32_mod. Qed.

(** Negating in [int32_t] and reading the result as [uint32_t] gives the
    magnitude, also at [INT32_MIN]. *)
Lemma u32_magnitude (a : Z) :
  is_s32 a -> u32 (if a <? 0 then s32 (- a) else a) = Z.abs a.
Proof.
  unfold is_s32. intros Ha.
  destruct (Z.ltb_spec a 0).
  - rewrite u32_s32. rewrite u32_id by (unfold is_u32; lia). lia.
  - rewrite u32_id by (unfold is_u32; lia). lia.
Qed.

(** *** [__mulsi3] *)

Lemma mulsi3_loop_step (fuel : nat) (a b answer : Z) :
  mulsi3_loop (S fuel) a b answer
    = if b =? 0 then Some answer
      else mulsi3_loop fuel (u32 (Z.shiftl a 1)) (Z.shiftr b 1)
             (if Z.land b 1 =? 0 then answer else u32 (answer + a)).
Proof. reflexivity. Qed.

Lemma mulsi3_loop_spec (fuel : nat) (a b answer : Z) :
  0 <= b < 2 ^ Z.of_nat fuel -> is_u32 answer ->
  mulsi3_loop (S fuel) a b answer = Some (u32 (answer + a * b)).
Proof.
  revert a b answer.
  induction fuel as [| fuel IH]; intros a b answer Hb Hans.
  - change (2 ^ Z.of_nat 0) with 1 in Hb. assert (b = 0) as -> by lia.
    cbn. rewrite Z.mul_0_r, Z.add_0_r, u32_id by exact Hans. reflexivity.
  - rewrite mulsi3_loop_step.
    destruct (Z.eqb_spec b 0) as [-> | Hnz].
    { rewrite Z.mul_0_r, Z.add_0_r, u32_id by exact Hans. reflexivity. }
    assert (Hl : Z.land b 1 = b mod 2)
      by (change 1 with (Z.ones 1); rewrite Z.land_ones by lia; reflexivity).
    rewrite Hl.
    rewrite Z.shiftr_div_pow2, Z.shiftl_mul_pow2 by lia. change (2 ^ 1) with 2.
    pose proof (Z.div_mod b 2 ltac:(lia)) as Hdm.
    pose proof (Z.mod_pos_bound b 2 ltac:(lia)) as Hm.
    rewrite pow2_nat_succ in Hb.
    rewrite IH; [| lia | destruct (b mod 2 =? 0); [exact Hans | apply u32_range]].
    f_equal.
    destruct (u32_decompose (a * 2)) as [k1 ->].
    destruct (Z.eqb_spec (b mod 2) 0) as [Hz | Hz].
    + apply (u32_congr _ _ (k1 * (b / 2))).
      replace (a * b) with (a * (2 * (b / 2))) by (f_equal; lia). ring.
    + destruct (u32_decompose (answer + a)) as [k2 ->].
      apply (u32_congr _ _ (k2 + k1 * (b / 2))).
      replace (a * b) with (a * (2 * (b / 2) + 1)) by (f_equal; lia). ring.
Qed.

Lemma mulsi3_spec (a b : Z) :
  is_u32 a -> is_u32 b -> __mulsi3 a b = Some (s32 (a * b)).
Proof.
  intros Ha Hb. unfold __mulsi3, word_fuel.
  rewrite mulsi3_loop_spec; [| exact Hb | unfold is_u32; lia].
  cbn [mbind option_bind]. rewrite Z.add_0_l, s32_u32. reflexivity.
Qed.

(** X1.  [__mulsi3(a, b)] is the product of [a] and [b] modulo [2^32], read as
    an [int32_t]. *)
Theorem mulsi3_product (a b : Z) :
  is_u32 a -> is_u32 b -> __mulsi3 a b = Some (s32 (a * b)).
Proof. intros. apply mulsi3_spec; assumption. Qed.

Lemma mulsi3_product_witness :
  __mulsi3 4294967295 3 = Some (-3) /\ __mulsi3 65536 65536 = Some 0.
Proof.
  split.
  - apply (mulsi3_product 4294967295 3); unfold is_u32; lia.
  - apply (mulsi3_product 65536 65536); unfold is_u32; lia.
Defined.

(** *** Division by zero *)

Lemma udivmod_align_zero (num : Z) (fuel k : nat) :
  0 < num -> (k <= 32)%nat -> (33 <= fuel + k)%nat ->
  udivmod_align fuel num 0 (u32 (2 ^ Z.of_nat k)) = Some (0, 0).
Proof.
  intros Hnum. revert k.
  induction fuel as [| fuel IH]; intros k Hk Hfuel; [lia |].
  cbn [udivmod_align].
  destruct (Z.ltb_spec 0 num) as [_ | ?]; [| lia]. cbn [andb].
  change (Z.land 0 (Z.shiftl 1 31) =? 0) with true. rewrite andb_true_r.
  destruct (Nat.eq_dec k 32%nat) as [-> | Hne].
  - reflexivity.
  - assert (Hlt : 2 ^ Z.of_nat k < 2 ^ 32).
    { apply Z.pow_lt_mono_r; lia. }
    pose proof (pow2_nat_pos k) as Hpos.
    rewrite (u32_id (2 ^ Z.of_nat k)) by (unfold is_u32; lia).
    destruct (Z.eqb_spec (2 ^ Z.of_nat k) 0) as [? | _]; [lia |]. cbn [negb].
    change (u32 (Z.shiftl 0 1)) with 0.
    rewrite Z.shiftl_mul_pow2 by lia. change (2 ^ 1) with 2.
    replace (2 ^ Z.of_nat k * 2) with (2 ^ Z.of_nat (S k)) by (rewrite pow2_nat_succ; lia).
    apply IH; lia.
Qed.

(** X2.  With a zero divisor [__udivmodsi4] neither traps nor loops: the
    remainder is [num], and the quotient is 0, or 1 when [num] is 0 too. *)
Theorem udivmodsi4_zero_divisor (num : Z) :
  is_u32 num ->
  __udivmodsi4 num 0 0 = Some (if num =? 0 then 1 else 0)
  /\ __udivmodsi4 num 0 1 = Some num.
Proof.
  unfold is_u32. intros Hnum. unfold __udivmodsi4.
  destruct (Z.eqb_spec num 0) as [-> | Hnz].
  - split; reflexivity.
  - pose proof (udivmod_align_zero num word_fuel 0 ltac:(lia) ltac:(lia)
                  ltac:(unfold word_fuel; lia)) as Hal.
    change (u32 (2 ^ Z.of_nat 0)) with 1 in Hal. rewrite Hal.
    split; reflexivity.
Qed.

Lemma udivmodsi4_zero_divisor_witness :
  __udivmodsi4 7 0 0 = Some 0 /\ __udivmodsi4 7 0 1 = Some 7.
Proof. apply (udivmodsi4_zero_divisor 7). unfold is_u32. lia. Defined.

(** *** Signed division *)

Lemma udivmodsi4_quotient (num den : Z) :
  is_u32 num -> is_u32 den -> den <> 0 -> __udivmodsi4 num den 0 = Some (num / den).
Proof.
  intros Hn Hd Hz. unfold is_u32 in *.
  destruct (udivmod_align_spec num den word_fuel 0 Hn) as (k & Hal & Hlt & Hnd);
    [lia | change (2 ^ Z.of_nat 0) with 1; lia | unfold word_fuel; lia |].
  change (2 ^ Z.of_nat 0) with 1 in Hal. rewrite Z.mul_1_r in Hal.
  assert (Hk : (k < 32)%nat).
  { destruct (Nat.lt_ge_cases k 32) as [Hk | Hk]; [exact Hk | exfalso].
    pose proof (pow2_nat_le 32 k Hk) as Hp.
    change (2 ^ Z.of_nat 32) with (2 ^ 32) in Hp. nia. }
  destruct (udivmod_subtract_spec den k word_fuel num 0) as (r & q & Hsub & Hsum & Hrem);
    [lia | lia | lia | exact Hlt | unfold word_fuel; lia |].
  rewrite Z.mul_0_l in Hsub. rewrite !Z.mul_0_l, Z.add_0_l in Hsum.
  unfold __udivmodsi4. rewrite Hal, Hsub. cbn [Z.eqb]. f_equal.
  apply Z.div_unique with (r := r); lia.
Qed.

Lemma udivmodsi4_remainder (num den : Z) :
  is_u32 num -> is_u32 den -> den <> 0 -> __udivmodsi4 num den 1 = Some (num mod den).
Proof.
  intros Hn Hd Hz. unfold is_u32 in *.
  destruct (udivmod_align_spec num den word_fuel 0 Hn) as (k & Hal & Hlt & Hnd);
    [lia | change (2 ^ Z.of_nat 0) with 1; lia | unfold word_fuel; lia |].
  change (2 ^ Z.of_nat 0) with 1 in Hal. rewrite Z.mul_1_r in Hal.
  assert (Hk : (k < 32)%nat).
  { destruct (Nat.lt_ge_cases k 32) as [Hk | Hk]; [exact Hk | exfalso].
    pose proof (pow2_nat_le 32 k Hk) as Hp.
    change (2 ^ Z.of_nat 32) with (2 ^ 32) in Hp. nia. }
  destruct (udivmod_subtract_spec den k word_fuel num 0) as (r & q & Hsub & Hsum & Hrem);
    [lia | lia | lia | exact Hlt | unfold word_fuel; lia |].
  rewrite Z.mul_0_l in Hsub. rewrite !Z.mul_0_l, Z.add_0_l in Hsum.
  unfold __udivmodsi4. rewrite Hal, Hsub. cbn [Z.eqb]. f_equal.
  apply Z.mod_unique with (q := q); lia.
Qed.

Lemma abs_range (a : Z) : is_s32 a -> is_u32 (Z.abs a).
Proof. unfold is_s32, is_u32. lia. Qed.

(** X3.  [__divsi3(a, b)] with [b <> 0] is the quotient rounded towards zero,
    wrapped to [int32_t] (the one case that wraps is [INT32_MIN / -1]). *)
Theorem divsi3_truncates (a b : Z) :
  is_s32 a -> is_s32 b -> b <> 0 ->
  __divsi3 a b = Some (s32 (Z.quot a b)).
Proof.
  intros Ha Hb Hnz. unfold __divsi3.
  pose proof (u32_magnitude a Ha) as Hma. pose proof (u32_magnitude b Hb) as Hmb.
  assert (Hq : Z.quot a b = Z.sgn a * Z.sgn b * (Z.abs a / Z.abs b))
    by (apply Z.quot_div; exact Hnz).
  unfold is_s32 in Ha, Hb.
  destruct (Z.ltb_spec a 0) as [Hal | Hal], (Z.ltb_spec b 0) as [Hbl | Hbl];
    rewrite Hma, Hmb;
    rewrite udivmodsi4_quotient by (try apply abs_range; unfold is_s32; lia);
    cbn [mbind option_bind lnot Z.eqb]; f_equal; rewrite Hq.
  - rewrite (Z.sgn_neg a), (Z.sgn_neg b) by lia. f_equal; lia.
  - destruct (Z.eq_dec b 0); [lia |]. rewrite (Z.sgn_neg a), (Z.sgn_pos b) by lia.
    rewrite s32_neg. f_equal; lia.
  - rewrite (Z.sgn_neg b) by lia.
    destruct (Z.eq_dec a 0) as [-> | ?]; [reflexivity |].
    rewrite (Z.sgn_pos a) by lia.
    rewrite s32_neg. f_equal; lia.
  - rewrite (Z.sgn_pos b) by lia.
    destruct (Z.eq_dec a 0) as [-> | ?]; [reflexivity |].
    rewrite (Z.sgn_pos a) by lia. f_equal; lia.
Qed.

Lemma divsi3_truncates_witness :
  __divsi3 (-7) 2 = Some (-3) /\ __divsi3 (-2147483648) (-1) = Some (-2147483648).
Proof.
  split.
  - apply (divsi3_truncates (-7) 2); unfold is_s32; lia.
  - apply (divsi3_truncates (-2147483648) (-1)); unfold is_s32; lia.
Defined.

(** X4.  [__modsi3(a, b)] with [b <> 0] is the remainder of that division: it
    has the sign of [a]. *)
Theorem modsi3_remainder (a b : Z) :
  is_s32 a -> is_s32 b -> b <> 0 ->
  __modsi3 a b = Some (Z.rem a b).
Proof.
  intros Ha Hb Hnz. unfold __modsi3.
  pose proof (u32_magnitude a Ha) as Hma. pose proof (u32_magnitude b Hb) as Hmb.
  assert (Hr : Z.rem a b = Z.sgn a * (Z.abs a mod Z.abs b))
    by (apply Z.rem_mod; exact Hnz).
  pose proof (Z.mod_pos_bound (Z.abs a) (Z.abs b) ltac:(lia)) as Hbound.
  unfold is_s32 in Ha, Hb.
  assert (Hfit : is_s32 (Z.abs a mod Z.abs b)) by (unfold is_s32; lia).
  destruct (Z.ltb_spec a 0) as [Hal | Hal];
    rewrite Hma, Hmb;
    rewrite udivmodsi4_remainder by (try apply abs_range; unfold is_s32; lia);
    cbn [mbind option_bind Z.eqb]; f_equal; rewrite Hr, (s32_id _ Hfit).
  - rewrite (Z.sgn_neg a) by lia. rewrite s32_id by (unfold is_s32; lia). lia.
  - destruct (Z.eq_dec a 0) as [-> | ?]; [reflexivity |].
    rewrite (Z.sgn_pos a) by lia. lia.
Qed.

Lemma modsi3_remainder_witness :
  __modsi3 (-7) 2 = Some (-1) /\ __modsi3 7 (-2) = Some 1.
Proof.
  split.
  - apply (modsi3_remainder (-7) 2); unfold is_s32; lia.
  - apply (modsi3_remainder 7 (-2)); unfold is_s32; lia.
Defined.

(** *** [abs] *)

(** X5.  [abs(n)] is the magnitude of [n], except that [abs(INT32_MIN)] is
    [INT32_MIN]: the one result that is negative. *)
Theorem abs_magnitude (n : Z) :
  is_s32 n ->
  abs n = (if n =? INT32_MIN then INT32_MIN else Z.abs n)
  /\ (0 <= abs n <-> n <> INT32_MIN).
Proof.
  unfold is_s32, INT32_MIN, abs. intros Hn.
  destruct (Z.eqb_spec n (- 2 ^ 31)) as [-> | Hne].
  - split; [reflexivity |]. cbn. split; intros H; [exfalso; apply H; reflexivity | lia].
  - destruct (Z.geb_spec n 0).
    + split; [lia | split; [intros _; exact Hne | lia]].
    + rewrite s32_id by (unfold is_s32; lia).
      split; [lia | split; [intros _; exact Hne | lia]].
Qed.

Lemma abs_magnitude_witness :
  abs (-5) = 5 /\ (0 <= abs (-5) <-> -5 <> INT32_MIN).
Proof. apply (abs_magnitude (-5)). unfold is_s32. lia. Defined.

(** *** [random] *)

Lemma random_result_bounds (rand1 : Z) : 0 <= snd (random rand1) <= 32767.
Proof.
  unfold random. cbn [fst snd].
  set (x := u32 (Z.shiftr (u32 (u32 (rand1 * 1103515245) + 12345)) 16)).
  assert (Hl : Z.land x 32767 = x mod 2 ^ 15)
    by (change 32767 with (Z.ones 15); apply Z.land_ones; lia).
  rewrite Hl.
  pose proof (Z.mod_pos_bound x (2 ^ 15) ltac:(lia)) as Hb.
  rewrite s32_id by (unfold is_s32; lia). lia.
Qed.

(** X6.  Whatever the state of the generator, [random] returns a value in
    [0, 32767] and leaves a state that is a [uint32_t]. *)
Theorem random_range (rand1 : Z) :
  is_u32 (fst (random rand1)) /\ 0 <= snd (random rand1) <= 32767.
Proof. split; [apply u32_range | apply random_result_bounds]. Qed.

End LibcArithProofs.

Module LibcStringProofs.
Import Word Libc LibcString LibcProofs LibcArithProofs.

(** *** Reading a C string *)

Lemma deref_past (s : list Z) (p : nat) : (length s <= p)%nat -> deref s p = 0.
Proof. intros. unfold deref. apply nth_overflow. lia. Qed.

Lemma deref_inside (s : list Z) (p : nat) : deref s p <> 0 -> (p < length s)%nat.
Proof.
  intros Hnz. destruct (Nat.lt_ge_cases p (length s)) as [? | Hge]; [assumption |].
  exfalso. apply Hnz, deref_past, Hge.
Qed.

Lemma deref_lookup (s : list Z) (p : nat) (c : Z) : s !! p = Some c -> deref s p = c.
Proof. intros H. unfold deref. apply nth_lookup_Some with (d := 0) in H. exact H. Qed.

(** The string that starts at offset [p]. *)
Lemma cstr_drop (s : list Z) (p : nat) :
  cstr (drop p s)
    = if deref s p =? 0 then [] else deref s p :: cstr (drop (S p) s).
Proof.
  destruct (s !! p) as [c |] eqn:Hc.
  - rewrite (drop_S s c p Hc), (deref_lookup s p c Hc). reflexivity.
  - apply lookup_ge_None in Hc.
    rewrite drop_ge, deref_past by lia. reflexivity.
Qed.

Lemma cstr_length (s : list Z) : (length (cstr s) <= length s)%nat.
Proof.
  induction s as [| c s IH]; cbn [cstr length]; [lia |].
  destruct (c =? 0); cbn [length]; lia.
Qed.

Lemma cstr_no_nul (s : list Z) : Forall (fun c => c <> 0) (cstr s).
Proof.
  induction s as [| c s IH]; cbn [cstr]; [constructor |].
  destruct (Z.eqb_spec c 0); [constructor |]. constructor; assumption.
Qed.

(** *** [strlen] *)

Lemma strlen_loop_spec (s : list Z) (fuel p : nat) (n : Z) :
  (p <= length s < fuel + p)%nat ->
  0 <= n -> n + Z.of_nat (length s - p) < 2 ^ 31 ->
  strlen_loop fuel s p n = Some (n + Z.of_nat (length (cstr (drop p s)))).
Proof.
  revert p n. induction fuel as [| fuel IH]; intros p n Hp Hn Hfit; [lia |].
  cbn [strlen_loop]. rewrite cstr_drop.
  destruct (Z.eqb_spec (deref s p) 0) as [Hz | Hnz].
  - cbn [length]. f_equal. lia.
  - pose proof (deref_inside s p Hnz) as Hin.
    rewrite s32_id by (unfold is_s32; lia).
    rewrite IH by lia. cbn [length]. f_equal. lia.
Qed.

(** X7.  [strlen] returns the number of bytes before the first NUL. *)
Theorem strlen_counts (s : list Z) :
  Z.of_nat (length s) < 2 ^ 31 ->
  strlen s = Some (Z.of_nat (length (cstr s))).
Proof.
  intros Hfit. unfold strlen.
  rewrite (strlen_loop_spec s (S (length s)) 0 0) by lia.
  rewrite drop_0. reflexivity.
Qed.

Lemma strlen_counts_witness :
  strlen [104; 105; 0; 33] = Some 2.
Proof. apply (strlen_counts [104; 105; 0; 33]). cbn. lia. Defined.

(** *** [strcmp] *)

Lemma strcmp_loop_spec (s1 s2 : list Z) (fuel p1 p2 : nat) :
  (p1 <= length s1 < fuel + p1)%nat ->
  exists r,
    strcmp_loop fuel s1 s2 p1 p2 = Some r
    /\ (r = 0 <-> cstr (drop p1 s1) = cstr (drop p2 s2)).
Proof.
  revert p1 p2. induction fuel as [| fuel IH]; intros p1 p2 Hp; [lia |].
  cbn [strcmp_loop Nat.pred]. rewrite (cstr_drop s1), (cstr_drop s2).
  destruct (Z.eqb_spec (deref s1 p1) (deref s2 p2)) as [Heq | Hne].
  - rewrite <- Heq.
    destruct (Z.eqb_spec (deref s1 p1) 0) as [Hz | Hnz].
    + exists 0. split; [reflexivity |]. split; reflexivity.
    + pose proof (deref_inside s1 p1 Hnz) as Hin.
      destruct (IH (S p1) (S p2) ltac:(lia)) as (r & Hrun & Hr).
      exists r. split; [exact Hrun |]. rewrite Hr.
      split; [intros ->; reflexivity | intros [= H]; exact H].
  - eexists. split; [reflexivity |].
    split; [lia |]. intros H. exfalso.
    destruct (Z.eqb_spec (deref s1 p1) 0), (Z.eqb_spec (deref s2 p2) 0);
      try discriminate H; [lia |].
    injection H as H _. contradiction.
Qed.

(** X8.  [strcmp] always returns, and returns 0 exactly when the two strings
    are the same up to their terminators. *)
Theorem strcmp_zero_iff_equal (s1 s2 : list Z) :
  exists r, strcmp s1 s2 = Some r /\ (r = 0 <-> cstr s1 = cstr s2).
Proof.
  destruct (strcmp_loop_spec s1 s2 (S (length s1)) 0 0 ltac:(lia)) as (r & Hrun & Hr).
  exists r. split; [exact Hrun |]. rewrite !drop_0 in Hr. exact Hr.
Qed.

(** *** [strncmp] with a positive count *)

Lemma strncmp_loop_spec (s1 s2 : list Z) (fuel p1 p2 : nat) (n : Z)
    (reads : list (operand * nat)) :
  (p1 <= length s1 < fuel + p1)%nat ->
  0 <= n < 2 ^ 31 ->
  exists r reads',
    strncmp_loop fuel s1 s2 p1 p2 n reads = Some (r, reads')
    /\ (r = 0 <-> take (Z.to_nat n) (cstr (drop p1 s1))
                  = take (Z.to_nat n) (cstr (drop p2 s2))).
Proof.
  revert p1 p2 n reads.
  induction fuel as [| fuel IH]; intros p1 p2 n reads Hp Hn; [lia |].
  cbn [strncmp_loop]. rewrite s32_id by (unfold is_s32; lia).
  destruct (Z.geb_spec (n - 1) 0) as [Hpos | Hzero].
  2:{ assert (n = 0) as -> by lia. eexists _, _. split; [reflexivity |].
      cbn [strncmp_return Z.ltb Z.compare Z.sub Z.add Z.opp Z.pos_sub].
      cbn. split; reflexivity. }
  replace (Z.to_nat n) with (S (Z.to_nat (n - 1))) by lia.
  rewrite (cstr_drop s1), (cstr_drop s2).
  destruct (Z.eqb_spec (deref s1 p1) (deref s2 p2)) as [Heq | Hne].
  - rewrite <- Heq.
    destruct (Z.eqb_spec (deref s1 p1) 0) as [Hz | Hnz].
    + eexists _, _. split; [reflexivity |]. split; reflexivity.
    + pose proof (deref_inside s1 p1 Hnz) as Hin.
      destruct (IH (S p1) (S p2) (n - 1)
                  ((reads ++ [(Str1, p1); (Str2, p2)]) ++ [(Str1, p1)])
                  ltac:(lia) ltac:(lia)) as (r & reads' & Hrun & Hr).
      exists r, reads'. split; [exact Hrun |]. rewrite Hr. cbn [take].
      split; [intros ->; reflexivity | intros [= H]; exact H].
  - unfold strncmp_return.
    destruct (Z.ltb_spec (n - 1) 0) as [? | _]; [lia |]. cbn [Nat.pred].
    eexists _, _. split; [reflexivity |].
    split; [lia |]. intros H. exfalso.
    destruct (Z.eqb_spec (deref s1 p1) 0), (Z.eqb_spec (deref s2 p2) 0);
      cbn [take] in H; try discriminate H; [lia |].
    injection H as H _. contradiction.
Qed.

(** X9.  For a count [n >= 0], [strncmp] always returns, and returns 0 exactly
    when the two strings agree on their first [n] bytes (or are the same,
    when they are shorter). *)
Theorem strncmp_zero_iff_prefix (s1 s2 : list Z) (n : Z) :
  0 <= n < 2 ^ 31 ->
  exists r reads,
    strncmp s1 s2 n = Some (r, reads)
    /\ (r = 0 <-> take (Z.to_nat n) (cstr s1) = take (Z.to_nat n) (cstr s2)).
Proof.
  intros Hn.
  destruct (strncmp_loop_spec s1 s2 (S (length s1)) 0 0 n [] ltac:(lia) Hn)
    as (r & reads & Hrun & Hr).
  exists r, reads. split; [exact Hrun |]. rewrite !drop_0 in Hr. exact Hr.
Qed.

Lemma strncmp_zero_iff_prefix_witness :
  exists r reads,
    strncmp [97; 98; 99] [97; 98; 100] 2 = Some (r, reads)
    /\ (r = 0 <-> take (Z.to_nat 2) (cstr [97; 98; 99])
                  = take (Z.to_nat 2) (cstr [97; 98; 100])).
Proof. apply (strncmp_zero_iff_prefix [97; 98; 99] [97; 98; 100] 2). lia. Defined.

(** *** [strchr] *)

Lemma strchr_loop_spec (s : list Z) (c : Z) (fuel p : nat) :
  (p <= length s < fuel + p)%nat ->
  exists res,
    strchr_loop fuel s p c = Some res
    /\ match res with
       | Some k =>
           (p <= k)%nat
           /\ (cstr (drop p s) ++ [0]) !! (k - p)%nat = Some (s8 c)
           /\ s8 c ∉ take (k - p) (cstr (drop p s) ++ [0])
       | None => s8 c ∉ cstr (drop p s) ++ [0]
       end.
Proof.
  revert p. induction fuel as [| fuel IH]; intros p Hp; [lia |].
  cbn [strchr_loop]. rewrite cstr_drop.
  destruct (Z.eqb_spec (deref s p) (s8 c)) as [Heq | Hne].
  - exists (Some p). split; [reflexivity |]. rewrite Nat.sub_diag.
    split; [lia |]. split; [| cbn [take]; apply not_elem_of_nil].
    rewrite Heq. destruct (s8 c =? 0) eqn:Hz; [| reflexivity].
    apply Z.eqb_eq in Hz. rewrite Hz. reflexivity.
  - destruct (Z.eqb_spec (deref s p) 0) as [Hz | Hnz].
    + exists None. split; [reflexivity |]. cbn [app].
      rewrite not_elem_of_cons. split; [congruence | apply not_elem_of_nil].
    + pose proof (deref_inside s p Hnz) as Hin.
      destruct (IH (S p) ltac:(lia)) as (res & Hrun & Hres).
      exists res. split; [exact Hrun |].
      destruct res as [k |].
      * destruct Hres as (Hk & Hat & Hbefore).
        replace (k - p)%nat with (S (k - S p)) by lia.
        split; [lia |]. split; [exact Hat |].
        cbn [app take]. rewrite not_elem_of_cons. split; [congruence | exact Hbefore].
      * cbn [app]. rewrite not_elem_of_cons. split; [congruence | exact Hres].
Qed.

(** X10.  [strchr(s, c)] looks for the byte [(int8_t)c] in the string with its
    terminator: it returns the offset of the first occurrence, or the null
    pointer when there is none.  (So [strchr(s, 0)] finds the terminator.) *)
Theorem strchr_first_occurrence (s : list Z) (c : Z) :
  exists res,
    strchr s c = Some res
    /\ match res with
       | Some k =>
           (cstr s ++ [0]) !! k = Some (s8 c)
           /\ s8 c ∉ take k (cstr s ++ [0])
       | None => s8 c ∉ cstr s ++ [0]
       end.
Proof.
  destruct (strchr_loop_spec s c (S (length s)) 0 ltac:(lia)) as (res & Hrun & Hres).
  exists res. split; [exact Hrun |]. rewrite drop_0 in Hres.
  destruct res as [k |]; [| exact Hres].
  rewrite Nat.sub_0_r in Hres. destruct Hres as (_ & Hat & Hbefore). split; assumption.
Qed.

(** *** [atoi] reads back what [itoa] writes in base 10 *)

Lemma digits_value_10 (ds : list Z) : digits_value 10 ds = fold_left horner10 ds 0.
Proof. reflexivity. Qed.

Lemma fold_horner_congr (ds : list Z) (a b : Z) :
  a mod 2 ^ 32 = b mod 2 ^ 32 ->
  fold_left horner10 ds a mod 2 ^ 32 = fold_left horner10 ds b mod 2 ^ 32.
Proof.
  revert a b. induction ds as [| d ds IH]; intros a b Hab; cbn [fold_left]; [exact Hab |].
  apply IH. unfold horner10.
  rewrite (Zplus_mod (a * 10)), (Zplus_mod (b * 10)), (Zmult_mod a), (Zmult_mod b), Hab.
  reflexivity.
Qed.

Lemma atoi_step_congr (n d : Z) :
  s32 (s32 (s32 (n * 10) + (48 + d)) - 48) mod 2 ^ 32 = horner10 n d mod 2 ^ 32.
Proof.
  unfold horner10. rewrite s32_mod.
  rewrite Zminus_mod, s32_mod, <- Zminus_mod.
  rewrite Zminus_mod, (Zplus_mod (s32 _)), s32_mod, <- Zplus_mod, <- Zminus_mod.
  f_equal. lia.
Qed.

Lemma deref_middle (pre post : list Z) (c : Z) : deref (pre ++ c :: post) (length pre) = c.
Proof. apply deref_lookup, list_lookup_middle. reflexivity. Qed.

Lemma atoi_digits_spec (ds pre : list Z) (fuel : nat) (n : Z) :
  Forall (fun d => 0 <= d < 10) ds ->
  (length ds < fuel)%nat ->
  is_s32 n ->
  atoi_digits fuel (pre ++ map (Z.add 48) ds) (length pre) n
    = Some (s32 (fold_left horner10 ds n)).
Proof.
  revert pre fuel n.
  induction ds as [| d ds IH]; intros pre fuel n Hds Hfuel Hn;
    (destruct fuel as [| fuel]; [cbn [length] in Hfuel; lia |]); cbn [atoi_digits].
  - cbn [map]. rewrite app_nil_r, deref_past by lia. cbn.
    rewrite s32_id by exact Hn. reflexivity.
  - apply Forall_cons in Hds as [Hd Hds]. cbn [map]. rewrite deref_middle.
    destruct (Z.geb_spec (48 + d) 48) as [_ | ?]; [| lia].
    destruct (Z.leb_spec (48 + d) 57) as [_ | ?]; [| lia]. cbn [andb].
    replace (S (length pre)) with (length (pre ++ [48 + d]))
      by (rewrite length_app; cbn [length]; lia).
    replace (pre ++ 48 + d :: map (Z.add 48) ds)
      with ((pre ++ [48 + d]) ++ map (Z.add 48) ds)
      by (rewrite <- app_assoc; reflexivity).
    rewrite IH; [| exact Hds | cbn [length] in Hfuel; lia | apply s32_range].
    f_equal. cbn [fold_left]. apply s32_congr, fold_horner_congr, atoi_step_congr.
Qed.

Lemma digit_byte (d : Z) :
  0 <= d < 10 -> s8 (Z.of_nat (nat_of_ascii (digit_char d))) = 48 + d.
Proof.
  intros Hd. unfold digit_char.
  destruct (Z.ltb_spec d 10) as [_ | ?]; [| lia].
  rewrite nat_ascii_embedding by lia. rewrite Z2Nat.id by lia.
  unfold s8, wrap_s. change (2 ^ (8 - 1)) with 128. change (2 ^ 8) with 256.
  rewrite Z.mod_small by lia. lia.
Qed.

Lemma digit_bytes (ds : list Z) :
  Forall (fun d => 0 <= d < 10) ds ->
  bytes_of (map digit_char ds) = map (Z.add 48) ds.
Proof.
  unfold bytes_of. induction 1 as [| d ds Hd _ IH]; [reflexivity |].
  cbn [map]. rewrite digit_byte by exact Hd. f_equal. exact IH.
Qed.

(** X11.  For every [int32_t] [i], [atoi] applied to the base-10 string of [i]
    (the string [itoa] writes) returns [i]. *)
Theorem atoi_reads_itoa (i : Z) :
  is_s32 i -> atoi (bytes_of (standard_string i 10)) = Some i.
Proof.
  intros Hi.
  destruct (standard_digits_canonical 10 (Z.abs i) ltac:(lia) ltac:(lia))
    as (Hval & Hall & _).
  rewrite digits_value_10 in Hval.
  unfold standard_string, bytes_of. rewrite map_app. fold (bytes_of (map digit_char (standard_digits (Z.abs i) 10))).
  rewrite digit_bytes by exact Hall.
  set (ds := standard_digits (Z.abs i) 10) in *.
  assert (Hne : ds <> []).
  { unfold ds, standard_digits. cbn [digits_from].
    destruct (Z.abs i / 10 =? 0); [discriminate |].
    rewrite digits_from_lsf. intros H. apply app_eq_nil in H as [_ H]. discriminate H. }
  destruct ds as [| d ds'] eqn:Eds; [contradiction |].
  pose proof Hall as Hall'. apply Forall_cons in Hall' as [Hd _].
  unfold is_s32 in Hi. unfold atoi.
  destruct (Z.ltb_spec i 0) as [Hneg | Hpos].
  - cbn [map app]. change (s8 (Z.of_nat (nat_of_ascii "-"))) with 45.
    cbn [length atoi_prefix]. change (deref _ 0) with 45. cbn [Z.eqb orb Pos.eqb].
    cbn [mbind option_bind].
    change (45 :: 48 + d :: map (Z.add 48) ds') with ([45] ++ map (Z.add 48) (d :: ds')).
    change 1%nat with (length [45]).
    rewrite atoi_digits_spec;
      [| exact Hall | cbn [length]; rewrite ?length_app, ?length_map; cbn [length]; lia
       | unfold is_s32; lia].
    cbn [mbind option_bind]. change (s32 (0 + 1) =? 0) with false. cbv iota.
    rewrite Hval, s32_neg. f_equal. rewrite s32_id by (unfold is_s32; lia). lia.
  - cbn [map app length atoi_prefix]. change (deref _ 0) with (48 + d).
    destruct (Z.eqb_spec (48 + d) 32) as [? | _]; [lia |].
    destruct (Z.eqb_spec (48 + d) 9) as [? | _]; [lia |].
    destruct (Z.eqb_spec (48 + d) 45) as [? | _]; [lia |].
    destruct (Z.eqb_spec (48 + d) 43) as [? | _]; [lia |].
    cbn [orb mbind option_bind].
    change (48 + d :: map (Z.add 48) ds') with ([] ++ map (Z.add 48) (d :: ds')).
    change 0%nat with (length (@nil Z)) at 1.
    rewrite atoi_digits_spec;
      [| exact Hall | cbn [length]; rewrite ?length_map; lia | unfold is_s32; lia].
    cbn [mbind option_bind Z.eqb]. rewrite Hval. f_equal.
    rewrite s32_id by (unfold is_s32; lia). lia.
Qed.

Lemma atoi_reads_itoa_witness :
  atoi (bytes_of (standard_string (-2147483648) 10)) = Some (-2147483648).
Proof. apply (atoi_reads_itoa (-2147483648)). unfold is_s32. lia. Defined.

(** *** Memory blocks *)

Lemma wr_inside (m : list Z) (p : nat) (v : Z) :
  (p < length m)%nat -> wr m p v = Some (<[p := v]> m).
Proof. intros Hp. unfold wr. rewrite decide_True by exact Hp. reflexivity. Qed.

Lemma count_down (k : nat) :
  Z.of_nat (S k) < 2 ^ 32 ->
  (Z.of_nat (S k) =? 0) = false /\ u32 (Z.of_nat (S k) - 1) = Z.of_nat k.
Proof.
  intros Hk. split.
  - apply Z.eqb_neq. lia.
  - rewrite u32_id by (unfold is_u32; lia). lia.
Qed.

Lemma memset_loop_spec (k : nat) (m : list Z) (p fuel : nat) (c : Z) :
  (k < fuel)%nat -> Z.of_nat k < 2 ^ 32 -> (p + k <= length m)%nat ->
  memset_loop fuel m p c (Z.of_nat k)
    = Some (take p m ++ replicate k (u8 c) ++ drop (p + k) m).
Proof.
  revert m p fuel.
  induction k as [| k IH]; intros m p fuel Hfuel Hk Hlen;
    (destruct fuel as [| fuel]; [lia |]); cbn [memset_loop].
  - cbn [Z.of_nat Z.eqb replicate app]. rewrite Nat.add_0_r, take_drop. reflexivity.
  - destruct (count_down k Hk) as [-> ->].
    rewrite wr_inside by lia. cbn [mbind option_bind].
    rewrite IH by (rewrite ?length_insert; lia).
    f_equal.
    rewrite (take_S_r _ p (u8 c)) by (apply list_lookup_insert_eq; lia).
    rewrite take_insert_ge by lia.
    rewrite drop_insert_lt by lia.
    rewrite <- app_assoc. cbn [replicate app].
    replace (S p + k)%nat with (p + S k)%nat by lia. reflexivity.
Qed.

(** X12.  [memset(s, c, n)] on a block that lies inside the memory fills it
    with the byte [(uint8_t)c] and touches nothing else. *)
Theorem memset_fills (m : list Z) (s : nat) (c n : Z) :
  0 <= n < 2 ^ 32 ->
  (s + Z.to_nat n <= length m)%nat ->
  memset m s c n
    = Some (take s m ++ replicate (Z.to_nat n) (u8 c) ++ drop (s + Z.to_nat n) m).
Proof.
  intros Hn Hlen. unfold memset.
  rewrite <- (Z2Nat.id n) at 2 by lia.
  apply memset_loop_spec; lia.
Qed.

Lemma memset_fills_witness :
  memset [1; 2; 3; 4; 5] 1 (-1) 3 = Some [1; 255; 255; 255; 5].
Proof. apply (memset_fills [1; 2; 3; 4; 5] 1 (-1) 3); cbn; lia. Defined.

(** The bytes of [copied]. *)
Lemma copied_lookup (m : list Z) (d s k j : nat) :
  (d + k <= length m)%nat -> (s + k <= length m)%nat ->
  copied m d s k !! j
    = if decide (d <= j < d + k)%nat then m !! (s + (j - d))%nat else m !! j.
Proof.
  intros Hd Hs. unfold copied.
  destruct (decide (j < d)%nat) as [Hlt | Hge].
  - rewrite lookup_app_l by (rewrite length_take; lia).
    rewrite lookup_take_lt by lia. rewrite decide_False by lia. reflexivity.
  - rewrite lookup_app_r by (rewrite length_take; lia).
    rewrite length_take, Nat.min_l by lia.
    destruct (decide (j < d + k)%nat) as [Hin | Hout].
    + rewrite lookup_app_l by (rewrite length_take, length_drop; lia).
      rewrite lookup_take_lt by lia. rewrite lookup_drop.
      rewrite decide_True by lia. reflexivity.
    + rewrite lookup_app_r by (rewrite length_take, length_drop; lia).
      rewrite length_take, length_drop, Nat.min_l by lia.
      rewrite lookup_drop. rewrite decide_False by lia. f_equal. lia.
Qed.

Lemma copied_length (m : list Z) (d s k : nat) :
  (d + k <= length m)%nat -> (s + k <= length m)%nat ->
  length (copied m d s k) = length m.
Proof.
  intros Hd Hs. unfold copied.
  rewrite !length_app, !length_take, !length_drop. lia.
Qed.

Lemma copy_up_spec (k : nat) (m : list Z) (d s fuel : nat) :
  (k < fuel)%nat -> Z.of_nat k < 2 ^ 32 ->
  (d + k <= length m)%nat -> (s + k <= length m)%nat ->
  (d <= s \/ s + k <= d)%nat ->
  exists m',
    copy_up fuel m d s (Z.of_nat k) = Some m'
    /\ length m' = length m
    /\ forall j, m' !! j
         = if decide (d <= j < d + k)%nat then m !! (s + (j - d))%nat else m !! j.
Proof.
  revert m d s fuel.
  induction k as [| k IH]; intros m d s fuel Hfuel Hk Hd Hs Hsep;
    (destruct fuel as [| fuel]; [lia |]); cbn [copy_up].
  - exists m. split; [reflexivity |]. split; [reflexivity |].
    intros j. rewrite decide_False by lia. reflexivity.
  - destruct (count_down k Hk) as [-> ->].
    destruct (lookup_lt_is_Some_2 m s ltac:(lia)) as [v Hv].
    unfold rd at 1. rewrite Hv. cbn [mbind option_bind].
    rewrite wr_inside by lia. cbn [mbind option_bind].
    destruct (IH (<[d := v]> m) (S d) (S s) fuel) as (m' & Hrun & Hlen & Hget);
      try (rewrite ?length_insert; lia).
    exists m'. split; [exact Hrun |].
    split; [rewrite Hlen; apply length_insert |].
    intros j. rewrite Hget.
    destruct (decide (j = d)) as [-> | Hjd].
    + rewrite decide_False by lia. rewrite decide_True by lia.
      rewrite list_lookup_insert_eq by lia.
      rewrite Nat.sub_diag, Nat.add_0_r. symmetry. exact Hv.
    + destruct (decide (S d <= j < S d + k)%nat) as [Hin | Hout].
      * rewrite decide_True by lia.
        rewrite list_lookup_insert_ne by lia. f_equal. lia.
      * rewrite decide_False by lia.
        rewrite list_lookup_insert_ne by lia. reflexivity.
Qed.

Lemma copy_down_spec (k : nat) (m : list Z) (d s fuel : nat) :
  (k < fuel)%nat -> Z.of_nat k < 2 ^ 32 ->
  (d + k <= length m)%nat -> (s + k <= length m)%nat ->
  (s <= d)%nat ->
  exists m',
    copy_down fuel m (d + k) (s + k) (Z.of_nat k) = Some m'
    /\ length m' = length m
    /\ forall j, m' !! j
         = if decide (d <= j < d + k)%nat then m !! (s + (j - d))%nat else m !! j.
Proof.
  revert m fuel.
  induction k as [| k IH]; intros m fuel Hfuel Hk Hd Hs Hsep;
    (destruct fuel as [| fuel]; [lia |]); cbn [copy_down].
  - exists m. split; [reflexivity |]. split; [reflexivity |].
    intros j. rewrite decide_False by lia. reflexivity.
  - destruct (count_down k Hk) as [-> ->].
    replace (Nat.pred (s + S k)) with (s + k)%nat by lia.
    replace (Nat.pred (d + S k)) with (d + k)%nat by lia.
    destruct (lookup_lt_is_Some_2 m (s + k) ltac:(lia)) as [v Hv].
    unfold rd at 1. rewrite Hv. cbn [mbind option_bind].
    rewrite wr_inside by lia. cbn [mbind option_bind].
    destruct (IH (<[(d + k)%nat := v]> m) fuel) as (m' & Hrun & Hlen & Hget);
      try (rewrite ?length_insert; lia).
    exists m'. split; [exact Hrun |].
    split; [rewrite Hlen; apply length_insert |].
    intros j. rewrite Hget.
    destruct (decide (j = d + k)%nat) as [-> | Hjd].
    + rewrite decide_False by lia. rewrite decide_True by lia.
      rewrite list_lookup_insert_eq by lia.
      rewrite <- Hv. f_equal. lia.
    + destruct (decide (d <= j < d + k)%nat) as [Hin | Hout].
      * rewrite decide_True by lia.
        rewrite list_lookup_insert_ne by lia. reflexivity.
      * rewrite decide_False by lia.
        rewrite list_lookup_insert_ne by lia. reflexivity.
Qed.

Lemma memcpy_copies_aux (m : list Z) (dst src : nat) (n : Z) :
  0 <= n < 2 ^ 32 ->
  (dst + Z.to_nat n <= length m)%nat -> (src + Z.to_nat n <= length m)%nat ->
  (dst <= src \/ src + Z.to_nat n <= dst)%nat ->
  copy_up (S (Z.to_nat n)) m dst src n = Some (copied m dst src (Z.to_nat n)).
Proof.
  intros Hn Hd Hs Hsep.
  rewrite <- (Z2Nat.id n) at 2 by lia.
  destruct (copy_up_spec (Z.to_nat n) m dst src (S (Z.to_nat n)))
    as (m' & Hrun & Hlen & Hget); try lia.
  rewrite Hrun. f_equal. apply list_eq. intros j.
  rewrite Hget, copied_lookup by lia. reflexivity.
Qed.

(** X13.  [memcpy] copies the block when the regions do not overlap, or when
    the destination starts at or below the source. *)
Theorem memcpy_copies (m : list Z) (dst src : nat) (n : Z) :
  0 <= n < 2 ^ 32 ->
  (dst + Z.to_nat n <= length m)%nat -> (src + Z.to_nat n <= length m)%nat ->
  (dst <= src \/ src + Z.to_nat n <= dst)%nat ->
  memcpy m dst src n = Some (copied m dst src (Z.to_nat n)).
Proof. intros. unfold memcpy. apply memcpy_copies_aux; assumption. Qed.

Lemma memcpy_copies_witness :
  memcpy [1; 2; 3; 4; 5; 6] 0 2 3 = Some [3; 4; 5; 4; 5; 6].
Proof. apply (memcpy_copies [1; 2; 3; 4; 5; 6] 0 2 3); cbn; lia. Defined.

(** X14.  [memmove] copies the block whichever way the regions overlap: the
    destination ends up holding what the source held before the call. *)
Theorem memmove_copies (m : list Z) (dst src : nat) (n : Z) :
  0 <= n < 2 ^ 32 ->
  (dst + Z.to_nat n <= length m)%nat -> (src + Z.to_nat n <= length m)%nat ->
  memmove m dst src n = Some (copied m dst src (Z.to_nat n)).
Proof.
  intros Hn Hd Hs. unfold memmove.
  destruct (decide (dst <= src)%nat) as [Hle | Hgt].
  - apply memcpy_copies_aux; assumption || lia.
  - rewrite <- (Z2Nat.id n) at 4 by lia.
    destruct (copy_down_spec (Z.to_nat n) m dst src (S (Z.to_nat n)))
      as (m' & Hrun & Hlen & Hget); try lia.
    rewrite Hrun. f_equal. apply list_eq. intros j.
    rewrite Hget, copied_lookup by lia. reflexivity.
Qed.

Lemma memmove_copies_witness :
  memmove [1; 2; 3; 4; 5; 6] 2 0 4 = Some [1; 2; 1; 2; 3; 4]
  /\ memmove [1; 2; 3; 4; 5; 6] 0 2 4 = Some [3; 4; 5; 6; 5; 6].
Proof.
  split.
  - apply (memmove_copies [1; 2; 3; 4; 5; 6] 2 0 4); cbn; lia.
  - apply (memmove_copies [1; 2; 3; 4; 5; 6] 0 2 4); cbn; lia.
Defined.

(** *** [memcmp] *)

Lemma memcmp_loop_spec (k : nat) (cs ct : list Z) (r1 r2 fuel : nat) :
  (k < fuel)%nat -> Z.of_nat k < 2 ^ 32 ->
  (r1 + k <= length cs)%nat -> (r2 + k <= length ct)%nat ->
  exists r,
    memcmp_loop fuel cs ct r1 r2 (Z.of_nat k) = Some r
    /\ (r = -1 \/ r = 0 \/ r = 1)
    /\ (r = 0 <-> map u8 (take k (drop r1 cs)) = map u8 (take k (drop r2 ct))).
Proof.
  revert r1 r2 fuel.
  induction k as [| k IH]; intros r1 r2 fuel Hfuel Hk H1 H2;
    (destruct fuel as [| fuel]; [lia |]); cbn [memcmp_loop].
  - exists 0. split; [reflexivity |]. split; [lia |]. split; reflexivity.
  - destruct (count_down k Hk) as [-> ->].
    destruct (lookup_lt_is_Some_2 cs r1 ltac:(lia)) as [a Ha].
    destruct (lookup_lt_is_Some_2 ct r2 ltac:(lia)) as [b Hb].
    unfold rd. rewrite Ha, Hb. cbn [mbind option_bind].
    rewrite (drop_S cs a r1 Ha), (drop_S ct b r2 Hb). cbn [take map].
    destruct (Z.eqb_spec (u8 a) (u8 b)) as [Heq | Hne].
    + destruct (IH (S r1) (S r2) fuel) as (r & Hrun & Hr3 & Hr); try lia.
      exists r. split; [exact Hrun |]. split; [exact Hr3 |].
      rewrite Hr, Heq. split; [intros ->; reflexivity | intros [= H]; exact H].
    + eexists. split; [reflexivity |].
      split; [destruct (u8 a <? u8 b); lia |].
      split; [destruct (u8 a <? u8 b); discriminate |].
      intros [= H _]. contradiction.
Qed.

(** X15.  [memcmp(cs, ct, n)] on two blocks of at least [n] bytes returns -1, 0
    or 1, and 0 exactly when the first [n] bytes are the same. *)
Theorem memcmp_zero_iff_equal (cs ct : list Z) (n : Z) :
  0 <= n < 2 ^ 32 ->
  (Z.to_nat n <= length cs)%nat -> (Z.to_nat n <= length ct)%nat ->
  exists r,
    memcmp cs ct n = Some r
    /\ (r = -1 \/ r = 0 \/ r = 1)
    /\ (r = 0 <-> map u8 (take (Z.to_nat n) cs) = map u8 (take (Z.to_nat n) ct)).
Proof.
  intros Hn H1 H2. unfold memcmp.
  destruct (memcmp_loop_spec (Z.to_nat n) cs ct 0 0 (S (Z.to_nat n)))
    as (r & Hrun & Hr3 & Hr); try lia.
  rewrite Z2Nat.id in Hrun by lia.
  exists r. rewrite !drop_0 in Hr. repeat split; tauto.
Qed.

Lemma memcmp_zero_iff_equal_witness :
  exists r,
    memcmp [1; 2; 3] [1; 2; 4] 2 = Some r
    /\ (r = -1 \/ r = 0 \/ r = 1)
    /\ (r = 0 <-> map u8 (take (Z.to_nat 2) [1; 2; 3]) = map u8 (take (Z.to_nat 2) [1; 2; 4])).
Proof. apply (memcmp_zero_iff_equal [1; 2; 3] [1; 2; 4] 2); cbn; lia. Defined.

(** *** [strcpy] and [strcat] *)

Lemma strcpy_loop_spec (src dst : list Z) (fuel d p : nat) :
  (p <= length src < fuel + p)%nat ->
  (d + length (cstr (drop p src)) < length dst)%nat ->
  strcpy_loop fuel dst d src p
    = Some (take d dst ++ cstr (drop p src) ++ [0]
            ++ drop (d + length (cstr (drop p src)) + 1) dst).
Proof.
  revert dst d p. induction fuel as [| fuel IH]; intros dst d p Hp Hroom; [lia |].
  cbn [strcpy_loop]. rewrite cstr_drop in Hroom |- *.
  rewrite wr_inside by lia. cbn [mbind option_bind].
  destruct (Z.eqb_spec (deref src p) 0) as [Hz | Hnz].
  - rewrite Hz. cbn [length app]. rewrite Nat.add_0_r, Nat.add_1_r.
    f_equal. apply insert_take_drop. lia.
  - pose proof (deref_inside src p Hnz) as Hin. cbn [length] in Hroom.
    rewrite IH by (rewrite ?length_insert; lia).
    f_equal.
    rewrite (take_S_r _ d (deref src p)) by (apply list_lookup_insert_eq; lia).
    rewrite take_insert_ge by lia.
    rewrite drop_insert_lt by lia.
    rewrite <- app_assoc. cbn [app length].
    replace (S d + length (cstr (drop (S p) src)) + 1)%nat
      with (d + S (length (cstr (drop (S p) src))) + 1)%nat by lia.
    reflexivity.
Qed.

(** X16.  [strcpy(dst, src)] into a buffer with room for the string and its
    terminator leaves there the string, a NUL, and the old bytes after
    them. *)
Theorem strcpy_copies (dst src : list Z) :
  (length (cstr src) < length dst)%nat ->
  strcpy dst src = Some (cstr src ++ [0] ++ drop (length (cstr src) + 1) dst).
Proof.
  intros Hroom. unfold strcpy.
  rewrite strcpy_loop_spec by (rewrite ?drop_0; lia).
  rewrite drop_0, take_0. reflexivity.
Qed.

Lemma strcpy_copies_witness :
  strcpy [9; 9; 9; 9; 9] [104; 105; 0; 7] = Some [104; 105; 0; 9; 9].
Proof. apply (strcpy_copies [9; 9; 9; 9; 9] [104; 105; 0; 7]). cbn. lia. Defined.

Lemma strcat_seek_spec (dst : list Z) (fuel d : nat) :
  (length dst < fuel + d)%nat ->
  (d + length (cstr (drop d dst)) < length dst)%nat ->
  strcat_seek fuel dst d = Some (d + length (cstr (drop d dst)))%nat.
Proof.
  revert d. induction fuel as [| fuel IH]; intros d Hfuel Hend; [lia |].
  cbn [strcat_seek].
  destruct (lookup_lt_is_Some_2 dst d ltac:(lia)) as [c Hc].
  unfold rd. rewrite Hc. cbn [mbind option_bind].
  rewrite cstr_drop in Hend |- *. rewrite (deref_lookup dst d c Hc) in Hend |- *.
  destruct (Z.eqb_spec c 0) as [Hz | Hnz].
  - cbn [length]. f_equal. lia.
  - cbn [length] in Hend |- *. rewrite IH by lia. f_equal. lia.
Qed.

Lemma take_cstr (s : list Z) : take (length (cstr s)) s = cstr s.
Proof.
  induction s as [| c s IH]; [reflexivity |]. cbn [cstr].
  destruct (c =? 0); [reflexivity |]. cbn [length take]. f_equal. exact IH.
Qed.

(** X17.  [strcat(dst, src)]: when the buffer holds a terminated string and has
    room for both strings and a terminator, it ends up holding the first
    string, the second, a NUL, and the old bytes after them. *)
Theorem strcat_appends (dst src : list Z) :
  (length (cstr dst) + length (cstr src) < length dst)%nat ->
  strcat dst src
    = Some (cstr dst ++ cstr src ++ [0]
            ++ drop (length (cstr dst) + length (cstr src) + 1) dst).
Proof.
  intros Hroom. unfold strcat.
  rewrite strcat_seek_spec by (rewrite ?drop_0; lia).
  rewrite drop_0. cbn [mbind option_bind Nat.add].
  rewrite strcpy_loop_spec by (rewrite ?drop_0; lia).
  rewrite drop_0, take_cstr. reflexivity.
Qed.

Lemma strcat_appends_witness :
  strcat [104; 105; 0; 9; 9; 9; 9] [33; 63; 0] = Some [104; 105; 33; 63; 0; 9; 9].
Proof. apply (strcat_appends [104; 105; 0; 9; 9; 9; 9] [33; 63; 0]). cbn. lia. Defined.

End LibcStringProofs.

Module LibcDwordProofs.
Import Word Libc LibcArith LibcDword LibcProofs LibcArithProofs.

(** *** 64-bit words *)

Lemma u64_range (z : Z) : is_u64 (u64 z).
Proof. unfold is_u64, u64, wrap_u. apply Z.mod_pos_bound. lia. Qed.

Lemma u64_id (z : Z) : is_u64 z -> u64 z = z.
Proof. unfold is_u64, u64, wrap_u. intros. apply Z.mod_small. lia. Qed.

Lemma s64_range (z : Z) : is_s64 (s64 z).
Proof.
  unfold is_s64, s64, wrap_s. change (2 ^ (64 - 1)) with (2 ^ 63).
  pose proof (Z.mod_pos_bound (z + 2 ^ 63) (2 ^ 64) ltac:(lia)). lia.
Qed.

(** The [int64_t] reading of [x] is the one value of the range that
    differs from [x] by a multiple of [2^64]. *)
Lemma s64_unique (x y k : Z) : is_s64 y -> x = y + k * 2 ^ 64 -> s64 x = y.
Proof.
  unfold is_s64. intros Hy ->. unfold s64, wrap_s.
  change (2 ^ (64 - 1)) with (2 ^ 63).
  replace (y + k * 2 ^ 64 + 2 ^ 63) with (y + 2 ^ 63 + k * 2 ^ 64) by lia.
  rewrite Z_mod_plus_full, Z.mod_small by lia. lia.
Qed.

Lemma s64_id (z : Z) : is_s64 z -> s64 z = z.
Proof. intros Hz. apply (s64_unique z z 0); [exact Hz | lia]. Qed.

Lemma s64_decompose (z : Z) : exists k, s64 z = z + k * 2 ^ 64.
Proof.
  exists (- ((z + 2 ^ 63) / 2 ^ 64)). unfold s64, wrap_s.
  change (2 ^ (64 - 1)) with (2 ^ 63).
  pose proof (Z.div_mod (z + 2 ^ 63) (2 ^ 64) ltac:(lia)). lia.
Qed.

Lemma u64_decompose (z : Z) : exists k, u64 z = z + k * 2 ^ 64.
Proof.
  exists (- (z / 2 ^ 64)). unfold u64, wrap_u.
  pose proof (Z.div_mod z (2 ^ 64) ltac:(lia)). lia.
Qed.

Lemma s32_decompose (z : Z) : exists k, s32 z = z + k * 2 ^ 32.
Proof.
  exists (- ((z + 2 ^ 31) / 2 ^ 32)). unfold s32, wrap_s.
  change (2 ^ (32 - 1)) with (2 ^ 31).
  pose proof (Z.div_mod (z + 2 ^ 31) (2 ^ 32) ltac:(lia)). lia.
Qed.

(** The halves of an [int64_t]. *)
Lemma of_all_halves (u : Z) :
  is_s64 u ->
  low (of_all u) = u mod 2 ^ 32 /\ high (of_all u) = u / 2 ^ 32
  /\ is_u32 (low (of_all u)) /\ is_s32 (high (of_all u))
  /\ u = high (of_all u) * 2 ^ 32 + low (of_all u).
Proof.
  unfold is_s64. intros Hu. cbn [of_all low high].
  rewrite Z.shiftr_div_pow2 by lia.
  assert (Hh : is_s32 (u / 2 ^ 32)).
  { unfold is_s32. split.
    - apply Z.div_le_lower_bound; lia.
    - apply Z.div_lt_upper_bound; lia. }
  rewrite (s32_id _ Hh).
  pose proof (Z.div_mod u (2 ^ 32) ltac:(lia)).
  repeat split; try apply u32_range; try apply Hh; unfold u32, wrap_u; lia.
Qed.

(** *** [__muldsi3] *)

Lemma muldsi3_spec (a b : Z) :
  is_u32 a -> is_u32 b -> __muldsi3 a b = s64 (a * b).
Proof.
  unfold is_u32. intros Ha Hb. unfold __muldsi3.
  change lower_mask with (Z.ones 16). change bits_in_word_2 with 16.
  rewrite !Z.land_ones, !Z.shiftr_div_pow2, !Z.shiftl_mul_pow2 by lia.
  pose proof (Z.div_mod a (2 ^ 16) ltac:(lia)) as Ea.
  pose proof (Z.div_mod b (2 ^ 16) ltac:(lia)) as Eb.
  pose proof (Z.mod_pos_bound a (2 ^ 16) ltac:(lia)) as Bal.
  pose proof (Z.mod_pos_bound b (2 ^ 16) ltac:(lia)) as Bbl.
  assert (Bah : 0 <= a / 2 ^ 16 < 2 ^ 16)
    by (split; [apply Z.div_pos | apply Z.div_lt_upper_bound]; lia).
  assert (Bbh : 0 <= b / 2 ^ 16 < 2 ^ 16)
    by (split; [apply Z.div_pos | apply Z.div_lt_upper_bound]; lia).
  set (al := a mod 2 ^ 16) in *. set (bl := b mod 2 ^ 16) in *.
  set (ah := a / 2 ^ 16) in *. set (bh := b / 2 ^ 16) in *.
  assert (Bll : 0 <= al * bl <= 65535 * 65535) by nia.
  assert (Bhl : 0 <= ah * bl <= 65535 * 65535) by nia.
  assert (Blh : 0 <= bh * al <= 65535 * 65535) by nia.
  assert (Bhh : 0 <= ah * bh <= 65535 * 65535) by nia.
  rewrite (u32_id (al * bl)) by (unfold is_u32; lia).
  set (p0 := al * bl) in *.
  pose proof (Z.div_mod p0 (2 ^ 16) ltac:(lia)) as E1.
  pose proof (Z.mod_pos_bound p0 (2 ^ 16) ltac:(lia)) as Bl1.
  assert (Bt1 : 0 <= p0 / 2 ^ 16 < 65535)
    by (split; [apply Z.div_pos | apply Z.div_lt_upper_bound]; lia).
  set (t1 := p0 / 2 ^ 16) in *. set (l1 := p0 mod 2 ^ 16) in *.
  rewrite (u32_id (ah * bl)) by (unfold is_u32; lia).
  rewrite (u32_id (t1 + ah * bl)) by (unfold is_u32; lia).
  set (t2 := t1 + ah * bl) in *.
  pose proof (Z.div_mod t2 (2 ^ 16) ltac:(lia)) as E2.
  pose proof (Z.mod_pos_bound t2 (2 ^ 16) ltac:(lia)) as Bm2.
  assert (Bh1 : 0 <= t2 / 2 ^ 16 < 2 ^ 16)
    by (split; [apply Z.div_pos | apply Z.div_lt_upper_bound]; lia).
  set (m2 := t2 mod 2 ^ 16) in *. set (h1 := t2 / 2 ^ 16) in *.
  rewrite (u32_id (m2 * 2 ^ 16)) by (unfold is_u32; lia).
  rewrite (u32_id (l1 + m2 * 2 ^ 16)) by (unfold is_u32; lia).
  assert (E3 : (l1 + m2 * 2 ^ 16) / 2 ^ 16 = m2)
    by (rewrite Z.div_add by lia; rewrite Z.div_small by lia; lia).
  assert (E4 : (l1 + m2 * 2 ^ 16) mod 2 ^ 16 = l1)
    by (rewrite Z_mod_plus_full; apply Z.mod_small; lia).
  rewrite E3, E4.
  rewrite (u32_id (bh * al)) by (unfold is_u32; lia).
  rewrite (u32_id (m2 + bh * al)) by (unfold is_u32; lia).
  set (t4 := m2 + bh * al) in *.
  pose proof (Z.div_mod t4 (2 ^ 16) ltac:(lia)) as E5.
  pose proof (Z.mod_pos_bound t4 (2 ^ 16) ltac:(lia)) as Bm4.
  assert (Bh4 : 0 <= t4 / 2 ^ 16 < 2 ^ 16)
    by (split; [apply Z.div_pos | apply Z.div_lt_upper_bound]; lia).
  set (m4 := t4 mod 2 ^ 16) in *. set (h4 := t4 / 2 ^ 16) in *.
  rewrite (u32_id (m4 * 2 ^ 16)) by (unfold is_u32; lia).
  rewrite (u32_id (l1 + m4 * 2 ^ 16)) by (unfold is_u32; lia).
  rewrite (s32_id h1) by (unfold is_s32; lia).
  rewrite (s32_id (h1 + h4)) by (unfold is_s32; lia).
  rewrite (u32_id (ah * bh)) by (unfold is_u32; lia).
  unfold all. cbn [low high].
  destruct (s32_decompose (h1 + h4 + ah * bh)) as [k Hk].
  pose proof (s32_range (h1 + h4 + ah * bh)) as Hr. unfold is_s32 in Hr.
  symmetry. apply (s64_unique _ _ (- k)); [unfold is_s64; lia |].
  rewrite Hk.
  replace (a * b) with (ah * bh * 2 ^ 32 + (ah * bl + bh * al) * 2 ^ 16 + al * bl)
    by (rewrite Ea, Eb at 1; ring).
  fold p0. lia.
Qed.

(** X18.  [__muldsi3(a, b)] is the full 64-bit product of its 32-bit operands,
    read as an [int64_t]. *)
Theorem muldsi3_product (a b : Z) :
  is_u32 a -> is_u32 b -> __muldsi3 a b = s64 (a * b).
Proof. intros. apply muldsi3_spec; assumption. Qed.

Lemma muldsi3_product_witness :
  __muldsi3 4294967295 4294967295 = s64 (4294967295 * 4294967295).
Proof. apply (muldsi3_product 4294967295 4294967295); unfold is_u32; lia. Defined.

(** *** [__muldi3] *)

(** X19.  [__muldi3(a, b)] is the product of two [int64_t] wrapped to 64 bits:
    the low words are multiplied in full and the two cross products only
    reach the high word. *)
Theorem muldi3_product (a b : Z) :
  is_s64 a -> is_s64 b -> __muldi3 a b = Some (s64 (a * b)).
Proof.
  intros Ha Hb. unfold __muldi3.
  destruct (of_all_halves a Ha) as (_ & _ & Hxl & Hxh & Ea).
  destruct (of_all_halves b Hb) as (_ & _ & Hyl & Hyh & Eb).
  set (xl := low (of_all a)) in *. set (xh := high (of_all a)) in *.
  set (yl := low (of_all b)) in *. set (yh := high (of_all b)) in *.
  rewrite (muldsi3_spec xl yl Hxl Hyl).
  rewrite (mulsi3_spec (u32 xh) yl (u32_range _) Hyl).
  rewrite (mulsi3_spec xl (u32 yh) Hxl (u32_range _)).
  cbn [mbind option_bind]. f_equal.
  destruct (of_all_halves (s64 (xl * yl)) (s64_range _)) as (_ & _ & Hrl & _ & Er).
  set (rl := low (of_all (s64 (xl * yl)))) in *.
  set (rh := high (of_all (s64 (xl * yl)))) in *.
  unfold all. cbn [low high].
  destruct (s64_decompose (xl * yl)) as [k0 H0].
  destruct (u32_decompose xh) as [k1 H1].
  destruct (u32_decompose yh) as [k2 H2].
  destruct (s32_decompose (u32 xh * yl)) as [k3 H3].
  destruct (s32_decompose (xl * u32 yh)) as [k4 H4].
  destruct (s32_decompose (s32 (u32 xh * yl) + s32 (xl * u32 yh))) as [k5 H5].
  destruct (s32_decompose (rh + s32 (s32 (u32 xh * yl) + s32 (xl * u32 yh)))) as [k6 H6].
  pose proof (s32_range (rh + s32 (s32 (u32 xh * yl) + s32 (xl * u32 yh)))) as Hr.
  unfold is_s32 in Hr. unfold is_u32 in Hrl.
  symmetry.
  apply (s64_unique _ _ (xh * yh - k0 - k1 * yl - xl * k2 - k3 - k4 - k5 - k6));
    [unfold is_s64; lia |].
  rewrite H6, H5, H4, H3, H2, H1.
  assert (Hp : xl * yl = rh * 2 ^ 32 + rl - k0 * 2 ^ 64) by lia.
  replace (a * b) with (xh * yh * 2 ^ 64 + (xh * yl + xl * yh) * 2 ^ 32 + xl * yl)
    by (rewrite Ea, Eb at 1; ring).
  rewrite Hp. ring.
Qed.

Lemma muldi3_product_witness :
  __muldi3 (-3) 5 = Some (s64 (-3 * 5))
  /\ __muldi3 4611686018427387904 2 = Some (s64 (4611686018427387904 * 2)).
Proof.
  split.
  - apply (muldi3_product (-3) 5); unfold is_s64; lia.
  - apply (muldi3_product 4611686018427387904 2); unfold is_s64; lia.
Defined.

(** *** The shifts *)

Lemma lor_disjoint (m c n : Z) :
  0 <= n -> 0 <= c < 2 ^ n -> Z.lor (m * 2 ^ n) c = m * 2 ^ n + c.
Proof.
  intros Hn Hc. symmetry. apply Z.add_nocarry_lor.
  apply Z.bits_inj'. intros i Hi.
  rewrite Z.land_spec, Z.bits_0.
  destruct (Z.lt_ge_cases i n) as [Hlt | Hge].
  - rewrite Z.mul_pow2_bits_low by lia. reflexivity.
  - rewrite <- (Z.mod_small c (2 ^ n)) by lia.
    rewrite Z.mod_pow2_bits_high by lia. apply andb_false_r.
Qed.

Lemma pow2_split (b : Z) : 0 <= b <= 32 -> 2 ^ (32 - b) * 2 ^ b = 2 ^ 32.
Proof. intros Hb. rewrite <- Z.pow_add_r by lia. f_equal. lia. Qed.

Lemma shl32_mod (x b : Z) :
  0 <= b < 32 -> shl32 x b = Some (x mod 2 ^ (32 - b) * 2 ^ b).
Proof.
  intros Hb. unfold shl32.
  destruct (Z.ltb_spec b 32); [| lia].
  rewrite Z.shiftl_mul_pow2 by lia. unfold u32, wrap_u.
  rewrite <- (pow2_split b) by lia.
  rewrite Zmult_mod_distr_r. reflexivity.
Qed.

Lemma shr32_div (x b : Z) : 0 <= b < 32 -> shr32 x b = Some (x / 2 ^ b).
Proof.
  intros Hb. unfold shr32.
  destruct (Z.ltb_spec b 32); [| lia].
  rewrite Z.shiftr_div_pow2 by lia. reflexivity.
Qed.

(** [bm = 32 - b] in [uint32_t]. *)
Lemma bm_small (b : Z) : 0 < b <= 32 -> u32 (32 - b) = 32 - b.
Proof. intros Hb. apply u32_id. unfold is_u32. lia. Qed.

Lemma bm_large (b : Z) : 32 < b < 2 ^ 32 -> u32 (32 - b) = 2 ^ 32 + 32 - b.
Proof.
  intros Hb. rewrite (u32_congr (32 - b) (2 ^ 32 + 32 - b) (- 1)) by lia.
  apply u32_id. unfold is_u32. lia.
Qed.

(** X20.  [__ashldi3(u, b)] is [u << b] wrapped to 64 bits for a count up to 32.
    For a larger count [bm] wraps to [2^32 + 32 - b], the test [bm <= 0]
    fails and the low word is shifted by that count, which is beyond the
    width of the word: there is no result. *)
Theorem ashldi3_shifts (u b : Z) :
  is_s64 u -> is_u32 b ->
  __ashldi3 u b = if b <=? 32 then Some (s64 (Z.shiftl u b)) else None.
Proof.
  intros Hu Hb. unfold is_u32 in Hb. unfold __ashldi3.
  destruct (Z.eqb_spec b 0) as [-> | Hb0].
  { change (0 <=? 32) with true. cbv iota.
    rewrite Z.shiftl_0_r, s64_id by exact Hu. reflexivity. }
  destruct (of_all_halves u Hu) as (_ & _ & HL & HH & Eu).
  set (L := low (of_all u)) in *. set (H := high (of_all u)) in *.
  clearbody L H. unfold is_u32 in HL. unfold is_s32 in HH.
  destruct (Z.leb_spec b 32) as [Hle | Hgt].
  - destruct (Z.eq_dec b 32) as [-> | Hne].
    + change (u32 (32 - 32)) with 0. change (0 <=? 0) with true. cbv iota.
      change (u32 (- 0)) with 0. rewrite shl32_mod by lia.
      cbn [mbind option_bind]. f_equal.
      change (2 ^ (32 - 0)) with (2 ^ 32). change (2 ^ 0) with 1.
      rewrite Z.mul_1_r, Z.mod_small by lia.
      unfold all. cbn [low high]. rewrite Z.shiftl_mul_pow2 by lia.
      destruct (s32_decompose L) as [k Hk].
      pose proof (s32_range L) as Hr. unfold is_s32 in Hr.
      symmetry. apply (s64_unique _ _ (H - k)); [unfold is_s64; lia |].
      rewrite Hk. lia.
    + rewrite bm_small by lia.
      destruct (Z.leb_spec (32 - b) 0) as [? | _]; [lia |].
      rewrite shr32_div, !shl32_mod by lia.
      cbn [mbind option_bind]. f_equal.
      rewrite Z.shiftl_mul_pow2 by lia.
      pose proof (pow2_split b ltac:(lia)) as Epq.
      assert (HP : 0 < 2 ^ b) by (apply Z.pow_pos_nonneg; lia).
      assert (HQ : 0 < 2 ^ (32 - b)) by (apply Z.pow_pos_nonneg; lia).
      assert (Hc : 0 <= L / 2 ^ (32 - b) < 2 ^ b)
        by (split; [apply Z.div_pos | apply Z.div_lt_upper_bound]; nia).
      rewrite lor_disjoint by lia.
      set (P := 2 ^ b) in *. set (Q := 2 ^ (32 - b)) in *. clearbody P Q.
      pose proof (Z.div_mod L Q ltac:(lia)) as EL.
      pose proof (Z.mod_pos_bound L Q ltac:(lia)) as BL.
      pose proof (Z.div_mod (u32 H) Q ltac:(lia)) as EH.
      destruct (u32_decompose H) as [k2 Hk2].
      unfold all. cbn [low high].
      destruct (s32_decompose (u32 H mod Q * P + L / Q)) as [k1 Hk1].
      pose proof (s32_range (u32 H mod Q * P + L / Q)) as Hr. unfold is_s32 in Hr.
      symmetry.
      apply (s64_unique _ _ (u32 H / Q - k1 - k2 * P)); [unfold is_s64; nia |].
      rewrite Hk1.
      assert (Em : u32 H mod Q = H + k2 * 2 ^ 32 - Q * (u32 H / Q)) by lia.
      rewrite Em.
      set (dq := u32 H / Q). clearbody dq.
      rewrite Eu. rewrite EL at 1.
      change (2 ^ 64) with (2 ^ 32 * 2 ^ 32). rewrite <- Epq. ring.
  - rewrite bm_large by lia.
    destruct (Z.leb_spec (2 ^ 32 + 32 - b) 0) as [? | _]; [lia |].
    unfold shr32. destruct (Z.ltb_spec (2 ^ 32 + 32 - b) 32); [lia |].
    reflexivity.
Qed.

Lemma ashldi3_shifts_witness :
  __ashldi3 (-5) 3 = Some (s64 (Z.shiftl (-5) 3)) /\ __ashldi3 5 33 = None.
Proof.
  split.
  - apply (ashldi3_shifts (-5) 3); [unfold is_s64 | unfold is_u32]; lia.
  - apply (ashldi3_shifts 5 33); [unfold is_s64 | unfold is_u32]; lia.
Defined.

Lemma u32_mod_pow2 (z b : Z) : 0 <= b <= 32 -> u32 z mod 2 ^ b = z mod 2 ^ b.
Proof.
  intros Hb. destruct (u32_decompose z) as [k ->].
  rewrite <- (pow2_split b Hb).
  replace (z + k * (2 ^ (32 - b) * 2 ^ b)) with (z + k * 2 ^ (32 - b) * 2 ^ b) by ring.
  apply Z_mod_plus_full.
Qed.

(** X21.  [__ashrdi3(u, b)] is the arithmetic shift [u >> b] for a count below
    32.  At 32 the low word of the result is the low word of [u], not its
    high word, under the sign fill; above 32 the shift count of the
    carries is beyond the width of the word. *)
Theorem ashrdi3_shifts (u b : Z) :
  is_s64 u -> is_u32 b ->
  __ashrdi3 u b =
    if b <? 32 then Some (Z.shiftr u b)
    else if b =? 32 then Some ((if u <? 0 then - 2 ^ 32 else 0) + u mod 2 ^ 32)
    else None.
Proof.
  intros Hu Hb. unfold is_u32 in Hb. unfold __ashrdi3.
  destruct (Z.eqb_spec b 0) as [-> | Hb0].
  { change (0 <? 32) with true. cbv iota. rewrite Z.shiftr_0_r. reflexivity. }
  destruct (of_all_halves u Hu) as (EL0 & _ & HL & HH & Eu).
  set (L := low (of_all u)) in *. set (H := high (of_all u)) in *.
  clearbody L H. unfold is_u32 in HL. unfold is_s32 in HH.
  destruct (Z.ltb_spec b 32) as [Hlt | Hge].
  - rewrite bm_small by lia.
    destruct (Z.leb_spec (32 - b) 0) as [? | _]; [lia |].
    rewrite shl32_mod, !shr32_div by lia.
    cbn [mbind option_bind]. f_equal.
    replace (32 - (32 - b)) with b by lia.
    rewrite u32_mod_pow2 by lia.
    assert (Hc : 0 <= L / 2 ^ b < 2 ^ (32 - b)).
    { pose proof (pow2_split b ltac:(lia)).
      assert (0 < 2 ^ b) by (apply Z.pow_pos_nonneg; lia).
      split; [apply Z.div_pos | apply Z.div_lt_upper_bound]; nia. }
    rewrite Z.lor_comm, lor_disjoint by lia.
    rewrite Z.shiftr_div_pow2 by lia.
    pose proof (pow2_split b ltac:(lia)) as Epq.
    assert (HP : 0 < 2 ^ b) by (apply Z.pow_pos_nonneg; lia).
    set (P := 2 ^ b) in *. set (Q := 2 ^ (32 - b)) in *. clearbody P Q.
    unfold all. cbn [low high].
    replace u with (H * Q * P + L) by (rewrite Eu, <- Epq; ring).
    rewrite Z.div_add_l by lia.
    pose proof (Z.div_mod H P ltac:(lia)) as EH.
    rewrite <- Epq. rewrite EH at 3. ring.
  - destruct (Z.eqb_spec b 32) as [-> | Hne].
    + change (u32 (32 - 32)) with 0. change (0 <=? 0) with true. cbv iota.
      change (u32 (- 0)) with 0. rewrite !shr32_div by lia.
      cbn [mbind option_bind]. f_equal.
      change (2 ^ 0) with 1. rewrite Z.div_1_r.
      unfold all. cbn [low high]. rewrite <- EL0.
      destruct (Z.ltb_spec u 0) as [Hneg | Hpos].
      * assert (H / 2 ^ 31 = - 1) as ->; [| lia].
        symmetry. apply (Z.div_unique_pos H (2 ^ 31) (- 1) (H + 2 ^ 31)); lia.
      * rewrite Z.div_small by lia. lia.
    + rewrite bm_large by lia.
      destruct (Z.leb_spec (2 ^ 32 + 32 - b) 0) as [? | _]; [lia |].
      unfold shl32. destruct (Z.ltb_spec (2 ^ 32 + 32 - b) 32); [lia |].
      reflexivity.
Qed.

Lemma ashrdi3_shifts_witness :
  __ashrdi3 (-8) 1 = Some (Z.shiftr (-8) 1)
  /\ __ashrdi3 4294967301 32 = Some 5.
Proof.
  split.
  - apply (ashrdi3_shifts (-8) 1); [unfold is_s64 | unfold is_u32]; lia.
  - apply (ashrdi3_shifts 4294967301 32); [unfold is_s64 | unfold is_u32]; lia.
Defined.

Lemma u64_unique (x y k : Z) : is_u64 y -> x = y + k * 2 ^ 64 -> u64 x = y.
Proof.
  unfold is_u64. intros Hy ->. unfold u64, wrap_u.
  rewrite Z_mod_plus_full. apply Z.mod_small. lia.
Qed.

(** The [uint64_t] reading of an [int64_t] in terms of its halves. *)
Lemma u64_halves (u L H : Z) :
  0 <= L < 2 ^ 32 -> u = H * 2 ^ 32 + L -> u64 u = u32 H * 2 ^ 32 + L.
Proof.
  intros HL Eu. destruct (u32_decompose H) as [k Hk].
  pose proof (u32_range H) as Hr. unfold is_u32 in Hr.
  apply (u64_unique _ _ (- k)); [unfold is_u64; lia |].
  rewrite Hk. lia.
Qed.

(** X22.  [__lshrdi3(u, b)] is the logical shift of the 64-bit pattern of [u]
    for a count up to 32, and has no result above. *)
Theorem lshrdi3_shifts (u b : Z) :
  is_s64 u -> is_u32 b ->
  __lshrdi3 u b = if b <=? 32 then Some (s64 (Z.shiftr (u64 u) b)) else None.
Proof.
  intros Hu Hb. unfold is_u32 in Hb. unfold __lshrdi3.
  destruct (of_all_halves u Hu) as (_ & _ & HL & HH & Eu).
  destruct (Z.eqb_spec b 0) as [-> | Hb0].
  { change (0 <=? 32) with true. cbv iota. rewrite Z.shiftr_0_r. f_equal.
    symmetry. destruct (u64_decompose u) as [k ->].
    apply (s64_unique _ _ k); [exact Hu | reflexivity]. }
  set (L := low (of_all u)) in *. set (H := high (of_all u)) in *.
  clearbody L H. unfold is_u32 in HL. unfold is_s32 in HH.
  rewrite (u64_halves u L H HL Eu).
  pose proof (u32_range H) as HU. unfold is_u32 in HU.
  set (U := u32 H) in *. clearbody U.
  destruct (Z.leb_spec b 32) as [Hle | Hgt].
  - rewrite Z.shiftr_div_pow2 by lia.
    destruct (Z.eq_dec b 32) as [-> | Hne].
    + change (u32 (32 - 32)) with 0. change (0 <=? 0) with true. cbv iota.
      change (u32 (- 0)) with 0. rewrite shr32_div by lia.
      cbn [mbind option_bind]. f_equal.
      change (2 ^ 0) with 1. rewrite Z.div_1_r.
      unfold all. cbn [low high].
      rewrite Z.div_add_l, (Z.div_small L) by lia.
      rewrite s64_id by (unfold is_s64; lia). lia.
    + rewrite bm_small by lia.
      destruct (Z.leb_spec (32 - b) 0) as [? | _]; [lia |].
      rewrite shl32_mod, !shr32_div by lia.
      cbn [mbind option_bind]. f_equal.
      replace (32 - (32 - b)) with b by lia.
      pose proof (pow2_split b ltac:(lia)) as Epq.
      assert (HP : 2 <= 2 ^ b).
      { change 2 with (2 ^ 1) at 1. apply Z.pow_le_mono_r; lia. }
      assert (HQ : 0 < 2 ^ (32 - b)) by (apply Z.pow_pos_nonneg; lia).
      assert (Hc : 0 <= L / 2 ^ b < 2 ^ (32 - b))
        by (split; [apply Z.div_pos | apply Z.div_lt_upper_bound]; nia).
      rewrite Z.lor_comm, lor_disjoint by lia.
      assert (Hh : 0 <= U / 2 ^ b < 2 ^ 31)
        by (split; [apply Z.div_pos | apply Z.div_lt_upper_bound]; nia).
      rewrite (s32_id (U / 2 ^ b)) by (unfold is_s32; lia).
      pose proof (Z.div_mod U (2 ^ b) ltac:(lia)) as EU.
      pose proof (Z.mod_pos_bound U (2 ^ b) ltac:(lia)) as BU.
      set (P := 2 ^ b) in *. set (Q := 2 ^ (32 - b)) in *. clearbody P Q.
      unfold all. cbn [low high].
      replace (U * 2 ^ 32 + L) with (U * Q * P + L) by (rewrite <- Epq; ring).
      rewrite Z.div_add_l by lia.
      assert (Hq : 0 <= U * Q + L / P < 2 ^ 63) by nia.
      rewrite s64_id by (unfold is_s64; lia).
      rewrite <- Epq. rewrite EU at 3. ring.
  - rewrite bm_large by lia.
    destruct (Z.leb_spec (2 ^ 32 + 32 - b) 0) as [? | _]; [lia |].
    unfold shl32. destruct (Z.ltb_spec (2 ^ 32 + 32 - b) 32); [lia |].
    reflexivity.
Qed.

Lemma lshrdi3_shifts_witness :
  __lshrdi3 (-8) 1 = Some (s64 (Z.shiftr (u64 (-8)) 1))
  /\ __lshrdi3 (-8) 40 = None.
Proof.
  split.
  - apply (lshrdi3_shifts (-8) 1); [unfold is_s64 | unfold is_u32]; lia.
  - apply (lshrdi3_shifts (-8) 40); [unfold is_s64 | unfold is_u32]; lia.
Defined.

(** *** [__udivmoddi4] *)

Lemma s64_sign (den : Z) : is_u64 den -> (s64 den >=? 0) = (den <? 2 ^ 63).
Proof.
  unfold is_u64. intros Hd.
  destruct (Z.ltb_spec den (2 ^ 63)) as [Hlt | Hge].
  - rewrite s64_id by (unfold is_s64; lia). apply Z.geb_le. lia.
  - rewrite (s64_unique den (den - 2 ^ 64) 1) by (unfold is_s64; lia).
    destruct (Z.geb_spec (den - 2 ^ 64) 0); [lia | reflexivity].
Qed.

(** The first loop doubles the divisor until its top bit is set. *)
Lemma udivmoddi4_align_spec (den0 : Z) (fuel k : nat) :
  0 < den0 -> den0 * 2 ^ Z.of_nat k < 2 ^ 64 ->
  2 ^ 63 <= den0 * 2 ^ Z.of_nat k * 2 ^ Z.of_nat fuel ->
  exists k' : nat,
    udivmoddi4_align (S fuel) (den0 * 2 ^ Z.of_nat k) (2 ^ Z.of_nat k)
      = Some (den0 * 2 ^ Z.of_nat k', 2 ^ Z.of_nat k')
    /\ 2 ^ 63 <= den0 * 2 ^ Z.of_nat k' < 2 ^ 64.
Proof.
  intros Hden0. revert k.
  induction fuel as [| fuel IH]; intros k Hlt Hfuel.
  - exists k. change (2 ^ Z.of_nat 0) with 1 in Hfuel.
    cbn [udivmoddi4_align].
    pose proof (pow2_nat_pos k) as Hpos.
    rewrite s64_sign by (unfold is_u64; nia).
    destruct (Z.ltb_spec (den0 * 2 ^ Z.of_nat k) (2 ^ 63)); [lia |].
    split; [reflexivity | lia].
  - pose proof (pow2_nat_pos k) as Hpos.
    assert (Hstep : udivmoddi4_align (S (S fuel)) (den0 * 2 ^ Z.of_nat k) (2 ^ Z.of_nat k)
              = if s64 (den0 * 2 ^ Z.of_nat k) >=? 0
                then udivmoddi4_align (S fuel) (u64 (Z.shiftl (den0 * 2 ^ Z.of_nat k) 1))
                       (u64 (Z.shiftl (2 ^ Z.of_nat k) 1))
                else Some (den0 * 2 ^ Z.of_nat k, 2 ^ Z.of_nat k)) by reflexivity.
    rewrite Hstep. clear Hstep.
    rewrite s64_sign by (unfold is_u64; nia).
    destruct (Z.ltb_spec (den0 * 2 ^ Z.of_nat k) (2 ^ 63)) as [Htop | Htop].
    2:{ exists k. split; [reflexivity | lia]. }
    rewrite !Z.shiftl_mul_pow2 by lia.
    rewrite !u64_id by (unfold is_u64; nia).
    replace (den0 * 2 ^ Z.of_nat k * 2 ^ 1) with (den0 * 2 ^ Z.of_nat (S k))
      by (rewrite pow2_nat_succ; lia).
    replace (2 ^ Z.of_nat k * 2 ^ 1) with (2 ^ Z.of_nat (S k))
      by (rewrite pow2_nat_succ; lia).
    apply IH; rewrite pow2_nat_succ; [lia |].
    rewrite pow2_nat_succ in Hfuel. lia.
Qed.

Lemma udivmoddi4_subtract_step (fuel : nat) (num den qbit quot : Z) :
  udivmoddi4_subtract (S fuel) num den qbit quot
    = if qbit =? 0 then Some (num, quot)
      else if den <=? num
           then udivmoddi4_subtract fuel (u64 (num - den)) (Z.shiftr den 1)
                  (Z.shiftr qbit 1) (u64 (quot + qbit))
           else udivmoddi4_subtract fuel num (Z.shiftr den 1) (Z.shiftr qbit 1) quot.
Proof. cbn [udivmoddi4_subtract]. destruct (den <=? num); reflexivity. Qed.

(** The second loop is schoolbook division, one quotient bit a round. *)
Lemma udivmoddi4_subtract_spec (den0 : Z) (k : nat) (fuel : nat) (num quot : Z) :
  0 < den0 -> den0 * 2 ^ Z.of_nat k < 2 ^ 64 ->
  0 <= num < 2 * (den0 * 2 ^ Z.of_nat k) ->
  0 <= quot -> quot + 2 * 2 ^ Z.of_nat k <= 2 ^ 64 ->
  (k + 2 <= fuel)%nat ->
  udivmoddi4_subtract fuel num (den0 * 2 ^ Z.of_nat k) (2 ^ Z.of_nat k) quot
    = Some (num mod den0, quot + num / den0).
Proof.
  intros Hden0. revert fuel num quot.
  induction k as [| k IH]; intros fuel num quot Hden Hnum Hq Hqq Hfuel.
  - destruct fuel as [| [| fuel]]; try lia.
    change (2 ^ Z.of_nat 0) with 1 in *. rewrite Z.mul_1_r in *.
    rewrite udivmoddi4_subtract_step. change (1 =? 0) with false. cbv iota.
    change (Z.shiftr 1 1) with 0.
    destruct (Z.leb_spec den0 num) as [Hle | Hgt];
      rewrite udivmoddi4_subtract_step; change (0 =? 0) with true; cbv iota.
    + rewrite !u64_id by (unfold is_u64; lia).
      assert (Hd : num / den0 = 1)
        by (symmetry; apply (Z.div_unique_pos num den0 1 (num - den0)); lia).
      assert (Hm : num mod den0 = num - den0)
        by (symmetry; apply (Z.mod_unique_pos num den0 1 (num - den0)); lia).
      rewrite Hd, Hm. reflexivity.
    + rewrite Z.div_small, Z.mod_small by lia. rewrite Z.add_0_r. reflexivity.
  - destruct fuel as [| fuel]; [lia |].
    pose proof (pow2_nat_pos k) as Hpos.
    rewrite pow2_nat_succ in *.
    rewrite udivmoddi4_subtract_step.
    destruct (Z.eqb_spec (2 * 2 ^ Z.of_nat k) 0) as [? | _]; [lia |].
    assert (Hs1 : Z.shiftr (den0 * (2 * 2 ^ Z.of_nat k)) 1 = den0 * 2 ^ Z.of_nat k).
    { rewrite Z.shiftr_div_pow2 by lia. change (2 ^ 1) with 2.
      replace (den0 * (2 * 2 ^ Z.of_nat k)) with (den0 * 2 ^ Z.of_nat k * 2) by ring.
      apply Z.div_mul. lia. }
    assert (Hs2 : Z.shiftr (2 * 2 ^ Z.of_nat k) 1 = 2 ^ Z.of_nat k).
    { rewrite Z.shiftr_div_pow2 by lia. change (2 ^ 1) with 2.
      rewrite Z.mul_comm. apply Z.div_mul. lia. }
    rewrite Hs1, Hs2.
    destruct (Z.leb_spec (den0 * (2 * 2 ^ Z.of_nat k)) num) as [Hle | Hgt].
    + rewrite !u64_id by (unfold is_u64; lia).
      rewrite IH by lia. f_equal.
      replace num with (num - den0 * (2 * 2 ^ Z.of_nat k) + (2 * 2 ^ Z.of_nat k) * den0)
        at 3 4 by ring.
      rewrite Z_mod_plus_full, Z.div_add by lia. f_equal. lia.
    + rewrite IH by lia. reflexivity.
Qed.

Lemma udivmoddi4_spec (num den : Z) :
  is_u64 num -> is_u64 den -> den <> 0 ->
  __udivmoddi4 num den = Some (num / den, num mod den).
Proof.
  unfold is_u64. intros Hn Hd Hz. unfold __udivmoddi4.
  destruct (Z.eqb_spec den 0) as [? | _]; [contradiction |].
  destruct (udivmoddi4_align_spec den 64 0) as (k & Hal & Hk);
    [lia | change (2 ^ Z.of_nat 0) with 1; lia
     | change (2 ^ Z.of_nat 0) with 1; change (2 ^ Z.of_nat 64) with (2 ^ 64); lia |].
  change (2 ^ Z.of_nat 0) with 1 in Hal. rewrite Z.mul_1_r in Hal.
  change dword_fuel with 65%nat. rewrite Hal. cbn [mbind option_bind].
  assert (Hk64 : (k < 64)%nat).
  { destruct (Nat.lt_ge_cases k 64) as [? | Hge]; [assumption |].
    pose proof (pow2_nat_le 64 k Hge) as Hp.
    change (2 ^ Z.of_nat 64) with (2 ^ 64) in Hp. nia. }
  assert (Hp : 2 * 2 ^ Z.of_nat k <= 2 ^ 64).
  { pose proof (pow2_nat_le (S k) 64 ltac:(lia)) as Hp.
    rewrite pow2_nat_succ in Hp. change (2 ^ Z.of_nat 64) with (2 ^ 64) in Hp. lia. }
  rewrite udivmoddi4_subtract_spec by lia.
  cbn [mbind option_bind]. reflexivity.
Qed.

(** X23.  [__udivmoddi4(num, den, &rem)] with [den != 0] returns the quotient
    and stores the remainder of the unsigned 64-bit division. *)
Theorem udivmoddi4_correct (num den : Z) :
  is_u64 num -> is_u64 den -> den <> 0 ->
  __udivmoddi4 num den = Some (num / den, num mod den).
Proof. intros. apply udivmoddi4_spec; assumption. Qed.

Lemma udivmoddi4_correct_witness :
  __udivmoddi4 18446744073709551615 10
    = Some (18446744073709551615 / 10, 18446744073709551615 mod 10).
Proof.
  apply (udivmoddi4_correct 18446744073709551615 10); unfold is_u64; lia.
Defined.

(** *** Signed 64-bit division *)

(** What [__divdi3] and [__moddi3] hand to [__udivmoddi4] for an operand
    above the least [int64_t]: its magnitude. *)
Lemma magnitude64 (a : Z) (minus flipped : Z) :
  - 2 ^ 63 < a < 2 ^ 63 ->
  (if a <? 0 then a' ← neg64 a; Some (a', flipped) else Some (a, minus))
    = Some (Z.abs a, if a <? 0 then flipped else minus).
Proof.
  intros Ha. unfold neg64.
  destruct (Z.ltb_spec a 0).
  - destruct (Z.eqb_spec a (- 2 ^ 63)); [lia |].
    cbn [mbind option_bind]. do 2 f_equal. lia.
  - do 2 f_equal. lia.
Qed.

Lemma neg64_least (a : Z) (minus flipped : Z) :
  a = - 2 ^ 63 ->
  (if a <? 0 then a' ← neg64 a; Some (a', flipped) else Some (a, minus)) = None.
Proof. intros ->. reflexivity. Qed.

Lemma abs_range64 (a : Z) : - 2 ^ 63 < a < 2 ^ 63 -> is_u64 (Z.abs a).
Proof. unfold is_u64. lia. Qed.

(** X24.  For [int64_t] operands above the least [int64_t],
    [__divdi3(num, den)] with [den != 0] is the quotient rounded towards
    zero.  When either operand is the least [int64_t] the function
    negates it, which overflows: there is no defined result. *)
Theorem divdi3_truncates (num den : Z) :
  is_s64 num -> is_s64 den ->
  (- 2 ^ 63 < num -> - 2 ^ 63 < den -> den <> 0 ->
   __divdi3 num den = Some (Z.quot num den))
  /\ (num = - 2 ^ 63 \/ den = - 2 ^ 63 -> __divdi3 num den = None).
Proof.
  unfold is_s64. intros Ha Hb. split.
  - intros Hna Hnb Hnz. unfold __divdi3.
    rewrite (magnitude64 num) by lia. cbn [mbind option_bind].
    rewrite (magnitude64 den) by lia. cbn [mbind option_bind].
    rewrite !u64_id by (apply abs_range64; lia).
    rewrite udivmoddi4_spec by (try apply abs_range64; lia).
    cbn [mbind option_bind].
    assert (Hq : Z.quot num den = Z.sgn num * Z.sgn den * (Z.abs num / Z.abs den))
      by (apply Z.quot_div; exact Hnz).
    assert (Hv : 0 <= Z.abs num / Z.abs den < 2 ^ 63).
    { split; [apply Z.div_pos; lia |].
      apply Z.div_lt_upper_bound; nia. }
    rewrite s64_id by (unfold is_s64; lia).
    unfold neg64.
    destruct (Z.eqb_spec (Z.abs num / Z.abs den) (- 2 ^ 63)) as [? | _]; [lia |].
    rewrite Hq.
    destruct (Z.ltb_spec num 0) as [Hal | Hal], (Z.ltb_spec den 0) as [Hbl | Hbl];
      change (Z.lxor 1 1) with 0; change (Z.lxor 0 1) with 1; cbn [Z.eqb]; f_equal.
    + rewrite (Z.sgn_neg num), (Z.sgn_neg den) by lia. lia.
    + rewrite (Z.sgn_neg num), (Z.sgn_pos den) by lia. lia.
    + rewrite (Z.sgn_neg den) by lia.
      destruct (Z.eq_dec num 0) as [-> | ?]; [reflexivity |].
      rewrite (Z.sgn_pos num) by lia. lia.
    + rewrite (Z.sgn_pos den) by lia.
      destruct (Z.eq_dec num 0) as [-> | ?]; [reflexivity |].
      rewrite (Z.sgn_pos num) by lia. lia.
  - intros Hleast. unfold __divdi3.
    destruct (Z.eq_dec num (- 2 ^ 63)) as [Hn | Hn].
    + rewrite (neg64_least num) by exact Hn. reflexivity.
    + rewrite (magnitude64 num) by lia. cbn [mbind option_bind].
      rewrite (neg64_least den) by (destruct Hleast; [contradiction | assumption]).
      reflexivity.
Qed.

Lemma divdi3_truncates_witness :
  (__divdi3 (-7) 2 = Some (Z.quot (-7) 2)
   /\ __divdi3 9223372036854775807 (-1) = Some (Z.quot 9223372036854775807 (-1)))
  /\ __divdi3 (-9223372036854775808) (-1) = None.
Proof.
  split; [split |].
  - apply (divdi3_truncates (-7) 2); unfold is_s64; lia.
  - apply (divdi3_truncates 9223372036854775807 (-1)); unfold is_s64; lia.
  - apply (divdi3_truncates (-9223372036854775808) (-1)); unfold is_s64; lia.
Defined.

(** X25.  For [int64_t] operands above the least [int64_t],
    [__moddi3(num, den)] with [den != 0] has the magnitude of the
    remainder, but its sign is that of [num] only for a positive [den]:
    [minus ^= 1] flips it for a negative one, so that [__moddi3(7, -2)] is
    [-1] where C's [7 % -2] is [1].  When either operand is the least
    [int64_t] the function negates it, which overflows: there is no
    defined result. *)
Theorem moddi3_sign (num den : Z) :
  is_s64 num -> is_s64 den ->
  (- 2 ^ 63 < num -> - 2 ^ 63 < den -> den <> 0 ->
   __moddi3 num den = Some (Z.sgn den * Z.rem num den))
  /\ (num = - 2 ^ 63 \/ den = - 2 ^ 63 -> __moddi3 num den = None).
Proof.
  unfold is_s64. intros Ha Hb. split.
  - intros Hna Hnb Hnz. unfold __moddi3.
    rewrite (magnitude64 num) by lia. cbn [mbind option_bind].
    rewrite (magnitude64 den) by lia. cbn [mbind option_bind].
    rewrite !u64_id by (apply abs_range64; lia).
    rewrite udivmoddi4_spec by (try apply abs_range64; lia).
    cbn [mbind option_bind].
    assert (Hr : Z.rem num den = Z.sgn num * (Z.abs num mod Z.abs den))
      by (apply Z.rem_mod; exact Hnz).
    pose proof (Z.mod_pos_bound (Z.abs num) (Z.abs den) ltac:(lia)) as Hbound.
    rewrite s64_id by (unfold is_s64; lia).
    unfold neg64.
    destruct (Z.eqb_spec (Z.abs num mod Z.abs den) (- 2 ^ 63)) as [? | _]; [lia |].
    rewrite Hr.
    destruct (Z.ltb_spec num 0) as [Hal | Hal], (Z.ltb_spec den 0) as [Hbl | Hbl];
      change (Z.lxor 1 1) with 0; change (Z.lxor 0 1) with 1; cbn [Z.eqb]; f_equal.
    + rewrite (Z.sgn_neg num), (Z.sgn_neg den) by lia. lia.
    + rewrite (Z.sgn_neg num), (Z.sgn_pos den) by lia. lia.
    + rewrite (Z.sgn_neg den) by lia.
      destruct (Z.eq_dec num 0) as [-> | ?]; [reflexivity |].
      rewrite (Z.sgn_pos num) by lia. lia.
    + rewrite (Z.sgn_pos den) by lia.
      destruct (Z.eq_dec num 0) as [-> | ?]; [reflexivity |].
      rewrite (Z.sgn_pos num) by lia. lia.
  - intros Hleast. unfold __moddi3.
    destruct (Z.eq_dec num (- 2 ^ 63)) as [Hn | Hn].
    + rewrite (neg64_least num) by exact Hn. reflexivity.
    + rewrite (magnitude64 num) by lia. cbn [mbind option_bind].
      rewrite (neg64_least den) by (destruct Hleast; [contradiction | assumption]).
      reflexivity.
Qed.

Lemma moddi3_sign_witness :
  (__moddi3 7 (-2) = Some (-1) /\ __moddi3 (-7) 2 = Some (-1)
   /\ __moddi3 (-7) (-2) = Some 1)
  /\ __moddi3 7 (-9223372036854775808) = None.
Proof.
  split; [split; [| split] |].
  - apply (moddi3_sign 7 (-2)); unfold is_s64; lia.
  - apply (moddi3_sign (-7) 2); unfold is_s64; lia.
  - apply (moddi3_sign (-7) (-2)); unfold is_s64; lia.
  - apply (moddi3_sign 7 (-9223372036854775808)); unfold is_s64; lia.
Defined.

End LibcDwordProofs.

Module KernelBudgetProofs.
Import Word Kernel KernelBudget KernelProofs.

(** *** The budget over any number of rounds *)

Lemma set_state_capacities (i : nat) (v : task_state) (k k' : kernel) :
  set_state i v k = Ok tt k' -> capacities_nonneg k -> capacities_nonneg k'.
Proof.
  unfold set_state, capacities_nonneg. intros H Hall.
  apply bind_inv in H as (t & k1 & Hread & H).
  unfold read_tcb in Hread.
  destruct (krnl_tcb k !! i) as [t0 |] eqn:Ht; [| discriminate Hread].
  injection Hread as -> <-.
  apply (write_tcb_capacities i (with_state t v) k k' H Hall).
  cbn [with_state capacity].
  rewrite Forall_forall in Hall. apply Hall.
  eapply list_elem_of_lookup_2, Ht.
Qed.

(** A round leaves no capacity negative: the only capacity it writes is
    [next->capacity - server_fuel], in the branch where the budget is the
    smaller of the two. *)
Lemma round_capacities (f f' : server_frame) (k k' : kernel) (h : handover) :
  polling_server_round f k = Ok (h, f') k' ->
  capacities_nonneg k -> capacities_nonneg k'.
Proof.
  unfold polling_server_round. intros H Hall.
  apply bind_inv in H as (k0 & k1 & Hget & H). injection Hget as <- <-.
  apply bind_inv in H as (q & k1 & Hq & H).
  destruct (krnl_aperiodic_queue k) as [q0 |] eqn:Hq0; [| discriminate Hq].
  injection Hq as <- <-.
  destruct (hf_queue_count q0 =? 0).
  { injection H as <- <- <-. exact Hall. }
  apply bind_inv in H as (next & k1 & Hnext & H).
  assert (Htcb1 : krnl_tcb k1 = krnl_tcb k).
  { unfold polling_server_scheduler in Hnext.
    apply bind_inv in Hnext as (k0 & k2 & Hget & Hnext). injection Hget as <- <-.
    apply bind_inv in Hnext as (q1 & k2 & Hq1 & Hnext).
    rewrite Hq0 in Hq1. injection Hq1 as <- <-.
    destruct (hf_queue_remhead q0) as [e0 q3].
    apply bind_inv in Hnext as ([] & k2 & Hset & Hnext).
    injection Hset as <-. injection Hnext as <- <-. reflexivity. }
  assert (Hall1 : capacities_nonneg k1) by (unfold capacities_nonneg; rewrite Htcb1; exact Hall).
  apply bind_inv in H as (na & k2 & Hna & H).
  destruct next as [n |]; [| discriminate Hna]. injection Hna as <- <-.
  apply bind_inv in H as (fuel & k2 & Hcharge & H).
  assert (Hall2 : capacities_nonneg k2).
  { unfold charge in Hcharge.
    apply bind_inv in Hcharge as (e & k3 & Hread & Hcharge).
    unfold read_tcb in Hread.
    destruct (krnl_tcb k1 !! n) as [e0 |] eqn:He; [| discriminate Hread].
    injection Hread as -> <-.
    destruct (Z.geb_spec (refill f) (capacity e)) as [Hge | Hlt].
    - injection Hcharge as <- <-. exact Hall1.
    - apply bind_inv in Hcharge as ([] & k4 & Hset & Hcharge).
      assert (Hall4 : capacities_nonneg k4).
      { unfold set_capacity in Hset.
        apply bind_inv in Hset as (t & k5 & Hread & Hset).
        unfold read_tcb in Hread. rewrite He in Hread. injection Hread as <- <-.
        apply (write_tcb_capacities n _ k1 k4 Hset Hall1).
        cbn [with_capacity capacity]. lia. }
      apply bind_inv in Hcharge as (k5 & k6 & Hget & Hcharge). injection Hget as <- <-.
      apply bind_inv in Hcharge as (q5 & k7 & Hq5 & Hcharge).
      destruct (krnl_aperiodic_queue k4) as [q6 |]; [| discriminate Hq5].
      injection Hq5 as <- <-.
      apply bind_inv in Hcharge as ([] & k8 & Hset8 & Hcharge).
      injection Hset8 as <-. injection Hcharge as <- <-. exact Hall4. }
  apply bind_inv in H as (pt & k3 & Hpt & H).
  assert (k3 = k2) as ->.
  { unfold tcb_index in Hpt. destruct (polling_id f <? 0); [discriminate Hpt |].
    injection Hpt as <- <-. reflexivity. }
  apply bind_inv in H as ([] & k4 & Hs1 & H).
  pose proof (set_state_capacities _ _ _ _ Hs1 Hall2) as Hall4.
  apply bind_inv in H as ([] & k5 & Hs2 & H).
  pose proof (set_state_capacities _ _ _ _ Hs2 Hall4) as Hall5.
  apply bind_inv in H as ([] & k6 & Hs3 & H). injection Hs3 as <-.
  apply bind_inv in H as (nx & k7 & Hrd & H).
  unfold read_tcb in Hrd. cbn in Hrd.
  destruct (krnl_tcb k5 !! n) as [e7 |]; [| discriminate Hrd].
  injection Hrd as <- <-.
  apply bind_inv in H as ([] & k8 & Hs4 & H). injection Hs4 as <-.
  injection H as <- <- <-. exact Hall5.
Qed.

(** X26.  Whatever runs between the rounds, as long as it leaves no capacity
    negative: through any number of rounds of [polling_server_task] the
    capacity [C] the server read at its start is unchanged, the budget
    stays between 0 and [C], and no capacity in the table turns negative;
    every round hands the processor over once. *)
Theorem polling_server_budget_invariant (n : nat) (arrive : nat -> K unit)
    (f f' : server_frame) (k k' : kernel) (hs : list handover) :
  (forall i k0 k1, arrive i k0 = Ok tt k1 -> capacities_nonneg k0 -> capacities_nonneg k1) ->
  polling_server_rounds n arrive f k = Ok (hs, f') k' ->
  0 <= SERVER_CAPACITY f < 2 ^ 15 ->
  0 <= server_fuel f <= SERVER_CAPACITY f ->
  capacities_nonneg k ->
  SERVER_CAPACITY f' = SERVER_CAPACITY f
  /\ 0 <= server_fuel f' <= SERVER_CAPACITY f
  /\ capacities_nonneg k'
  /\ length hs = n.
Proof.
  intros Harrive. revert f' k' hs.
  induction n as [| n IH]; intros f' k' hs Hrun HC Hfuel Hall.
  - injection Hrun as <- <- <-. repeat split; try lia; assumption.
  - cbn [polling_server_rounds] in Hrun.
    apply bind_inv in Hrun as ([hs1 f1] & k1 & Hrounds & Hrun).
    destruct (IH f1 k1 hs1 Hrounds HC Hfuel Hall) as (HC1 & Hf1 & Hall1 & Hlen).
    apply bind_inv in Hrun as ([] & k2 & Harr & Hrun).
    pose proof (Harrive n k1 k2 Harr Hall1) as Hall2.
    apply bind_inv in Hrun as ([h f2] & k3 & Hround & Hrun).
    injection Hrun as <- <- <-.
    destruct (round_fuel_bounds f1 f2 k2 k3 h Hround) as (HC2 & _ & _ & Hf2);
      [lia | lia | exact Hall2 |].
    split; [lia |]. split; [lia |].
    split; [exact (round_capacities f1 f2 k2 k3 h Hround Hall2) |].
    rewrite length_app. cbn [length]. lia.
Qed.

Lemma polling_server_budget_invariant_witness :
  exists hs f' k',
    polling_server_rounds 5 (fun _ => ret tt) Sample.fresh_frame (Sample.serving 8 [1%nat])
      = Ok (hs, f') k'
    /\ SERVER_CAPACITY f' = 6
    /\ 0 <= server_fuel f' <= 6
    /\ capacities_nonneg k'
    /\ length hs = 5%nat.
Proof.
  eexists _, _, _. split; [vm_compute; reflexivity |].
  apply (polling_server_budget_invariant 5 (fun _ => ret tt) Sample.fresh_frame _
           (Sample.serving 8 [1%nat])).
  - intros i k0 k1 Hret Hall. injection Hret as <-. exact Hall.
  - vm_compute. reflexivity.
  - vm_compute. split; [discriminate | reflexivity].
  - vm_compute. split; discriminate.
  - unfold capacities_nonneg. cbn. repeat constructor; cbn; lia.
Defined.

(** *** [aperiodic_task_generator] *)

(** X27.  Whatever the state of the random generator, the delay between two
    aperiodic tasks lies between 60 and 199 ms. *)
Theorem random_delay_range (rand1 : Z) : 60 <= snd (random_delay rand1) <= 199.
Proof.
  unfold random_delay.
  pose proof (LibcArithProofs.random_result_bounds rand1) as Hr.
  destruct (LibcArith.random rand1) as [rand1' r]. cbn [snd] in *.
  pose proof (Z.rem_bound_pos r 140 ltac:(lia) ltac:(lia)) as Hb.
  rewrite LibcProofs.s32_id by (unfold is_s32; lia). lia.
Qed.

End KernelBudgetProofs.

Module LibcBoundedProofs.
Import Word Libc LibcString LibcBounded LibcProofs LibcStringProofs.

(** *** [strncpy] *)

Lemma strncpy_pad_spec (r : nat) (fuel : nat) (s1 : list Z) (d : nat) (i n : Z) :
  n - i - 1 = Z.of_nat r -> - 2 ^ 31 <= i -> n < 2 ^ 31 ->
  (r < fuel)%nat -> (d + r <= length s1)%nat ->
  strncpy_pad fuel s1 d i n = Some (take d s1 ++ replicate r 0 ++ drop (d + r) s1).
Proof.
  revert fuel s1 d i.
  induction r as [| r IH]; intros fuel s1 d i Hr Hi Hn Hfuel Hlen;
    (destruct fuel as [| fuel]; [lia |]); cbn [strncpy_pad];
    rewrite s32_id by (unfold is_s32; lia).
  - destruct (Z.ltb_spec (i + 1) n); [lia |].
    cbn [replicate app]. rewrite Nat.add_0_r, take_drop. reflexivity.
  - destruct (Z.ltb_spec (i + 1) n); [| lia].
    rewrite wr_inside by lia. cbn [mbind option_bind].
    rewrite IH by (rewrite ?length_insert; lia).
    f_equal.
    rewrite (take_S_r _ d 0) by (apply list_lookup_insert_eq; lia).
    rewrite take_insert_ge by lia.
    rewrite drop_insert_lt by lia.
    rewrite <- app_assoc. cbn [replicate app].
    replace (S d + r)%nat with (d + S r)%nat by lia. reflexivity.
Qed.

Lemma strncpy_loop_spec (r : nat) (fuel : nat) (s1 : list Z) (d : nat) (s2 : list Z)
    (p : nat) (i n : Z) :
  n - i = Z.of_nat r -> - 2 ^ 31 <= i -> n < 2 ^ 31 ->
  (r < fuel)%nat -> (d + r <= length s1)%nat ->
  strncpy_loop fuel s1 d s2 p i n
    = Some (take d s1 ++ take r (cstr (drop p s2))
            ++ replicate (r - length (cstr (drop p s2))) 0 ++ drop (d + r) s1).
Proof.
  revert fuel s1 d p i.
  induction r as [| r IH]; intros fuel s1 d p i Hr Hi Hn Hfuel Hlen;
    (destruct fuel as [| fuel]; [lia |]); cbn [strncpy_loop].
  - destruct (Z.ltb_spec i n); [lia |].
    rewrite take_0, Nat.sub_0_l. cbn [replicate app].
    rewrite Nat.add_0_r, take_drop. reflexivity.
  - destruct (Z.ltb_spec i n); [| lia].
    rewrite wr_inside by lia. cbn [mbind option_bind].
    rewrite cstr_drop.
    destruct (Z.eqb_spec (deref s2 p) 0) as [Hz | Hnz].
    + rewrite (strncpy_pad_spec r) by (rewrite ?length_insert; lia).
      f_equal. rewrite Hz.
      rewrite (take_S_r _ d 0) by (apply list_lookup_insert_eq; lia).
      rewrite take_insert_ge by lia.
      rewrite drop_insert_lt by lia.
      rewrite <- app_assoc. rewrite take_nil. cbn [length].
      rewrite Nat.sub_0_r. cbn [replicate app].
      replace (S d + r)%nat with (d + S r)%nat by lia. reflexivity.
    + rewrite s32_id by (unfold is_s32; lia).
      rewrite IH by (rewrite ?length_insert; lia).
      f_equal.
      rewrite (take_S_r _ d (deref s2 p)) by (apply list_lookup_insert_eq; lia).
      rewrite take_insert_ge by lia.
      rewrite drop_insert_lt by lia.
      rewrite <- app_assoc. rewrite firstn_cons. cbn [length].
      rewrite Nat.sub_succ. cbn [app].
      replace (S d + r)%nat with (d + S r)%nat by lia. reflexivity.
Qed.

(** X28.  [strncpy(s1, s2, n)] writes exactly [n] bytes (none for [n <= 0]): the
    first [n] characters of the string [s2] and, when the string is
    shorter, NULs up to [n].  A string of [n] or more characters is
    copied without a terminator. *)
Theorem strncpy_fills (s1 s2 : list Z) (n : Z) :
  is_s32 n -> (Z.to_nat n <= length s1)%nat ->
  strncpy s1 s2 n
    = Some (take (Z.to_nat n) (cstr s2)
            ++ replicate (Z.to_nat n - length (cstr s2)) 0
            ++ drop (Z.to_nat n) s1).
Proof.
  unfold is_s32. intros Hn Hlen. unfold strncpy.
  destruct (Z.le_gt_cases n 0) as [Hle | Hgt].
  - cbn [strncpy_loop]. destruct (Z.ltb_spec 0 n); [lia |].
    replace (Z.to_nat n) with 0%nat by lia. reflexivity.
  - rewrite (strncpy_loop_spec (Z.to_nat n)) by lia.
    rewrite drop_0, take_0. reflexivity.
Qed.

Lemma strncpy_fills_witness :
  strncpy [9; 9; 9; 9; 9; 9] [104; 105] 4 = Some [104; 105; 0; 0; 9; 9]
  /\ strncpy [9; 9; 9; 9; 9; 9] [104; 105; 106; 107] 3 = Some [104; 105; 106; 9; 9; 9].
Proof.
  split.
  - apply (strncpy_fills [9; 9; 9; 9; 9; 9] [104; 105] 4); [unfold is_s32; lia | cbn; lia].
  - apply (strncpy_fills [9; 9; 9; 9; 9; 9] [104; 105; 106; 107] 3);
      [unfold is_s32; lia | cbn; lia].
Defined.

(** *** [strncat] *)

Lemma strncat_seek_spec (s1 : list Z) (fuel d : nat) :
  (length s1 < fuel + d)%nat ->
  (d + length (cstr (drop d s1)) < length s1)%nat ->
  strncat_seek fuel s1 d = Some (S (d + length (cstr (drop d s1)))).
Proof.
  revert d. induction fuel as [| fuel IH]; intros d Hfuel Hend; [lia |].
  cbn [strncat_seek].
  destruct (lookup_lt_is_Some_2 s1 d ltac:(lia)) as [c Hc].
  unfold rd. rewrite Hc. cbn [mbind option_bind].
  rewrite cstr_drop in Hend |- *. rewrite (deref_lookup s1 d c Hc) in Hend |- *.
  destruct (Z.eqb_spec c 0) as [Hz | Hnz].
  - cbn [length]. f_equal. lia.
  - cbn [length] in Hend |- *. rewrite IH by lia. f_equal. lia.
Qed.

Lemma strncat_loop_spec (s2 : list Z) (fuel : nat) (s1 : list Z) (d p : nat) (n : Z) :
  - 2 ^ 31 < n < 2 ^ 31 ->
  (p <= length s2 < fuel + p)%nat ->
  (d + length (take (Z.to_nat n) (cstr (drop p s2))) < length s1)%nat ->
  strncat_loop fuel s1 d s2 p n
    = Some (take d s1 ++ take (Z.to_nat n) (cstr (drop p s2)) ++ [0]
            ++ drop (d + length (take (Z.to_nat n) (cstr (drop p s2))) + 1) s1).
Proof.
  revert s1 d p n.
  induction fuel as [| fuel IH]; intros s1 d p n Hn Hp Hroom; [lia |].
  cbn [strncat_loop]. rewrite cstr_drop in Hroom |- *.
  rewrite wr_inside by lia. cbn [mbind option_bind].
  destruct (Z.eqb_spec (deref s2 p) 0) as [Hz | Hnz].
  - rewrite Hz. rewrite take_nil. cbn [length app]. rewrite Nat.add_0_r, Nat.add_1_r.
    f_equal. apply insert_take_drop. lia.
  - pose proof (deref_inside s2 p Hnz) as Hin.
    rewrite s32_id by (unfold is_s32; lia).
    destruct (Z.ltb_spec (n - 1) 0) as [Hneg | Hpos].
    + replace (Z.to_nat n) with 0%nat by lia. rewrite take_0. cbn [length app Nat.pred].
      rewrite wr_inside by (rewrite length_insert; lia).
      rewrite list_insert_insert_eq. rewrite Nat.add_0_r, Nat.add_1_r.
      f_equal. apply insert_take_drop. lia.
    + replace (Z.to_nat n) with (S (Z.to_nat (n - 1))) in Hroom |- * by lia.
      rewrite firstn_cons in Hroom |- *. cbn [length] in Hroom.
      rewrite IH by (rewrite ?length_insert; lia).
      f_equal.
      rewrite (take_S_r _ d (deref s2 p)) by (apply list_lookup_insert_eq; lia).
      rewrite take_insert_ge by lia.
      rewrite drop_insert_lt by lia.
      rewrite <- app_assoc. cbn [app].
      replace (S d + length (take (Z.to_nat (n - 1)) (cstr (drop (S p) s2))) + 1)%nat
        with (d + S (length (take (Z.to_nat (n - 1)) (cstr (drop (S p) s2)))) + 1)%nat
        by lia.
      reflexivity.
Qed.

(** X29.  [strncat(s1, s2, n)] with [n] above [INT32_MIN]: when the buffer holds
    a terminated string and has room, it ends up holding that string, the
    first [n] characters of [s2] (none for [n <= 0]), a NUL, and the old
    bytes after them. *)
Theorem strncat_appends (s1 s2 : list Z) (n : Z) :
  - 2 ^ 31 < n < 2 ^ 31 ->
  (length (cstr s1) + length (take (Z.to_nat n) (cstr s2)) < length s1)%nat ->
  strncat s1 s2 n
    = Some (cstr s1 ++ take (Z.to_nat n) (cstr s2) ++ [0]
            ++ drop (length (cstr s1) + length (take (Z.to_nat n) (cstr s2)) + 1) s1).
Proof.
  intros Hn Hroom. unfold strncat.
  rewrite strncat_seek_spec by (rewrite ?drop_0; lia).
  rewrite drop_0. cbn [mbind option_bind Nat.add Nat.pred].
  rewrite strncat_loop_spec by (rewrite ?drop_0; lia).
  rewrite drop_0, take_cstr. reflexivity.
Qed.

Lemma strncat_appends_witness :
  strncat [104; 105; 0; 9; 9; 9; 9] [33; 63; 64; 0] 2 = Some [104; 105; 33; 63; 0; 9; 9]
  /\ strncat [104; 105; 0; 9; 9; 9; 9] [33; 63; 64; 0] (-1) = Some [104; 105; 0; 9; 9; 9; 9].
Proof.
  split.
  - apply (strncat_appends [104; 105; 0; 9; 9; 9; 9] [33; 63; 64; 0] 2); [lia | vm_compute; lia].
  - apply (strncat_appends [104; 105; 0; 9; 9; 9; 9] [33; 63; 64; 0] (-1)); [lia | vm_compute; lia].
Defined.

(** *** [strstr] *)

(** The inner loop stops at the terminator of [find] exactly when [find]
    is a prefix of the string at [p]. *)
Lemma strstr_match_spec (string find : list Z) (p fuel j : nat) :
  Z.of_nat (length find) < 2 ^ 31 ->
  (j <= length find < fuel + j)%nat ->
  exists j' : nat,
    strstr_match fuel string p find (Z.of_nat j) = Some (Z.of_nat j')
    /\ (deref find j' = 0
        <-> cstr (drop j find) `prefix_of` cstr (drop (p + j) string)).
Proof.
  intros Hfit. revert j.
  induction fuel as [| fuel IH]; intros j Hj; [lia |].
  cbn [strstr_match]. rewrite Nat2Z.id.
  rewrite (cstr_drop find j), (cstr_drop string (p + j)).
  destruct (Z.eqb_spec (deref string (p + j)) (deref find j)) as [Heq | Hne];
    destruct (Z.eqb_spec (deref find j) 0) as [Hz | Hnz]; cbn [andb negb].
  - exists j. split; [reflexivity |]. split; [intros _; apply prefix_nil | intros _; exact Hz].
  - pose proof (deref_inside find j Hnz) as Hin.
    rewrite s32_id by (unfold is_s32; lia).
    replace (Z.of_nat j + 1) with (Z.of_nat (S j)) by lia.
    destruct (IH (S j) ltac:(lia)) as (j' & Hrun & Hiff).
    exists j'. split; [exact Hrun |].
    rewrite Heq. destruct (Z.eqb_spec (deref find j) 0) as [? | _]; [contradiction |].
    rewrite Hiff. rewrite Nat.add_succ_r.
    split; [apply prefix_cons | apply prefix_cons_inv_2].
  - exists j. split; [reflexivity |]. split; [intros _; apply prefix_nil | intros _; exact Hz].
  - exists j. split; [reflexivity |]. split; [intros Hz; contradiction |].
    intros Hpre. exfalso.
    destruct (Z.eqb_spec (deref string (p + j)) 0) as [_ | _].
    + apply prefix_nil_not in Hpre. exact Hpre.
    + apply prefix_cons_inv_1 in Hpre. apply Hne. symmetry. exact Hpre.
Qed.

Lemma strstr_loop_spec (string find : list Z) (fuel p : nat) :
  Z.of_nat (length find) < 2 ^ 31 ->
  (p <= length string < fuel + p)%nat ->
  exists r,
    strstr_loop fuel string p find = Some r
    /\ match r with
       | Some k =>
           exists m : nat,
             k = (p + m)%nat
             /\ (m <= length (cstr (drop p string)))%nat
             /\ cstr find `prefix_of` drop m (cstr (drop p string))
             /\ forall j : nat, (j < m)%nat ->
                  ~ cstr find `prefix_of` drop j (cstr (drop p string))
       | None =>
           forall j : nat, (j <= length (cstr (drop p string)))%nat ->
             ~ cstr find `prefix_of` drop j (cstr (drop p string))
       end.
Proof.
  intros Hfit. revert p.
  induction fuel as [| fuel IH]; intros p Hp; [lia |].
  cbn [strstr_loop].
  destruct (strstr_match_spec string find p (S (length find)) 0 Hfit ltac:(lia))
    as (j' & Hrun & Hiff).
  change (Z.of_nat 0) with 0 in Hrun. rewrite Hrun. cbn [mbind option_bind].
  rewrite Nat2Z.id. rewrite drop_0, Nat.add_0_r in Hiff.
  destruct (Z.eqb_spec (deref find j') 0) as [Hz | Hnz].
  - eexists. split; [reflexivity |].
    exists 0%nat. rewrite drop_0.
    split; [lia |]. split; [lia |]. split; [apply Hiff, Hz |]. intros j Hlt. lia.
  - assert (Hno : ~ cstr find `prefix_of` cstr (drop p string))
      by (intros Hpre; apply Hnz, Hiff, Hpre).
    rewrite (cstr_drop string p) in Hno |- *.
    destruct (Z.eqb_spec (deref string p) 0) as [Hc | Hc].
    + eexists. split; [reflexivity |].
      intros j Hj. cbn [length] in Hj. replace j with 0%nat by lia. exact Hno.
    + pose proof (deref_inside string p Hc) as Hin.
      destruct (IH (S p) ltac:(lia)) as (r & Hloop & Hr).
      exists r. split; [exact Hloop |].
      destruct r as [k |].
      * destruct Hr as (m & -> & Hm & Hpre & Hfirst).
        exists (S m). cbn [length drop].
        split; [lia |]. split; [lia |]. split; [exact Hpre |].
        intros [| j] Hlt; [exact Hno | apply Hfirst; lia].
      * intros [| j] Hj; [exact Hno |]. cbn [length] in Hj. cbn [drop].
        apply Hr. lia.
Qed.

(** X30.  [strstr(string, find)] returns the first position of the string at
    which [find] occurs, and the null pointer when it occurs nowhere; an
    empty [find] occurs at the start. *)
Theorem strstr_first_occurrence (string find : list Z) :
  Z.of_nat (length find) < 2 ^ 31 ->
  exists r,
    strstr string find = Some r
    /\ match r with
       | Some k =>
           (k <= length (cstr string))%nat
           /\ cstr find `prefix_of` drop k (cstr string)
           /\ forall j : nat, (j < k)%nat -> ~ cstr find `prefix_of` drop j (cstr string)
       | None =>
           forall j : nat, (j <= length (cstr string))%nat ->
             ~ cstr find `prefix_of` drop j (cstr string)
       end.
Proof.
  intros Hfit. unfold strstr.
  destruct (strstr_loop_spec string find (S (length string)) 0 Hfit ltac:(lia))
    as (r & Hrun & Hr).
  exists r. split; [exact Hrun |].
  rewrite drop_0 in Hr.
  destruct r as [k |]; [| exact Hr].
  destruct Hr as (m & -> & Hm & Hpre & Hfirst).
  cbn [Nat.add]. split; [exact Hm |]. split; [exact Hpre | exact Hfirst].
Qed.

Lemma strstr_first_occurrence_witness :
  exists r,
    strstr [1; 2; 1; 2; 3; 0; 7]%Z [1; 2; 3]%Z = Some r
    /\ match r with
       | Some k =>
           (k <= length (cstr [1; 2; 1; 2; 3; 0; 7]%Z))%nat
           /\ cstr [1; 2; 3]%Z `prefix_of` drop k (cstr [1; 2; 1; 2; 3; 0; 7]%Z)
           /\ forall j : nat, (j < k)%nat -> ~ cstr [1; 2; 3]%Z `prefix_of` drop j (cstr [1; 2; 1; 2; 3; 0; 7]%Z)
       | None =>
           forall j : nat, (j <= length (cstr [1; 2; 1; 2; 3; 0; 7]%Z))%nat ->
             ~ cstr [1; 2; 3]%Z `prefix_of` drop j (cstr [1; 2; 1; 2; 3; 0; 7]%Z)
       end.
Proof. apply (strstr_first_occurrence [1; 2; 1; 2; 3; 0; 7]%Z [1; 2; 3]%Z). cbn. lia. Defined.

End LibcBoundedProofs.
